(** * CloudFox CAPE: the cross-account graph assembly of [cli/aws.go]

    A shallow embedding of [runCapeCommand] (cli/aws.go, lines 1010-1245) and
    of the path computation of [runCapeTUICommand] (lines 1321-1360).

    The command threads a handful of mutable locals (the account ledger
    [analyzedAccounts], the node and edge buffers, the graph) through three
    loops over the profile list and four loops over the merged nodes, the
    ignore-list and the imported edges.  The embedding makes that state
    explicit, keeps one definition per loop body, and records every call into
    the graph library and into [MergeNodes] in a call log, so that the
    ordering requirements of the assembly can be stated over the log.  The
    query loop that follows the assembly (from line 1247) reads the graph and
    is not part of the embedding. *)

From Stdlib Require Import Ascii ZArith.
From stdpp Require Import gmap strings list fin_maps.
From Equations Require Import Equations.

Local Open Scope string_scope.
Local Open Scope list_scope.

(** ** Data model *)

(** [aws.CapeJobInfo], the entry of the account ledger.  The fields are the
    ones of the struct literal at cli/aws.go:1035. *)
Module CapeJobInfo.
Record t := mk {
  AccountID : string;
  Profile : string;
  AnalyzedSuccessfully : bool;
  AdminOnlyAnalysis : bool;
  Source : string
}.

(** The Go zero value: every field a literal leaves out gets it. *)
Definition zero : t := mk "" "" false false "".
End CapeJobInfo.

(** One statement of a role's trust policy, as the specification describes
    the parsed document: effect, principal references, actions, conditions. *)
Record PolicyStatement := {
  Effect : string;
  Principals : list string;
  Actions : list string;
  Conditions : list (string * string)
}.

(** [aws.Node].  The first seven fields are the ones [runCapeCommand] reads
    (lines 1162-1173 and 1237); [TrustsDoc] stands for the trust data a role
    node carries for [FindVerticesInRoleTrust] and [MakeRoleEdges]. *)
Module Node.
Record t := mk {
  Arn : string;
  Type' : string;
  Name : string;
  VendorName : string;
  IsAdminString : string;
  CanPrivEscToAdminString : string;
  AccountID : string;
  TrustsDoc : list PolicyStatement
}.
End Node.

(** An imported escalation edge, with the four fields read at lines
    1199-1201. *)
Module Edge.
Record t := mk {
  Source : string;
  Destination : string;
  ShortReason : string;
  Reason : string
}.
End Edge.

(** [aws.PmapperModule], as far as the command reads it. *)
Record PmapperModule := {
  Nodes : list Node.t;
  Edges : list Edge.t
}.

(** The zero value a Go map lookup yields for a profile that has no entry. *)
Definition PmapperModule_zero : PmapperModule := {| Nodes := []; Edges := [] |}.

(** [sts.GetCallerIdentityOutput]: only [Account], a [*string], is read. *)
Record Caller := { Account : option string }.

(** [ptr.ToString]: a nil pointer reads as the empty string. *)
Definition ptr_ToString (p : option string) : string := default "" p.

(** [types.Role] and [types.User] of the IAM SDK, as far as they are used. *)
Record Role := {
  RoleArn : string;
  RoleName : string;
  AssumeRolePolicyDocument : list PolicyStatement
}.

Record User := {
  UserArn : string;
  UserName : string
}.

(** A row of the permissions table, as its cells.  The command only tests the
    slice for nil and appends it to the global table. *)
Definition PermissionsRow : Type := list string.

(** The vendor map: account ID of an AWS-owned account to its vendor label. *)
Abbreviation Vendors := (gmap string string).

(** ** The graph library

    Modelled from the spec: the directed graph of the third-party package
    [github.com/dominikbraun/graph] (v0.23.0 in go.mod) is not part of the
    sources.  The model follows the data model of the specification (vertices
    keyed by ARN whose attributes are fixed at insertion, at most one edge per
    ordered pair carrying a map of reasons) and the error values the caller
    tests for at lines 1203-1204. *)
Module graph.

Inductive error :=
| ErrVertexAlreadyExists
| ErrVertexNotFound
| ErrEdgeAlreadyExists
| ErrEdgeNotFound
| ErrVertexHasEdges.

#[global] Instance error_eq_dec : EqDecision error.
Proof. solve_decision. Defined.

(** A vertex is its hash (the ARN, under [graph.StringHash]) with an
    attribute map; an edge is an ordered pair with an attribute map. *)
Record Graph := mkGraph {
  vertices : gmap string (gmap string string);
  edges : gmap (string * string) (gmap string string)
}.

(** [graph.New(graph.StringHash, graph.Directed())] *)
Definition New : Graph := mkGraph ∅ ∅.

(** [graph.VertexAttribute(k, v)], applied in argument order to an empty
    attribute map. *)
Definition VertexAttributes (opts : list (string * string)) : gmap string string :=
  foldl (fun m kv => <[kv.1 := kv.2]> m) ∅ opts.

(** [AddVertex]: refuses a hash that is present and leaves it as it is. *)
Definition AddVertex (g : Graph) (hash : string) (opts : list (string * string))
  : Graph * option error :=
  match vertices g !! hash with
  | Some _ => (g, Some ErrVertexAlreadyExists)
  | None => (mkGraph (<[hash := VertexAttributes opts]> (vertices g)) (edges g), None)
  end.

(** Does some edge start or end at [hash]? *)
Definition incident (hash : string) (e : (string * string) * gmap string string) : Prop :=
  e.1.1 = hash ∨ e.1.2 = hash.

#[global] Instance incident_dec hash e : Decision (incident hash e).
Proof. unfold incident. apply _. Defined.

Definition has_edges (g : Graph) (hash : string) : bool :=
  bool_decide (filter (incident hash) (edges g) ≠ ∅).

(** [RemoveVertex]: refuses an absent vertex and a vertex with edges. *)
Definition RemoveVertex (g : Graph) (hash : string) : Graph * option error :=
  match vertices g !! hash with
  | None => (g, Some ErrVertexNotFound)
  | Some _ =>
      if has_edges g hash then (g, Some ErrVertexHasEdges)
      else (mkGraph (delete hash (vertices g)) (edges g), None)
  end.

(** The functional options of [AddEdge] and [UpdateEdge]. *)
Inductive EdgeOption :=
| EdgeAttribute (key value : string)
| EdgeAttributes (attributes : gmap string string).

Definition apply_option (o : EdgeOption) (attrs : gmap string string) : gmap string string :=
  match o with
  | EdgeAttribute k v => <[k := v]> attrs
  | EdgeAttributes m => m
  end.

(** [AddEdge]: both end points must be vertices and the pair must be free;
    the new edge starts from an empty attribute map. *)
Definition AddEdge (g : Graph) (source target : string) (o : EdgeOption)
  : Graph * option error :=
  match vertices g !! source with
  | None => (g, Some ErrVertexNotFound)
  | Some _ =>
      match vertices g !! target with
      | None => (g, Some ErrVertexNotFound)
      | Some _ =>
          match edges g !! (source, target) with
          | Some _ => (g, Some ErrEdgeAlreadyExists)
          | None =>
              (mkGraph (vertices g) (<[(source, target) := apply_option o ∅]> (edges g)), None)
          end
      end
  end.

(** [Edge]: the attribute map of the stored edge.  A failed lookup returns
    the zero edge, whose attribute map is nil. *)
Definition Edge (g : Graph) (source target : string)
  : option (gmap string string) * option error :=
  match edges g !! (source, target) with
  | None => (None, Some ErrEdgeNotFound)
  | Some attrs => (Some attrs, None)
  end.

(** [UpdateEdge]: applies the option to the stored edge's properties. *)
Definition UpdateEdge (g : Graph) (source target : string) (o : EdgeOption)
  : Graph * option error :=
  match edges g !! (source, target) with
  | None => (g, Some ErrEdgeNotFound)
  | Some attrs =>
      (mkGraph (vertices g) (<[(source, target) := apply_option o attrs]> (edges g)), None)
  end.

End graph.

(** ** Collaborators

    What the command obtains from outside: the answers of the AWS calls and
    of the file system, per profile.  A failed call is [None] (or the error
    text on the right of a sum).  A call the command repeats in a later loop
    ([AWSWhoami], once per loop and profile) gets the same answer each time. *)
Record World := {
  (** [internal.AWSWhoami]; [None] when [err != nil]. *)
  AWSWhoami : string → option Caller;
  (** [internal.InitializeCloudFoxRunData]: the run's [OutputLocation]. *)
  InitializeCloudFoxRunData : string → option string;
  (** [aws.InitPmapperGraph], called with the caller and [AWSProfile] *)
  InitPmapperGraph : Caller → string → PmapperModule + string;
  (** [PermissionsCommandClient.Rows] after [GetGAAD] and
      [ParsePermissions]; [None] is the nil slice. *)
  PermissionsRows : Caller → string → option (list PermissionsRow);
  (** [sdk.CachedIamListRoles] and [sdk.CachedIamListUsers], by profile
      (whose configuration the client is built from) and account. *)
  CachedIamListRoles : string → string → list Role;
  CachedIamListUsers : string → string → list User;
  (** [knownawsaccountslookup.NewVendorMap()] once populated. *)
  vendors : Vendors;
  (** [aws.ReadArnIgnoreListFile]: the ARNs read and the error, if any. *)
  ReadArnIgnoreListFile : string → list string * option string;
  (** [os.Stat]: does the file exist? *)
  FileExists : string → bool
}.

(** The functions of package [aws] that the command calls and whose bodies
    are not among the sources; the assembly is stated for any of them.  They
    are functions of their arguments; [MakeRoleEdges], a method that works on
    the graph it is given, returns the graph it leaves. *)
Record CapePackage := {
  ConvertIAMRoleToNode : Role → Vendors → gmap string CapeJobInfo.t → Node.t;
  FindVerticesInRoleTrust : Node.t → Vendors → list Node.t;
  ConvertIAMUserToNode : User → Node.t;
  MergeNodes : list Node.t → list Node.t;
  MakeRoleEdges : Node.t → graph.Graph → graph.Graph
}.

(** The package-level flag variables of cli/aws.go the command reads. *)
Record Flags := {
  AWSProfiles : list string;
  AWSProfile : string;
  CapeAdminOnly : bool;
  CapeArnIgnoreList : string
}.

(** ** State and call log *)

Inductive Event :=
| CallMergeNodes (nodes : list Node.t)
| CallAddVertex (node : Node.t)
| CallRemoveVertex (arn : string)
| CallAddEdge (source target : string)
| CallUpdateEdge (source target : string)
| CallMakeRoleEdges (node : Node.t)
| CallExit (code : Z).

(** The locals of [runCapeCommand], the global permissions table, the
    standard input still to be read, and the call log. *)
Record CapeState := mkState {
  analyzedAccounts : gmap string CapeJobInfo.t;
  pmapperData : gmap string PmapperModule;
  GlobalNodes : list Node.t;
  GlobalPmapperEdges : list Edge.t;
  PermissionRowsFromAllProfiles : list PermissionsRow;
  GlobalGraph : graph.Graph;
  stdin : list string;
  log : list Event
}.

Definition initial (input : list string) : CapeState :=
  mkState ∅ ∅ [] [] [] graph.New input [].

Definition set_analyzedAccounts (f : gmap string CapeJobInfo.t → gmap string CapeJobInfo.t)
  (st : CapeState) : CapeState :=
  mkState (f (analyzedAccounts st)) (pmapperData st) (GlobalNodes st)
    (GlobalPmapperEdges st) (PermissionRowsFromAllProfiles st) (GlobalGraph st)
    (stdin st) (log st).

Definition set_pmapperData (f : gmap string PmapperModule → gmap string PmapperModule)
  (st : CapeState) : CapeState :=
  mkState (analyzedAccounts st) (f (pmapperData st)) (GlobalNodes st)
    (GlobalPmapperEdges st) (PermissionRowsFromAllProfiles st) (GlobalGraph st)
    (stdin st) (log st).

Definition append_GlobalNodes (ns : list Node.t) (st : CapeState) : CapeState :=
  mkState (analyzedAccounts st) (pmapperData st) (GlobalNodes st ++ ns)
    (GlobalPmapperEdges st) (PermissionRowsFromAllProfiles st) (GlobalGraph st)
    (stdin st) (log st).

Definition append_GlobalPmapperEdges (es : list Edge.t) (st : CapeState) : CapeState :=
  mkState (analyzedAccounts st) (pmapperData st) (GlobalNodes st)
    (GlobalPmapperEdges st ++ es) (PermissionRowsFromAllProfiles st) (GlobalGraph st)
    (stdin st) (log st).

Definition append_PermissionRows (rows : list PermissionsRow) (st : CapeState) : CapeState :=
  mkState (analyzedAccounts st) (pmapperData st) (GlobalNodes st)
    (GlobalPmapperEdges st) (PermissionRowsFromAllProfiles st ++ rows) (GlobalGraph st)
    (stdin st) (log st).

Definition set_GlobalGraph (g : graph.Graph) (st : CapeState) : CapeState :=
  mkState (analyzedAccounts st) (pmapperData st) (GlobalNodes st)
    (GlobalPmapperEdges st) (PermissionRowsFromAllProfiles st) g
    (stdin st) (log st).

Definition set_stdin (input : list string) (st : CapeState) : CapeState :=
  mkState (analyzedAccounts st) (pmapperData st) (GlobalNodes st)
    (GlobalPmapperEdges st) (PermissionRowsFromAllProfiles st) (GlobalGraph st)
    input (log st).

Definition emit (ev : Event) (st : CapeState) : CapeState :=
  mkState (analyzedAccounts st) (pmapperData st) (GlobalNodes st)
    (GlobalPmapperEdges st) (PermissionRowsFromAllProfiles st) (GlobalGraph st)
    (stdin st) (log st ++ [ev]).

(** [fmt.Scanln(&s)]: [s] receives the next line of input, and keeps its
    zero value when there is none. *)
Definition Scanln (st : CapeState) : string * CapeState :=
  match stdin st with
  | [] => ("", st)
  | line :: rest => (line, set_stdin rest st)
  end.

(** How a run ends: it reaches the end of the assembly, or [os.Exit] stops
    the process where it stands. *)
Inductive Result :=
| Completed (st : CapeState)
| Exited (code : Z) (st : CapeState).

Definition andThen (r : Result) (k : CapeState → Result) : Result :=
  match r with
  | Completed st => k st
  | Exited code st => Exited code st
  end.

(** A [for _, x := range xs] whose body may exit the process. *)
Fixpoint forRange {A} (body : CapeState → A → Result) (st : CapeState) (xs : list A) : Result :=
  match xs with
  | [] => Completed st
  | x :: xs' => andThen (body st x) (fun st' => forRange body st' xs')
  end.

Definition final (r : Result) : CapeState :=
  match r with
  | Completed st => st
  | Exited _ st => st
  end.

Definition completed (r : Result) : bool :=
  match r with
  | Completed _ => true
  | Exited _ _ => false
  end.

(** ** [runCapeCommand] *)

(** The record the two error paths store, [aws.CapeJobInfo{AnalyzedSuccessfully:
    false}] (lines 1050 and 1083): the literal names one field, the others
    take their zero values. *)
Definition unsuccessfulJob : CapeJobInfo.t :=
  CapeJobInfo.mk (CapeJobInfo.AccountID CapeJobInfo.zero)
    (CapeJobInfo.Profile CapeJobInfo.zero) false
    (CapeJobInfo.AdminOnlyAnalysis CapeJobInfo.zero)
    (CapeJobInfo.Source CapeJobInfo.zero).

(** The six vertex attributes of lines 1163-1168, in argument order. *)
Definition vertexOptions (node : Node.t) : list (string * string) :=
  [ ("Type", Node.Type' node);
    ("Name", Node.Name node);
    ("VendorName", Node.VendorName node);
    ("IsAdminString", Node.IsAdminString node);
    ("CanPrivEscToAdminString", Node.CanPrivEscToAdminString node);
    ("AccountID", Node.AccountID node) ].

(** The entry vertex insertion creates for an account seen for the first
    time (line 1174). *)
Definition discoveredJob (flags : Flags) (accountId : string) : CapeJobInfo.t :=
  CapeJobInfo.mk accountId "" false (CapeAdminOnly flags) "cloudfox".

Section RunCapeCommand.

Variable w : World.
Variable pkg : CapePackage.
Variable flags : Flags.

(** First loop, lines 1023-1037: one ledger entry per profile that
    authenticates and whose run data initialises. *)
Definition registerProfile (st : CapeState) (profile : string) : CapeState :=
  match AWSWhoami w profile with
  | None => st
  | Some caller =>
      match InitializeCloudFoxRunData w profile with
      | None => st
      | Some _ =>
          set_analyzedAccounts
            <[ptr_ToString (Account caller) :=
                CapeJobInfo.mk (ptr_ToString (Account caller)) profile true
                  (CapeAdminOnly flags) "user"]> st
      end
  end.

(** Second loop, lines 1041-1065: the escalation data of each profile.  On
    an import error the entry of the account is overwritten, the operator is
    asked, and any answer but [y] exits with status 1. *)
Definition importPmapper (st : CapeState) (profile : string) : Result :=
  match AWSWhoami w profile with
  | None => Completed st
  | Some caller =>
      match InitPmapperGraph w caller (AWSProfile flags) with
      | inr pmapperError =>
          let st1 :=
            set_analyzedAccounts <[ptr_ToString (Account caller) := unsuccessfulJob]> st in
          let '(continueAnalysis, st2) := Scanln st1 in
          if decide (continueAnalysis = "y") then Completed st2
          else Exited 1 (emit (CallExit 1) st2)
      | inl pmapperMod =>
          Completed (set_pmapperData <[profile := pmapperMod]> st)
      end
  end.

(** Lines 1122-1131: the role itself, then the vertices of its trust policy.
    The ledger passed is the one of the moment. *)
Definition appendRole (st : CapeState) (role : Role) : CapeState :=
  let node := ConvertIAMRoleToNode pkg role (vendors w) (analyzedAccounts st) in
  append_GlobalNodes (FindVerticesInRoleTrust pkg node (vendors w))
    (append_GlobalNodes [node] st).

(** Lines 1142-1145. *)
Definition appendUser (st : CapeState) (user : User) : CapeState :=
  append_GlobalNodes [ConvertIAMUserToNode pkg user] st.

(** Third loop, lines 1066-1147: permissions, imported nodes and edges,
    roles with their trust vertices, users. *)
Definition collectProfile (st : CapeState) (profile : string) : CapeState :=
  match AWSWhoami w profile with
  | None => st
  | Some caller =>
      let account := ptr_ToString (Account caller) in
      let st1 :=
        match PermissionsRows w caller profile with
        | Some rows => append_PermissionRows rows st
        | None => set_analyzedAccounts <[account := unsuccessfulJob]> st
        end in
      let pmapperMod := default PmapperModule_zero (pmapperData st1 !! profile) in
      let st2 := append_GlobalNodes (Nodes pmapperMod) st1 in
      let st3 := append_GlobalPmapperEdges (Edges pmapperMod) st2 in
      let st4 := foldl appendRole st3 (CachedIamListRoles w profile account) in
      foldl appendUser st4 (CachedIamListUsers w profile account)
  end.

(** Lines 1160-1178: the vertex, then the ledger entry of an account seen
    for the first time. *)
Definition insertVertex (st : CapeState) (node : Node.t) : CapeState :=
  let g := (graph.AddVertex (GlobalGraph st) (Node.Arn node) (vertexOptions node)).1 in
  let st1 := emit (CallAddVertex node) (set_GlobalGraph g st) in
  match analyzedAccounts st1 !! Node.AccountID node with
  | Some _ => st1
  | None =>
      if decide (Node.VendorName node = "") then
        if decide (Node.AccountID node ≠ "") then
          set_analyzedAccounts
            <[Node.AccountID node := discoveredJob flags (Node.AccountID node)]> st1
        else st1
      else st1
  end.

(** Lines 1189-1191. *)
Definition removeIgnored (st : CapeState) (arn : string) : CapeState :=
  let g := (graph.RemoveVertex (GlobalGraph st) arn).1 in
  emit (CallRemoveVertex arn) (set_GlobalGraph g st).

(** Lines 1181-1192: the ignore-list, when the flag names a file.  The error
    of the reader is printed and the ARNs it returned are used. *)
Definition applyIgnoreList (st : CapeState) : CapeState :=
  if decide (CapeArnIgnoreList flags ≠ "") then
    let arnsToIgnore := (ReadArnIgnoreListFile w (CapeArnIgnoreList flags)).1 in
    foldl removeIgnored st arnsToIgnore
  else st.

(** Lines 1197-1227: one imported edge.  [AddEdge] first; when the pair is
    taken, the attributes of the stored edge are read, the reason is added
    and the edge is updated.  Any other error of [AddEdge] is dropped.  (The
    map read from the stored edge is the stored map itself; writing the
    reason into it and storing it back yields the same edge.) *)
Definition addPmapperEdge (st : CapeState) (edge : Edge.t) : CapeState :=
  let '(g1, err) :=
    graph.AddEdge (GlobalGraph st) (Edge.Source edge) (Edge.Destination edge)
      (graph.EdgeAttribute (Edge.ShortReason edge) (Edge.Reason edge)) in
  let st1 := emit (CallAddEdge (Edge.Source edge) (Edge.Destination edge))
               (set_GlobalGraph g1 st) in
  match err with
  | None => st1
  | Some e =>
      if decide (e = graph.ErrEdgeAlreadyExists) then
        let existingEdge := (graph.Edge g1 (Edge.Source edge) (Edge.Destination edge)).1 in
        let existingProperties := default ∅ existingEdge in
        let attributes := <[Edge.ShortReason edge := Edge.Reason edge]> existingProperties in
        let g2 :=
          (graph.UpdateEdge g1 (Edge.Source edge) (Edge.Destination edge)
             (graph.EdgeAttributes attributes)).1 in
        emit (CallUpdateEdge (Edge.Source edge) (Edge.Destination edge))
          (set_GlobalGraph g2 st1)
      else st1
  end.

(** Lines 1236-1240. *)
Definition makeRoleEdges (st : CapeState) (node : Node.t) : CapeState :=
  if decide (Node.Type' node = "Role") then
    emit (CallMakeRoleEdges node)
      (set_GlobalGraph (MakeRoleEdges pkg node (GlobalGraph st)) st)
  else st.

(** Lines 1159-1178: the merge, then one vertex per merged node. *)
Definition assembleVertices (st : CapeState) : CapeState :=
  let mergedNodes := MergeNodes pkg (GlobalNodes st) in
  foldl insertVertex (emit (CallMergeNodes (GlobalNodes st)) st) mergedNodes.

(** Lines 1197-1227: the imported edges. *)
Definition assembleEdges (st : CapeState) : CapeState :=
  foldl addPmapperEdge st (GlobalPmapperEdges st).

(** Lines 1236-1240: the trust edges of the merged role nodes. *)
Definition assembleRoleEdges (mergedNodes : list Node.t) (st : CapeState) : CapeState :=
  foldl makeRoleEdges st mergedNodes.

(** Lines 1159-1240, entered with the collected nodes and edges:
    [mergedNodes] is computed once and used by the first and the last loop. *)
Definition assemble (st : CapeState) : CapeState :=
  let mergedNodes := MergeNodes pkg (GlobalNodes st) in
  assembleRoleEdges mergedNodes (assembleEdges (applyIgnoreList (assembleVertices st))).

(** Lines 1010-1147: ledger, escalation data, collection. *)
Definition collect (input : list string) : Result :=
  let st1 := foldl registerProfile (initial input) (AWSProfiles flags) in
  andThen (forRange importPmapper st1 (AWSProfiles flags))
    (fun st2 => Completed (foldl collectProfile st2 (AWSProfiles flags))).

(** [runCapeCommand] up to the assembled graph (line 1245); [input] is what
    the operator types at the prompts. *)
Definition runCapeCommand (input : list string) : Result :=
  andThen (collect input) (fun st => Completed (assemble st)).

End RunCapeCommand.

(** [strings.Split(s, sep)] for a one-character separator: the pieces of [s]
    between occurrences of [sep]. *)
Fixpoint strings_Split (sep : ascii) (s : string) : list string :=
  match s with
  | EmptyString => [""]
  | String c rest =>
      if decide (c = sep) then "" :: strings_Split sep rest
      else
        match strings_Split sep rest with
        | piece :: pieces => String c piece :: pieces
        | [] => [String c ""]
        end
  end.

(** ** Paths

    Modelled from the spec: [path/filepath] of the Go standard library (Unix
    separator) is not part of the sources.  [Join] drops leading empty
    elements, joins the rest with the separator and cleans the result;
    [Clean] works element by element: empty and [.] elements vanish, [..]
    removes the element before it (or stays, at the front of a relative
    path), and a path that cleans to nothing is [.]. *)
Module filepath.

(** One element read by [Clean]; [out] holds the elements kept so far, the
    last one first. *)
Definition cleanStep (rooted : bool) (out : list string) (elem : string) : list string :=
  if decide (elem = "") then out
  else if decide (elem = ".") then out
  else if decide (elem = "..") then
    match out with
    | top :: out' =>
        if decide (top = "..") then (if rooted then out else ".." :: out) else out'
    | [] => if rooted then out else [".."]
    end
  else elem :: out.

Definition rooted (path : string) : bool :=
  match path with
  | String c _ => bool_decide (c = "/"%char)
  | EmptyString => false
  end.

Definition Clean (path : string) : string :=
  let out := foldl (cleanStep (rooted path)) [] (strings_Split "/" path) in
  let body := String.concat "/" (rev out) in
  if rooted path then "/" +:+ body
  else if decide (body = "") then "." else body.

Fixpoint Join (elem : list string) : string :=
  match elem with
  | [] => ""
  | e :: rest =>
      if decide (e = "") then Join rest else Clean (String.concat "/" elem)
  end.

End filepath.

(** ** [runCapeTUICommand] *)

(** Lines 1329-1334: the file name is chosen by the flag alone. *)
Definition fileName (capeAdminOnly : bool) : string :=
  if capeAdminOnly then "inbound-privesc-paths-admin-targets-only.json"
  else "inbound-privesc-paths-all-targets.json".

(** Line 1335: the location of the result file of one run. *)
Definition capeOutputFileLocation (outputLocation : string) (capeAdminOnly : bool) : string :=
  filepath.Join [outputLocation; "json"; fileName capeAdminOnly].

(** The loop ranges over [AWSProfiles] while its body shortens that very
    slice: the range reads element [i] of the shared backing array, and the
    [append] of line 1341 shifts the tail of the current slice one place to
    the left inside it. *)
Record TuiState := mkTui {
  backing : list string;
  len_AWSProfiles : nat;
  capeOutputFileLocations : list string
}.

Inductive TuiResult :=
| CapeTUI (locations : list string)
| TuiExited (code : Z)
| TuiPanicked.

Section RunCapeTUICommand.

Variable w : World.
Variable capeAdminOnly : bool.

(** Lines 1323-1352, iteration [i]. *)
Definition tuiProfile (st : TuiState) (i : nat) : TuiState + TuiResult :=
  match backing st !! i with
  | None => inr TuiPanicked
  | Some profile =>
      match InitializeCloudFoxRunData w profile with
      | None => inl st
      | Some outputLocation =>
          let location := capeOutputFileLocation outputLocation capeAdminOnly in
          let locations := capeOutputFileLocations st ++ [location] in
          if FileExists w location then
            inl (mkTui (backing st) (len_AWSProfiles st) locations)
          else if decide (1 < len_AWSProfiles st)%nat then
            (* AWSProfiles[i+1:] needs i+1 <= len(AWSProfiles) *)
            if decide (i + 1 ≤ len_AWSProfiles st)%nat then
              inl (mkTui
                     (take i (backing st)
                        ++ drop (i + 1) (take (len_AWSProfiles st) (backing st))
                        ++ drop (len_AWSProfiles st - 1) (backing st))
                     (len_AWSProfiles st - 1) locations)
            else inr TuiPanicked
          else inr (TuiExited 1)
      end
  end.

Fixpoint tuiLoop (st : TuiState) (indices : list nat) : TuiState + TuiResult :=
  match indices with
  | [] => inl st
  | i :: rest =>
      match tuiProfile st i with
      | inl st' => tuiLoop st' rest
      | inr r => inr r
      end
  end.

(** Lines 1321-1360: the locations handed to [aws.CapeTUI], or the exit. *)
Definition runCapeTUICommand (profiles : list string) : TuiResult :=
  match tuiLoop (mkTui profiles (length profiles) []) (seq 0 (length profiles)) with
  | inr r => r
  | inl st =>
      if decide (length (capeOutputFileLocations st) = 0) then TuiExited 1
      else CapeTUI (capeOutputFileLocations st)
  end.

End RunCapeTUICommand.

(** ** The node model of the specification

    [MergeNodes] and [ConvertIAMRoleToNode] belong to package [aws]; their
    bodies are not among the sources.  Where a property is about what they
    compute, they are modelled from sections 3, 4.1 and 4.4 of the
    specification. *)

(** Modelled from the spec: the tri-state of a risk field, missing from the
    sources as a declaration.  A field reads true, false or unknown; any text
    that is neither of the first two carries no information. *)
Inductive TriState := RiskTrue | RiskFalse | RiskUnknown.

#[global] Instance TriState_eq_dec : EqDecision TriState.
Proof. solve_decision. Defined.

Definition showRisk (r : TriState) : string :=
  match r with
  | RiskTrue => "true"
  | RiskFalse => "false"
  | RiskUnknown => "unknown"
  end.

Definition readRisk (s : string) : TriState :=
  if decide (s = "true") then RiskTrue
  else if decide (s = "false") then RiskFalse
  else RiskUnknown.

Definition firstNonEmpty (a b : string) : string :=
  if decide (a = "") then b else a.

(** Modelled from the spec: the conflict policy of section 4.1 for a risk
    field, missing with [MergeNodes].  A concrete value beats unknown, and
    true beats false. *)
Definition mergeRisk (a b : string) : string :=
  if decide (readRisk a = RiskTrue) then a
  else if decide (readRisk b = RiskTrue) then b
  else if decide (readRisk a = RiskFalse) then a
  else if decide (readRisk b = RiskFalse) then b
  else firstNonEmpty a b.

(** Modelled from the spec: the merge of two records of one ARN, missing
    with [MergeNodes]: the union of the non-empty fields, the first non-empty
    value for the textual ones, [mergeRisk] for the risk fields. *)
Definition mergeNode (seen new : Node.t) : Node.t :=
  Node.mk (Node.Arn seen)
    (firstNonEmpty (Node.Type' seen) (Node.Type' new))
    (firstNonEmpty (Node.Name seen) (Node.Name new))
    (firstNonEmpty (Node.VendorName seen) (Node.VendorName new))
    (mergeRisk (Node.IsAdminString seen) (Node.IsAdminString new))
    (mergeRisk (Node.CanPrivEscToAdminString seen) (Node.CanPrivEscToAdminString new))
    (firstNonEmpty (Node.AccountID seen) (Node.AccountID new))
    (match Node.TrustsDoc seen with [] => Node.TrustsDoc new | doc => doc end).

Definition mergeInto (byArn : gmap string Node.t) (node : Node.t) : gmap string Node.t :=
  <[Node.Arn node :=
      match byArn !! Node.Arn node with
      | Some seen => mergeNode seen node
      | None => node
      end]> byArn.

(** Modelled from the spec: [aws.MergeNodes], missing from the sources.
    Section 4.1: the input is grouped by ARN in a mapping keyed by identity,
    and each group yields one node. *)
Definition MergeNodes_spec (nodes : list Node.t) : list Node.t :=
  (map_to_list (foldl mergeInto ∅ nodes)).*2.

(** The account ID of an ARN, its fifth colon-separated field. *)
Definition accountOfArn (arn : string) : string :=
  default "" (strings_Split ":" arn !! 4%nat).

(** Modelled from the spec: [aws.ConvertIAMRoleToNode], missing from the
    sources.  Sections 3 and 4.4: the risk fields of a role are the result of
    the local analysis when the ledger records the role's account as analysed
    successfully, and unknown otherwise.  [analysis] stands for the local
    analysis (is the role an administrator, can it escalate to one). *)
Definition ConvertIAMRoleToNode_spec (analysis : Role → bool * bool)
  (role : Role) (vendorMap : Vendors) (ledger : gmap string CapeJobInfo.t) : Node.t :=
  let accountId := accountOfArn (RoleArn role) in
  let analyzed :=
    match ledger !! accountId with
    | Some job => CapeJobInfo.AnalyzedSuccessfully job
    | None => false
    end in
  let risk (b : bool) :=
    if analyzed then showRisk (if b then RiskTrue else RiskFalse)
    else showRisk RiskUnknown in
  Node.mk (RoleArn role) "Role" (RoleName role) ""
    (risk (analysis role).1) (risk (analysis role).2) accountId
    (AssumeRolePolicyDocument role).

(** A package whose [MergeNodes] and [ConvertIAMRoleToNode] are the ones of
    the specification; the other functions are those of [pkg]. *)
Definition specPackage (pkg : CapePackage) (analysis : Role → bool * bool) : CapePackage :=
  {| ConvertIAMRoleToNode := ConvertIAMRoleToNode_spec analysis;
     FindVerticesInRoleTrust := FindVerticesInRoleTrust pkg;
     ConvertIAMUserToNode := ConvertIAMUserToNode pkg;
     MergeNodes := MergeNodes_spec;
     MakeRoleEdges := MakeRoleEdges pkg |}.

(** How a vertex attribute reads as a risk value; an attribute that is not
    set carries no information. *)
Definition vertexRisk (g : graph.Graph) (arn key : string) : TriState :=
  match graph.vertices g !! arn with
  | Some attrs => readRisk (default "" (attrs !! key))
  | None => RiskUnknown
  end.


(** ** Vocabulary of the properties *)

Section Vocabulary.

Variable w : World.
Variable flags : Flags.

(** [account] is the account of some profile of the run. *)
Definition profileAccount (account : string) : Prop :=
  ∃ profile caller,
    profile ∈ AWSProfiles flags ∧ AWSWhoami w profile = Some caller
    ∧ ptr_ToString (Account caller) = account.

(** The escalation data of the caller's account cannot be imported. *)
Definition importFails (caller : Caller) : Prop :=
  ∃ err, InitPmapperGraph w caller (AWSProfile flags) = inr err.

(** The collection for [profile] fails: no escalation data, or no permission
    rows. *)
Definition collectionFails (profile : string) (caller : Caller) : Prop :=
  importFails caller ∨ PermissionsRows w caller profile = None.

(** The ARNs the ignore-list step removes. *)
Definition ignoredArns : list string :=
  if decide (CapeArnIgnoreList flags ≠ "") then
    (ReadArnIgnoreListFile w (CapeArnIgnoreList flags)).1
  else [].

End Vocabulary.

(** Kinds of logged calls. *)
Definition is_merge (ev : Event) : bool :=
  match ev with CallMergeNodes _ => true | _ => false end.

Definition is_add_vertex (ev : Event) : bool :=
  match ev with CallAddVertex _ => true | _ => false end.

Definition is_edge_call (ev : Event) : bool :=
  match ev with CallAddEdge _ _ | CallUpdateEdge _ _ => true | _ => false end.

Definition is_role_edges (ev : Event) : bool :=
  match ev with CallMakeRoleEdges _ => true | _ => false end.

(** The role nodes among the merged nodes (line 1237). *)
Definition roleNodes (nodes : list Node.t) : list Node.t :=
  filter (fun node => Node.Type' node = "Role") nodes.

(** How many times a log calls [MergeNodes]. *)
Definition merges (calls : list Event) : nat :=
  length (filter (fun ev => is_merge ev = true) calls).

(** The vertices of an account whose ledger entry is not successful read
    unknown in both risk fields. *)
Definition unanalysed_accounts_read_unknown (st : CapeState) : Prop :=
  ∀ account job arn attrs,
    analyzedAccounts st !! account = Some job →
    CapeJobInfo.AnalyzedSuccessfully job = false →
    graph.vertices (GlobalGraph st) !! arn = Some attrs →
    attrs !! "AccountID" = Some account →
    vertexRisk (GlobalGraph st) arn "IsAdminString" = RiskUnknown
    ∧ vertexRisk (GlobalGraph st) arn "CanPrivEscToAdminString" = RiskUnknown.

(** ** Invariants used in the proofs *)

(** Every key of the ledger is the account of a profile or a non-empty
    account ID. *)
Definition keys_accounted (w : World) (flags : Flags) (st : CapeState) : Prop :=
  ∀ k, is_Some (analyzedAccounts st !! k) → profileAccount w flags k ∨ k ≠ "".

(** Every edge of the graph joins two vertices of the graph. *)
Definition edges_closed (g : graph.Graph) : Prop :=
  ∀ s d, is_Some (graph.edges g !! (s, d)) →
         is_Some (graph.vertices g !! s) ∧ is_Some (graph.vertices g !! d).

(** Every node of the mapping sits under its own ARN. *)
Definition keyed (byArn : gmap string Node.t) : Prop :=
  ∀ k node, byArn !! k = Some node → Node.Arn node = k.

(** An element that [Clean] keeps as it is. *)
Definition plain (elem : string) : Prop := elem ≠ "" ∧ elem ≠ "." ∧ elem ≠ "..".

(** Every location of the viewer belongs to a profile of the list. *)
Definition located (w : World) (capeAdminOnly : bool) (profiles locations : list string)
  : Prop :=
  ∀ location, location ∈ locations →
    ∃ profile outputLocation,
      profile ∈ profiles ∧ InitializeCloudFoxRunData w profile = Some outputLocation
      ∧ location = capeOutputFileLocation outputLocation capeAdminOnly.

(** The invariant of the viewer's loop: the backing array holds profiles of
    the list only, and so far every location belongs to one of them. *)
Definition tui_invariant (w : World) (capeAdminOnly : bool) (profiles : list string)
  (st : TuiState) : Prop :=
  (∀ profile, profile ∈ backing st → profile ∈ profiles)
  ∧ located w capeAdminOnly profiles (capeOutputFileLocations st).


(** ** Example runs

    Two profiles: [prod] (account 111111111111), whose escalation data cannot
    be imported, and [dev] (account 222222222222), whose escalation data is
    imported and whose permission rows cannot be gathered. *)

Definition buildRole : Node.t :=
  Node.mk "arn:aws:iam::222222222222:role/build" "Role" "build" ""
    "false" "true" "222222222222" [].

Definition adminRole : Node.t :=
  Node.mk "arn:aws:iam::222222222222:role/admin" "Role" "admin" ""
    "true" "true" "222222222222" [].

Definition devModule : PmapperModule :=
  {| Nodes := [buildRole; adminRole];
     Edges := [ Edge.mk "arn:aws:iam::222222222222:role/build"
                  "arn:aws:iam::222222222222:role/admin"
                  "iam:PassRole" "can pass the admin role to a new instance";
                Edge.mk "arn:aws:iam::222222222222:role/build"
                  "arn:aws:iam::222222222222:role/admin"
                  "sts:AssumeRole" "can assume the admin role" ] |}.

Definition deployRole : Role :=
  {| RoleArn := "arn:aws:iam::111111111111:role/deploy";
     RoleName := "deploy";
     AssumeRolePolicyDocument := [] |}.

Definition exampleWorld : World :=
  {| AWSWhoami := fun profile =>
       if decide (profile = "prod") then Some {| Account := Some "111111111111" |}
       else if decide (profile = "dev") then Some {| Account := Some "222222222222" |}
       else None;
     InitializeCloudFoxRunData := fun profile => Some ("cloudfox-output/aws/" +:+ profile);
     InitPmapperGraph := fun caller _ =>
       if decide (Account caller = Some "222222222222") then inl devModule
       else inr "no pmapper data";
     PermissionsRows := fun _ profile =>
       if decide (profile = "prod") then Some [] else None;
     CachedIamListRoles := fun profile _ =>
       if decide (profile = "prod") then [deployRole] else [];
     CachedIamListUsers := fun _ _ => [];
     vendors := ∅;
     ReadArnIgnoreListFile := fun _ => (["arn:aws:iam::222222222222:role/admin"], None);
     FileExists := fun _ => true |}.

(** The package of the example runs: the merge and the role conversion of the
    specification; no trust vertices, no trust edges, and a local analysis
    that finds no administrator. *)
Definition examplePackage : CapePackage :=
  specPackage
    {| ConvertIAMRoleToNode := fun role _ _ =>
         Node.mk (RoleArn role) "Role" (RoleName role) "" "" ""
           (accountOfArn (RoleArn role)) (AssumeRolePolicyDocument role);
       FindVerticesInRoleTrust := fun _ _ => [];
       ConvertIAMUserToNode := fun user =>
         Node.mk (UserArn user) "User" (UserName user) "" "" ""
           (accountOfArn (UserArn user)) [];
       MergeNodes := fun nodes => nodes;
       MakeRoleEdges := fun _ g => g |}
    (fun _ => (false, false)).

Definition exampleFlags : Flags :=
  {| AWSProfiles := ["prod"; "dev"]; AWSProfile := "prod"; CapeAdminOnly := true;
     CapeArnIgnoreList := "" |}.

Definition exampleFlagsIgnoring : Flags :=
  {| AWSProfiles := ["prod"; "dev"]; AWSProfile := "prod"; CapeAdminOnly := true;
     CapeArnIgnoreList := "ignore.txt" |}.

(** The example world on a machine where no result file exists. *)
Definition exampleWorldWithoutFiles : World :=
  {| AWSWhoami := AWSWhoami exampleWorld;
     InitializeCloudFoxRunData := InitializeCloudFoxRunData exampleWorld;
     InitPmapperGraph := InitPmapperGraph exampleWorld;
     PermissionsRows := PermissionsRows exampleWorld;
     CachedIamListRoles := CachedIamListRoles exampleWorld;
     CachedIamListUsers := CachedIamListUsers exampleWorld;
     vendors := vendors exampleWorld;
     ReadArnIgnoreListFile := ReadArnIgnoreListFile exampleWorld;
     FileExists := fun _ => false |}.

(** * Further definitions

    Vocabulary for properties of the assembly beyond the ordering of its
    calls, and the embedding of the code around it. *)

(** The attribute map a vertex gets from a node. *)
Definition vertexAttributesOf (node : Node.t) : gmap string string :=
  graph.VertexAttributes (vertexOptions node).

(** The flags with another profile list. *)
Definition withProfiles (flags : Flags) (profiles : list string) : Flags :=
  {| AWSProfiles := profiles;
     AWSProfile := AWSProfile flags;
     CapeAdminOnly := CapeAdminOnly flags;
     CapeArnIgnoreList := CapeArnIgnoreList flags |}.

(** The profiles that authenticate. *)
Definition authenticated (w : World) (profiles : list string) : list string :=
  filter (fun profile => is_Some (AWSWhoami w profile)) profiles.

(** The three shapes of a ledger entry stored under [key]: the entry of a
    profile (line 1035), the entry of an error path (lines 1050 and 1083), the
    entry of a discovered account (line 1174). *)
Definition userJob (flags : Flags) (key profile : string) : CapeJobInfo.t :=
  CapeJobInfo.mk key profile true (CapeAdminOnly flags) "user".

Definition entry_shape (w : World) (flags : Flags) (key : string) (job : CapeJobInfo.t)
  : Prop :=
  (∃ profile caller,
      profile ∈ AWSProfiles flags ∧ AWSWhoami w profile = Some caller
      ∧ ptr_ToString (Account caller) = key
      ∧ is_Some (InitializeCloudFoxRunData w profile)
      ∧ job = userJob flags key profile)
  ∨ job = unsuccessfulJob
  ∨ (job = discoveredJob flags key ∧ key ≠ "").

(** Does the edge join this pair under this reason code? *)
Definition same_reason (pair : string * string) (code : string) (edge : Edge.t) : Prop :=
  (Edge.Source edge, Edge.Destination edge) = pair ∧ Edge.ShortReason edge = code.

(** Where a collected node can come from: the escalation data of a profile,
    a listed role (the role itself or a vertex of its trust policy), a listed
    user. *)
Definition collected_source (w : World) (pkg : CapePackage) (flags : Flags)
  (node : Node.t) : Prop :=
  (∃ profile caller pmapperMod,
      profile ∈ AWSProfiles flags ∧ AWSWhoami w profile = Some caller
      ∧ InitPmapperGraph w caller (AWSProfile flags) = inl pmapperMod
      ∧ node ∈ Nodes pmapperMod)
  ∨ (∃ profile caller role ledger,
       profile ∈ AWSProfiles flags ∧ AWSWhoami w profile = Some caller
       ∧ role ∈ CachedIamListRoles w profile (ptr_ToString (Account caller))
       ∧ (node = ConvertIAMRoleToNode pkg role (vendors w) ledger
          ∨ node ∈ FindVerticesInRoleTrust pkg
                     (ConvertIAMRoleToNode pkg role (vendors w) ledger) (vendors w)))
  ∨ (∃ profile caller user,
       profile ∈ AWSProfiles flags ∧ AWSWhoami w profile = Some caller
       ∧ user ∈ CachedIamListUsers w profile (ptr_ToString (Account caller))
       ∧ node = ConvertIAMUserToNode pkg user).

(** Every module of the table was imported for a profile of the list. *)
Definition modules_imported (w : World) (flags : Flags) (st : CapeState) : Prop :=
  ∀ profile pmapperMod,
    pmapperData st !! profile = Some pmapperMod →
    profile ∈ AWSProfiles flags
    ∧ ∃ caller, AWSWhoami w profile = Some caller
                ∧ InitPmapperGraph w caller (AWSProfile flags) = inl pmapperMod.

(** Every entry of the ledger has one of the three shapes. *)
Definition ledger_shaped (w : World) (flags : Flags) (st : CapeState) : Prop :=
  ∀ k job, analyzedAccounts st !! k = Some job → entry_shape w flags k job.

(** The result file the viewer looks for when it visits [profile]: none when
    the run data of the profile does not initialise (lines 1324-1335). *)
Definition resultFile (w : World) (capeAdminOnly : bool) (profile : string) : option string :=
  (fun outputLocation => capeOutputFileLocation outputLocation capeAdminOnly)
    <$> InitializeCloudFoxRunData w profile.

(** The example world on a machine where only the result file of [prod] is
    missing. *)
Definition exampleWorldWithoutProdFile : World :=
  {| AWSWhoami := AWSWhoami exampleWorld;
     InitializeCloudFoxRunData := InitializeCloudFoxRunData exampleWorld;
     InitPmapperGraph := InitPmapperGraph exampleWorld;
     PermissionsRows := PermissionsRows exampleWorld;
     CachedIamListRoles := CachedIamListRoles exampleWorld;
     CachedIamListUsers := CachedIamListUsers exampleWorld;
     vendors := vendors exampleWorld;
     ReadArnIgnoreListFile := ReadArnIgnoreListFile exampleWorld;
     FileExists := fun location =>
       bool_decide (location ≠ capeOutputFileLocation "cloudfox-output/aws/prod" true) |}.

(** * The ECS task inventory of package [aws]

    [runECSTasksCommand] of [cli/aws.go] builds an [ECSTasksModule] for each
    profile and calls [ECSTasks].  What follows embeds the work done for one
    region: the clusters, their tasks in batches, the description of each
    batch, and the loot files written from the collected tasks. *)

(** Modelled from the spec: [strings.SplitN] of the Go standard library is
    not part of the sources.  [cut] splits at the first separator;
    [SplitN(s, sep, n)] yields at most [n] pieces, the last one being the
    unsplit remainder, and nothing when [n] is 0. *)
Fixpoint cut (sep : ascii) (s : string) : option (string * string) :=
  match s with
  | EmptyString => None
  | String c rest =>
      if decide (c = sep) then Some ("", rest)
      else
        match cut sep rest with
        | Some (before, after) => Some (String c before, after)
        | None => None
        end
  end.

Fixpoint strings_SplitN (sep : ascii) (s : string) (n : nat) : list string :=
  match n with
  | O => []
  | S n' =>
      match n' with
      | O => [s]
      | S _ =>
          match cut sep s with
          | None => [s]
          | Some (before, after) => before :: strings_SplitN sep after n'
          end
      end
  end.

(** How many times a character occurs in a string. *)
Fixpoint occurrences (c : ascii) (s : string) : nat :=
  match s with
  | EmptyString => 0
  | String c' rest => (if decide (c' = c) then 1 else 0) + occurrences c rest
  end.

Module MappedECSTask.
(** [MappedECSTask], part_000 lines 49-61. *)
Record t := mk {
  Cluster : string;
  TaskDefinitionName : string;
  TaskDefinitionContent : string;
  ContainerName : string;
  LaunchType : string;
  ID : string;
  ExternalIP : string;
  PrivateIP : string;
  Role : string;
  Admin : string;
  CanPrivEsc : string
}.
End MappedECSTask.

(** The fields of [types.Task] of the ECS SDK that the module reads. *)
Module KeyValuePair.
Record t := mk { Name : option string; Value : option string }.
End KeyValuePair.

Module Attachment.
Record t := mk {
  Type' : option string;
  Status : option string;
  Details : list KeyValuePair.t
}.
End Attachment.

Module Container.
Record t := mk { Name : option string }.
End Container.

Module Task.
Record t := mk {
  TaskArn : option string;
  TaskDefinitionArn : option string;
  LaunchType : string;
  Containers : list Container.t;
  Attachments : list Attachment.t
}.
End Task.

(** The cached SDK calls of the module, for the account of the caller; [None]
    is the error return.  Task definitions and network interfaces stay
    abstract: the module reads the role of a definition, serialises it with
    [json.Marshal], and reads the identifier and the public address of an
    interface ([getPublicIPOfElasticNetworkInterface] is not part of the
    sources). *)
Record ECSClient := {
  TaskDefinition : Type;
  TaskRoleArn : TaskDefinition → option string;
  json_Marshal : TaskDefinition → option string;
  NetworkInterface : Type;
  NetworkInterfaceId : NetworkInterface → option string;
  getPublicIPOfElasticNetworkInterface : NetworkInterface → string;
  CachedECSListClusters : string → string → option (list string);
  CachedECSListTasks : string → string → string → option (list string);
  CachedECSDescribeTasks : string → string → string → list string → option (list Task.t);
  CachedECSDescribeTaskDefinition : string → string → string → option TaskDefinition;
  CachedEC2DescribeNetworkInterfaces : string → string → option (list NetworkInterface)
}.

(** The calls into the SDK, in the order they are made. *)
Inductive ECSCall :=
| CallListClusters (region : string)
| CallListTasks (region clusterARN : string)
| CallDescribeTasks (region clusterARN : string) (taskARNs : list string)
| CallDescribeNetworkInterfaces (region : string)
| CallDescribeTaskDefinition (region taskDefinitionArn : string).

(** What the work of one region changes: the tasks received through
    [dataReceiver] (the receiver appends them in the order they are sent),
    the error counter, and the calls made. *)
Record ECSState := mkECS {
  MappedECSTasks : list MappedECSTask.t;
  CommandCounter_Error : nat;
  calls : list ECSCall
}.

Definition ecs_send (task : MappedECSTask.t) (st : ECSState) : ECSState :=
  mkECS (MappedECSTasks st ++ [task]) (CommandCounter_Error st) (calls st).

Definition ecs_error (st : ECSState) : ECSState :=
  mkECS (MappedECSTasks st) (S (CommandCounter_Error st)) (calls st).

Definition ecs_call (c : ECSCall) (st : ECSState) : ECSState :=
  mkECS (MappedECSTasks st) (CommandCounter_Error st) (calls st ++ [c]).

(** [getNameFromARN], lines 496-503. *)
Definition getNameFromARN (arn : string) : string :=
  let tokens := strings_SplitN "/" arn 2 in
  if decide (length tokens ≠ 2%nat) then arn
  else default "" (tokens !! 1%nat).

(** [getIDFromECSTask], lines 505-512. *)
Definition getIDFromECSTask (arn : string) : string :=
  let tokens := strings_SplitN "/" arn 3 in
  if decide (length tokens ≠ 3%nat) then arn
  else default "" (tokens !! 2%nat).

(** [getContainerNamesFromECSTask], lines 514-522. *)
Definition getContainerNamesFromECSTask (task : Task.t) : string :=
  let names :=
    foldl (fun names container => names ++ [ptr_ToString (Container.Name container)])
      [] (Task.Containers task) in
  String.concat "|" names.

(** The test of lines 528 and 544: the attachment is skipped unless it is an
    attached network interface. *)
Definition skipped (attachment : Attachment.t) : bool :=
  bool_decide (ptr_ToString (Attachment.Type' attachment) ≠ "ElasticNetworkInterface"
               ∨ ptr_ToString (Attachment.Status attachment) ≠ "ATTACHED").

(** [getPrivateIPv4AddressFromECSTask], lines 524-540. *)
Definition getPrivateIPv4AddressFromECSTask (task : Task.t) : string :=
  let ips :=
    foldl (fun ips attachment =>
             if skipped attachment then ips
             else
               foldl (fun ips kvp =>
                        if decide (ptr_ToString (KeyValuePair.Name kvp) = "privateIPv4Address")
                        then ips ++ [ptr_ToString (KeyValuePair.Value kvp)]
                        else ips)
                 ips (Attachment.Details attachment))
      [] (Task.Attachments task) in
  String.concat "|" ips.

(** The inner loop of lines 548-552: the value of the first detail named
    [networkInterfaceId], when there is one. *)
Fixpoint networkInterfaceIdOf (details : list KeyValuePair.t) : option string :=
  match details with
  | [] => None
  | kvp :: rest =>
      if decide (ptr_ToString (KeyValuePair.Name kvp) = "networkInterfaceId")
      then Some (ptr_ToString (KeyValuePair.Value kvp))
      else networkInterfaceIdOf rest
  end.

(** The outer loop of lines 543-555. *)
Fixpoint networkInterfaceIdOfAttachments (attachments : list Attachment.t) : string :=
  match attachments with
  | [] => ""
  | attachment :: rest =>
      if skipped attachment then networkInterfaceIdOfAttachments rest
      else
        match networkInterfaceIdOf (Attachment.Details attachment) with
        | Some value => value
        | None => networkInterfaceIdOfAttachments rest
        end
  end.

(** [getElasticNetworkInterfaceIDOfECSTask], lines 542-556. *)
Definition getElasticNetworkInterfaceIDOfECSTask (task : Task.t) : string :=
  networkInterfaceIdOfAttachments (Task.Attachments task).

Section ECSTasksModule.

Variable sdk : ECSClient.

(** [aws.ToString(m.Caller.Account)]. *)
Variable account : string.

(** [getTaskRole], lines 418-420. *)
Definition getTaskRole (taskDefinition : TaskDefinition sdk) : string :=
  ptr_ToString (TaskRoleArn sdk taskDefinition).

(** [getTaskDefinitionContent], lines 422-430. *)
Definition getTaskDefinitionContent (taskDefinition : TaskDefinition sdk) : string :=
  match json_Marshal sdk taskDefinition with
  | None => ""
  | Some taskDefinitionContent => taskDefinitionContent
  end.

(** [loadPublicIPs], lines 477-494: the public address of every interface of
    the region, by identifier; no call is made for an empty list. *)
Definition loadPublicIPs (st : ECSState) (eniIDs : list string) (region : string)
  : option (gmap string string) * ECSState :=
  if decide (length eniIDs = 0%nat) then (Some ∅, st)
  else
    let st1 := ecs_call (CallDescribeNetworkInterfaces region) st in
    match CachedEC2DescribeNetworkInterfaces sdk account region with
    | None => (None, st1)
    | Some NetworkInterfaces =>
        (Some (foldl (fun eniPublicIPs eni =>
                        <[ptr_ToString (NetworkInterfaceId sdk eni) :=
                            getPublicIPOfElasticNetworkInterface sdk eni]> eniPublicIPs)
                 ∅ NetworkInterfaces),
         st1)
    end.

(** Lines 376-382: the identifiers of the attached interfaces of the tasks. *)
Definition eniIDsOf (Tasks : list Task.t) : list string :=
  foldl (fun eniIDs task =>
           let eniID := getElasticNetworkInterfaceIDOfECSTask task in
           if decide (eniID ≠ "") then eniIDs ++ [eniID] else eniIDs)
    [] Tasks.

(** Lines 398-412: the record sent for one task.  The fields the literal
    leaves out keep their zero value; a key missing from the map reads as the
    empty string. *)
Definition mappedTask (clusterARN : string) (publicIPs : gmap string string)
  (task : Task.t) (taskDefinition : TaskDefinition sdk) : MappedECSTask.t :=
  let eniID := getElasticNetworkInterfaceIDOfECSTask task in
  MappedECSTask.mk
    (getNameFromARN clusterARN)
    (getNameFromARN (ptr_ToString (Task.TaskDefinitionArn task)))
    (getTaskDefinitionContent taskDefinition)
    (getContainerNamesFromECSTask task)
    (Task.LaunchType task)
    (getIDFromECSTask (ptr_ToString (Task.TaskArn task)))
    (if decide (eniID ≠ "") then default "" (publicIPs !! eniID) else "")
    (getPrivateIPv4AddressFromECSTask task)
    (getTaskRole taskDefinition)
    "" "".

(** Lines 390-415: the loop returns at the first task definition that cannot
    be described. *)
Fixpoint sendTasks (st : ECSState) (clusterARN region : string)
  (publicIPs : gmap string string) (Tasks : list Task.t) : ECSState :=
  match Tasks with
  | [] => st
  | task :: rest =>
      let arn := ptr_ToString (Task.TaskDefinitionArn task) in
      let st1 := ecs_call (CallDescribeTaskDefinition region arn) st in
      match CachedECSDescribeTaskDefinition sdk account region arn with
      | None => ecs_error st1
      | Some taskDefinition =>
          sendTasks (ecs_send (mappedTask clusterARN publicIPs task taskDefinition) st1)
            clusterARN region publicIPs rest
      end
  end.

(** [loadTasksData], lines 363-416. *)
Definition loadTasksData (st : ECSState) (clusterARN : string) (taskARNs : list string)
  (region : string) : ECSState :=
  if decide (length taskARNs = 0%nat) then st
  else
    let st1 := ecs_call (CallDescribeTasks region clusterARN taskARNs) st in
    match CachedECSDescribeTasks sdk account region clusterARN taskARNs with
    | None => ecs_error st1
    | Some Tasks =>
        match loadPublicIPs st1 (eniIDsOf Tasks) region with
        | (None, st2) => ecs_error st2
        | (Some publicIPs, st2) => sendTasks st2 clusterARN region publicIPs Tasks
        end
    end.

(** Line 351. *)
Definition batchSize : nat := 100.

(** The loop of lines 352-359, entered with index [i]; [TaskArns[i:j]] is
    [take (j - i) (drop i TaskArns)]. *)
Equations batchLoop (clusterARN region : string) (TaskArns : list string)
  (i : nat) (st : ECSState) : ECSState by wf (length TaskArns - i)%nat lt :=
batchLoop clusterARN region TaskArns i st with decide (i < length TaskArns)%nat := {
  | left _ =>
      let j := if decide (length TaskArns < i + batchSize)%nat then length TaskArns
               else (i + batchSize)%nat in
      batchLoop clusterARN region TaskArns (i + batchSize)
        (loadTasksData st clusterARN (take (j - i) (drop i TaskArns)) region)
  | right _ => st }.
Next Obligation. unfold batchSize. lia. Qed.

(** [getListTasks], lines 343-361. *)
Definition getListTasks (st : ECSState) (clusterARN region : string) : ECSState :=
  let st1 := ecs_call (CallListTasks region clusterARN) st in
  match CachedECSListTasks sdk account region clusterARN with
  | None => ecs_error st1
  | Some TaskArns => batchLoop clusterARN region TaskArns 0 st1
  end.

(** [getListClusters], lines 328-341. *)
Definition getListClusters (st : ECSState) (region : string) : ECSState :=
  let st1 := ecs_call (CallListClusters region) st in
  match CachedECSListClusters sdk account region with
  | None => ecs_error st1
  | Some ClusterArns =>
      foldl (fun st clusterARN => getListTasks st clusterARN region) st1 ClusterArns
  end.

End ECSTasksModule.

(** [fmt.Sprintln] of one string: the string and a newline. *)
Definition fmt_Sprintln (s : string) : string := s +:+ String "010"%char "".

(** The two address lists of [writeLoot], lines 261-272, as they are handed
    to [os.WriteFile]: a line for each task whose external address is not the
    marker [NoExternalIP], a line for each task with a private address. *)
Definition lootIPs (tasks : list MappedECSTask.t) : string * string :=
  foldl (fun '(publicIPs, privateIPs) task =>
           let publicIPs :=
             if decide (MappedECSTask.ExternalIP task ≠ "NoExternalIP")
             then publicIPs +:+ fmt_Sprintln (MappedECSTask.ExternalIP task)
             else publicIPs in
           let privateIPs :=
             if decide (MappedECSTask.PrivateIP task ≠ "")
             then privateIPs +:+ fmt_Sprintln (MappedECSTask.PrivateIP task)
             else privateIPs in
           (publicIPs, privateIPs))
    ("", "") tasks.

(** [writeLoot], lines 251-305, as the [os.WriteFile] calls it makes, in
    order: the private addresses, the public addresses, then the content of
    the task definition of each task that has one.  (The outcome of a file
    system call only moves the error counter.) *)
Definition writeLoot (outputDirectory : string) (tasks : list MappedECSTask.t)
  : list (string * string) :=
  let path := filepath.Join [outputDirectory; "loot"] in
  let privateIPsFilename := filepath.Join [path; "ecs-tasks-PrivateIPs.txt"] in
  let publicIPsFilename := filepath.Join [path; "ecs-tasks-PublicIPs.txt"] in
  let '(publicIPs, privateIPs) := lootIPs tasks in
  foldl (fun writes task =>
           if decide (MappedECSTask.TaskDefinitionContent task ≠ "") then
             let path := filepath.Join [path; "task-definitions"] in
             let taskDefinitionFilename :=
               filepath.Join [path; MappedECSTask.TaskDefinitionName task +:+ ".json"] in
             writes ++ [(taskDefinitionFilename, MappedECSTask.TaskDefinitionContent task)]
           else writes)
    [(privateIPsFilename, privateIPs); (publicIPsFilename, publicIPs)] tasks.

(** The task lists of the [DescribeTasks] calls of a call sequence. *)
Definition describedBatches (cs : list ECSCall) : list (list string) :=
  omap (fun c => match c with
                 | CallDescribeTasks _ _ taskARNs => Some taskARNs
                 | _ => None
                 end) cs.

(** The task definitions asked for in a call sequence. *)
Definition describedDefinitions (cs : list ECSCall) : list string :=
  omap (fun c => match c with
                 | CallDescribeTaskDefinition _ arn => Some arn
                 | _ => None
                 end) cs.

(** A small ECS account for the examples: one cluster with two tasks, the
    first on an attached network interface that has no public address, the
    second without network interface. *)
Definition exampleAttachedTask : Task.t :=
  Task.mk (Some "arn:aws:ecs:us-east-1:111111111111:task/web/0a1b")
    (Some "arn:aws:ecs:us-east-1:111111111111:task-definition/web:3") "FARGATE"
    [Container.mk (Some "nginx"); Container.mk (Some "sidecar")]
    [Attachment.mk (Some "ElasticNetworkInterface") (Some "ATTACHED")
       [KeyValuePair.mk (Some "networkInterfaceId") (Some "eni-1");
        KeyValuePair.mk (Some "privateIPv4Address") (Some "10.0.0.7")]].

Definition exampleBareTask : Task.t :=
  Task.mk (Some "arn:aws:ecs:us-east-1:111111111111:task/2c3d")
    (Some "arn:aws:ecs:us-east-1:111111111111:task-definition/batch:1") "EC2"
    [Container.mk (Some "worker")] [].

Definition exampleECS : ECSClient :=
  {| TaskDefinition := string;
     TaskRoleArn := fun family => Some ("arn:aws:iam::111111111111:role/" +:+ family);
     json_Marshal := fun family => Some family;
     NetworkInterface := string * string;
     NetworkInterfaceId := fun eni => Some eni.1;
     getPublicIPOfElasticNetworkInterface := fun eni => eni.2;
     CachedECSListClusters := fun _ _ => Some ["arn:aws:ecs:us-east-1:111111111111:cluster/web"];
     CachedECSListTasks := fun _ _ _ =>
       Some ["arn:aws:ecs:us-east-1:111111111111:task/web/0a1b";
             "arn:aws:ecs:us-east-1:111111111111:task/2c3d"];
     CachedECSDescribeTasks := fun _ _ _ _ => Some [exampleAttachedTask; exampleBareTask];
     CachedECSDescribeTaskDefinition := fun _ _ arn => Some (getNameFromARN arn);
     CachedEC2DescribeNetworkInterfaces := fun _ _ => Some [("eni-1", "NoExternalIP")] |}.

(** The same account when the network interfaces cannot be listed. *)
Definition exampleECSWithoutInterfaces : ECSClient :=
  {| TaskDefinition := TaskDefinition exampleECS;
     TaskRoleArn := TaskRoleArn exampleECS;
     json_Marshal := json_Marshal exampleECS;
     NetworkInterface := NetworkInterface exampleECS;
     NetworkInterfaceId := NetworkInterfaceId exampleECS;
     getPublicIPOfElasticNetworkInterface := getPublicIPOfElasticNetworkInterface exampleECS;
     CachedECSListClusters := CachedECSListClusters exampleECS;
     CachedECSListTasks := CachedECSListTasks exampleECS;
     CachedECSDescribeTasks := CachedECSDescribeTasks exampleECS;
     CachedECSDescribeTaskDefinition := CachedECSDescribeTaskDefinition exampleECS;
     CachedEC2DescribeNetworkInterfaces := fun _ _ => None |}.

Definition emptyECS : ECSState := mkECS [] 0 [].

(** * [awsPostRun]: saving the caches (cli/aws.go, lines 606-625) *)

(** [internal.SaveCacheToGobFiles] and [internal.SaveCacheToFiles], by
    directory and account; [None] is the nil error. *)
Record CacheStore := {
  SaveCacheToGobFiles : string → string → option string;
  SaveCacheToFiles : string → string → option string
}.

(** The two saves, in the order they are attempted. *)
Inductive CacheCall :=
| CallSaveCacheToGobFiles (directory account : string)
| CallSaveCacheToFiles (directory account : string).

(** How [awsPostRun] ends: it returns, [log.Fatalf] ends the process, or the
    dereference of a nil account panics. *)
Inductive PostRunResult :=
| PostRunReturned
| PostRunFatal
| PostRunPanicked.

(** Line 612. *)
Definition cacheDirectory (AWSOutputDirectory : string) (caller : Caller) : string :=
  filepath.Join [AWSOutputDirectory; "cached-data"; "aws"; ptr_ToString (Account caller)].

(** The loop of lines 607-624, with the calls made so far.  The account is
    dereferenced when the arguments of the first save are evaluated. *)
Fixpoint awsPostRun (w : World) (store : CacheStore) (AWSOutputDirectory : string)
  (profiles : list string) (saved : list CacheCall) : PostRunResult * list CacheCall :=
  match profiles with
  | [] => (PostRunReturned, saved)
  | profile :: rest =>
      match AWSWhoami w profile with
      | None => awsPostRun w store AWSOutputDirectory rest saved
      | Some caller =>
          let outputDirectory := cacheDirectory AWSOutputDirectory caller in
          match Account caller with
          | None => (PostRunPanicked, saved)
          | Some account =>
              let saved1 := saved ++ [CallSaveCacheToGobFiles outputDirectory account] in
              match SaveCacheToGobFiles store outputDirectory account with
              | Some _ => (PostRunFatal, saved1)
              | None =>
                  let saved2 := saved1 ++ [CallSaveCacheToFiles outputDirectory account] in
                  match SaveCacheToFiles store outputDirectory account with
                  | Some _ => (PostRunFatal, saved2)
                  | None => awsPostRun w store AWSOutputDirectory rest saved2
                  end
              end
          end
      end
  end.

(** Does the call succeed? *)
Definition cache_saved (store : CacheStore) (call : CacheCall) : Prop :=
  match call with
  | CallSaveCacheToGobFiles directory account =>
      SaveCacheToGobFiles store directory account = None
  | CallSaveCacheToFiles directory account =>
      SaveCacheToFiles store directory account = None
  end.

(** The calls a profile gives rise to when nothing fails. *)
Definition cacheCallsOf (w : World) (AWSOutputDirectory : string) (profile : string)
  : list CacheCall :=
  match AWSWhoami w profile with
  | Some caller =>
      [CallSaveCacheToGobFiles (cacheDirectory AWSOutputDirectory caller)
         (ptr_ToString (Account caller));
       CallSaveCacheToFiles (cacheDirectory AWSOutputDirectory caller)
         (ptr_ToString (Account caller))]
  | None => []
  end.

(** A store in which saving works, and one in which the file cache of the
    account of [prod] cannot be written. *)
Definition exampleStore : CacheStore :=
  {| SaveCacheToGobFiles := fun _ _ => None; SaveCacheToFiles := fun _ _ => None |}.

Definition exampleFailingStore : CacheStore :=
  {| SaveCacheToGobFiles := fun _ _ => None;
     SaveCacheToFiles := fun _ account =>
       if decide (account = "111111111111") then Some "disk full" else None |}.

(** * API Gateway v2 endpoints of package [aws]

    [runEndpointsCommand] of [cli/aws.go] builds an [EndpointsModule] for
    each profile; for a region with API Gateway the module lists the HTTP
    APIs and their custom domain names.  What follows embeds the work of
    [getAPIGatewayv2APIsPerRegion] and [getAPIGatewayv2VIPsPerRegion] for one
    region: the endpoints sent to the receiver, and the errors recorded. *)

(** Modelled from the spec: [strings.HasPrefix] and [strings.Replace] with a
    count of 1, of the Go standard library, are not part of the sources.
    [Replace] rewrites the first occurrence of [old]; an empty [old] matches
    at the beginning of the string. *)
Fixpoint strings_HasPrefix (s prefix : string) {struct prefix} : bool :=
  match prefix with
  | EmptyString => true
  | String c prefix' =>
      match s with
      | EmptyString => false
      | String d s' => bool_decide (c = d) && strings_HasPrefix s' prefix'
      end
  end.

Fixpoint string_skip (n : nat) (s : string) : string :=
  match n, s with
  | S n', String _ s' => string_skip n' s'
  | _, _ => s
  end.

Fixpoint strings_Replace1 (s old new : string) : string :=
  if strings_HasPrefix s old then new +:+ string_skip (String.length old) s
  else
    match s with
    | EmptyString => EmptyString
    | String c s' => String c (strings_Replace1 s' old new)
    end.

Module Endpoint.
(** [Endpoint], part_000 lines 632-640. *)
Record t := mk {
  AWSService : string;
  Region : string;
  Name : string;
  Endpoint : string;
  Port : Z;
  Protocol : string;
  Public : string
}.
End Endpoint.

(** The fields of the API Gateway v2 SDK types that the module reads. *)
Module Api.
Record t := mk {
  Name : option string;
  ApiEndpoint : option string;
  ApiId : option string
}.
End Api.

Module ApiStage.
Record t := mk { StageName : option string }.
End ApiStage.

Module Route.
Record t := mk { RouteKey : option string }.
End Route.

Module DomainName.
Record t := mk { DomainName : option string }.
End DomainName.

Module ApiMapping.
Record t := mk {
  Stage : option string;
  ApiMappingKey : option string;
  ApiId : option string
}.
End ApiMapping.

(** An error of the SDK; [errors.As(err, &oe)] succeeds when it wraps an
    operation error, which has a service and an operation. *)
Record APIError := {
  Error_text : string;
  OperationError : option (string * string)
}.

(** The cached SDK calls, by account and region: what is returned and the
    error, if any. *)
Record APIGatewayv2Client := {
  CachedAPIGatewayv2GetAPIs : string → string → list Api.t * option APIError;
  CachedAPIGatewayv2GetStages : string → string → string → list ApiStage.t * option APIError;
  CachedAPIGatewayv2GetRoutes : string → string → string → list Route.t * option APIError;
  CachedAPIGatewayv2GetDomainNames : string → string → list DomainName.t * option APIError;
  CachedAPIGatewayv2GetApiMappings :
    string → string → string → list ApiMapping.t * option APIError
}.

(** What the work of one region changes: the endpoints received through
    [dataReceiver], the error messages kept and the error counter. *)
Record EndpointsState := mkEndpoints {
  Endpoints : list Endpoint.t;
  Errors : list string;
  Endpoints_Error : nat
}.

Definition endpoints_send (endpoint : Endpoint.t) (st : EndpointsState) : EndpointsState :=
  mkEndpoints (Endpoints st ++ [endpoint]) (Errors st) (Endpoints_Error st).

(** The error branch of lines 1667-1673 and its copies: the message is kept
    for an operation error, and the error is counted. *)
Definition endpoints_error (r : string) (err : APIError) (st : EndpointsState)
  : EndpointsState :=
  let errors :=
    match OperationError err with
    | Some (service, operation) =>
        Errors st ++ [" Error: Region: " +:+ r +:+ ", Service: " +:+ service
                      +:+ ", Operation: " +:+ operation]
    | None => Errors st
    end in
  mkEndpoints (Endpoints st) errors (S (Endpoints_Error st)).

(** The error branch of lines 1659-1663: the error is logged and counted. *)
Definition endpoints_count_error (st : EndpointsState) : EndpointsState :=
  mkEndpoints (Endpoints st) (Errors st) (S (Endpoints_Error st)).

(** Lines 1751-1754 and 1690-1693: the stage [$default] has no segment in a
    URL. *)
Definition stageSegment (stage : option string) : string :=
  let s := ptr_ToString stage in
  if decide (s = "$default") then "" else s.

(** Lines 1775-1780. *)
Definition endpointURL (rawEndpoint stage path : string) : string :=
  if decide (stage = "") then rawEndpoint +:+ path
  else rawEndpoint +:+ "/" +:+ stage +:+ path.

(** Lines 1700-1716: an endpoint of the mapped API under the custom domain.
    It is sent when it begins with the URL of the mapped stage. *)
Definition domainEndpoint (r domain stage path : string) (mapping : ApiMapping.t)
  (endpoint : Endpoint.t) : option Endpoint.t :=
  let old :=
    if decide (stage = "") then
      "https://" +:+ ptr_ToString (ApiMapping.ApiId mapping) +:+ ".execute-api." +:+ r
        +:+ ".amazonaws.com/"
    else
      "https://" +:+ ptr_ToString (ApiMapping.ApiId mapping) +:+ ".execute-api." +:+ r
        +:+ ".amazonaws.com/" +:+ stage +:+ "/" in
  if strings_HasPrefix (Endpoint.Endpoint endpoint) old then
    let new :=
      if decide (path = "") then "https://" +:+ domain +:+ "/"
      else "https://" +:+ domain +:+ "/" +:+ path +:+ "/" in
    Some (Endpoint.mk (Endpoint.AWSService endpoint) (Endpoint.Region endpoint) domain
            (strings_Replace1 (Endpoint.Endpoint endpoint) old new)
            (Endpoint.Port endpoint) (Endpoint.Protocol endpoint) (Endpoint.Public endpoint))
  else None.

Section EndpointsModule.

Variable sdk : APIGatewayv2Client.

(** [aws.ToString(m.Caller.Account)]. *)
Variable account : string.

(** [strings.Fields] of the Go standard library, which splits around runs of
    Unicode white space; the module only tests for two fields and takes the
    second. *)
Variable strings_Fields : string → list string.

(** Lines 1769-1792: the routes of one stage.  A route without key makes the
    dereference of line 1772 panic ([None]). *)
Fixpoint routeEndpoints (r name rawEndpoint stage : string) (routes : list Route.t)
  (endpoints : list Endpoint.t) : option (list Endpoint.t) :=
  match routes with
  | [] => Some endpoints
  | route :: rest =>
      match Route.RouteKey route with
      | None => None
      | Some routeKey =>
          let path :=
            if decide (length (strings_Fields routeKey) = 2%nat)
            then default "" (strings_Fields routeKey !! 1%nat)
            else "" in
          let endpoint := endpointURL rawEndpoint stage path in
          routeEndpoints r name rawEndpoint stage rest
            (endpoints ++ [Endpoint.mk "APIGatewayv2" r name endpoint 443 "https" "True"])
      end
  end.

(** Lines 1768-1793. *)
Fixpoint stageEndpoints (r name rawEndpoint : string) (stages : list string)
  (routes : list Route.t) (endpoints : list Endpoint.t) : option (list Endpoint.t) :=
  match stages with
  | [] => Some endpoints
  | stage :: rest =>
      match routeEndpoints r name rawEndpoint stage routes endpoints with
      | None => None
      | Some endpoints' => stageEndpoints r name rawEndpoint rest routes endpoints'
      end
  end.

(** [getEndpointsPerAPIGatewayv2], lines 1727-1796: the endpoints of one API
    ([None] for a panic) and the state with the errors recorded. *)
Definition getEndpointsPerAPIGatewayv2 (st : EndpointsState) (r : string) (api : Api.t)
  : option (list Endpoint.t) * EndpointsState :=
  let name := ptr_ToString (Api.Name api) in
  let rawEndpoint := ptr_ToString (Api.ApiEndpoint api) in
  let id := ptr_ToString (Api.ApiId api) in
  let '(GetStages, err) := CachedAPIGatewayv2GetStages sdk account r id in
  let st1 := match err with Some e => endpoints_error r e st | None => st end in
  let stages :=
    foldl (fun stages stage => stages ++ [stageSegment (ApiStage.StageName stage)])
      [] GetStages in
  let '(GetRoutes, err) := CachedAPIGatewayv2GetRoutes sdk account r id in
  let st2 := match err with Some e => endpoints_error r e st1 | None => st1 end in
  (stageEndpoints r name rawEndpoint stages GetRoutes [], st2).

(** [getAPIGatewayv2APIsPerRegion], lines 1627-1638. *)
Definition getAPIGatewayv2APIsPerRegion (st : EndpointsState) (r : string)
  : option EndpointsState :=
  let '(Items, err) := CachedAPIGatewayv2GetAPIs sdk account r in
  match err with
  | Some _ => Some (endpoints_count_error st)
  | None =>
      foldl (fun acc api =>
               st ← acc;
               let '(endpoints, st1) := getEndpointsPerAPIGatewayv2 st r api in
               endpoints ← endpoints;
               Some (foldl (fun st endpoint => endpoints_send endpoint st) st1 endpoints))
        (Some st) Items
  end.

(** Lines 1696-1720: the first API whose identifier is that of the mapping
    gives the endpoints; the loop stops there. *)
Fixpoint mappedApi (Items : list Api.t) (mapping : ApiMapping.t) : option Api.t :=
  match Items with
  | [] => None
  | api :: rest =>
      if decide (Api.ApiId api ≠ None
                 ∧ ptr_ToString (Api.ApiId api) = ptr_ToString (ApiMapping.ApiId mapping))
      then Some api
      else mappedApi rest mapping
  end.

(** Lines 1689-1721, for one mapping of a domain. *)
Definition mappingEndpoints (st : EndpointsState) (r domain : string) (Items : list Api.t)
  (mapping : ApiMapping.t) : option EndpointsState :=
  let stage := stageSegment (ApiMapping.Stage mapping) in
  let path := ptr_ToString (ApiMapping.ApiMappingKey mapping) in
  match mappedApi Items mapping with
  | None => Some st
  | Some api =>
      let '(endpoints, st1) := getEndpointsPerAPIGatewayv2 st r api in
      endpoints ← endpoints;
      Some (foldl (fun st endpoint =>
                     match domainEndpoint r domain stage path mapping endpoint with
                     | Some endpoint' => endpoints_send endpoint' st
                     | None => st
                     end)
              st1 endpoints)
  end.

(** Lines 1675-1723: the loop over the domain names ends at the first domain
    whose mappings cannot be fetched. *)
Fixpoint domainEndpoints (st : EndpointsState) (r : string) (Items : list Api.t)
  (domains : list DomainName.t) : option EndpointsState :=
  match domains with
  | [] => Some st
  | item :: rest =>
      let domain := ptr_ToString (DomainName.DomainName item) in
      let '(GetApiMappings, err) := CachedAPIGatewayv2GetApiMappings sdk account r domain in
      match err with
      | Some e => Some (endpoints_error r e st)
      | None =>
          st1 ← foldl (fun acc mapping =>
                         st ← acc; mappingEndpoints st r domain Items mapping)
                  (Some st) GetApiMappings;
          domainEndpoints st1 r Items rest
      end
  end.

(** [getAPIGatewayv2VIPsPerRegion], lines 1642-1725. *)
Definition getAPIGatewayv2VIPsPerRegion (st : EndpointsState) (r : string)
  : option EndpointsState :=
  let '(Items, err) := CachedAPIGatewayv2GetAPIs sdk account r in
  match err with
  | Some _ => Some (endpoints_count_error st)
  | None =>
      let '(GetDomainNames, err) := CachedAPIGatewayv2GetDomainNames sdk account r in
      let st1 := match err with Some e => endpoints_error r e st | None => st end in
      domainEndpoints st1 r Items GetDomainNames
  end.

End EndpointsModule.

(** The URL AWS gives an HTTP API: its identifier and its region. *)
Definition executeApiURL (id r : string) : string :=
  "https://" +:+ id +:+ ".execute-api." +:+ r +:+ ".amazonaws.com".

(** The segment a mapping key adds to a URL under a custom domain. *)
Definition keySegment (key : string) : string :=
  if decide (key = "") then "" else key +:+ "/".

(** An HTTP API for the examples: two stages, two routes, and a custom domain
    mapped to its stage [prod] under the key [v1]. *)
Definition exampleApi : Api.t :=
  Api.mk (Some "orders") (Some "https://a1b2c3.execute-api.us-east-1.amazonaws.com")
    (Some "a1b2c3").

Definition exampleMapping : ApiMapping.t :=
  ApiMapping.mk (Some "prod") (Some "v1") (Some "a1b2c3").

Definition exampleDefaultMapping : ApiMapping.t :=
  ApiMapping.mk (Some "$default") None (Some "a1b2c3").

Definition exampleEndpoint (url : string) : Endpoint.t :=
  Endpoint.mk "APIGatewayv2" "us-east-1" "orders" url 443 "https" "True".

Definition exampleGateway : APIGatewayv2Client :=
  {| CachedAPIGatewayv2GetAPIs := fun _ _ => ([exampleApi], None);
     CachedAPIGatewayv2GetStages := fun _ _ _ =>
       ([ApiStage.mk (Some "$default"); ApiStage.mk (Some "prod")], None);
     CachedAPIGatewayv2GetRoutes := fun _ _ _ =>
       ([Route.mk (Some "GET /orders"); Route.mk (Some "$default")], None);
     CachedAPIGatewayv2GetDomainNames := fun _ _ =>
       ([DomainName.mk (Some "broken.example.com");
         DomainName.mk (Some "api.example.com")], None);
     CachedAPIGatewayv2GetApiMappings := fun _ _ domain =>
       if decide (domain = "broken.example.com")
       then ([], Some {| Error_text := "throttled"; OperationError := None |})
       else ([exampleMapping], None) |}.

(** [strings.Fields] on the route keys of the example. *)
Definition exampleFields (s : string) : list string :=
  if decide (s = "GET /orders") then ["GET"; "/orders"] else [s].

Definition emptyEndpoints : EndpointsState := mkEndpoints [] [] 0.

(** Lines 1771-1774: the path of a route, read off its key. *)
Definition routePath (strings_Fields : string → list string) (routeKey : string) : string :=
  if decide (length (strings_Fields routeKey) = 2%nat)
  then default "" (strings_Fields routeKey !! 1%nat)
  else "".

(** An endpoint made for a stage and a route of an API, lines 1783-1791. *)
Definition endpoint_of (strings_Fields : string → list string) (r name rawEndpoint : string)
  (stages : list string) (routes : list Route.t) (endpoint : Endpoint.t) : Prop :=
  ∃ stage route routeKey,
    stage ∈ stages ∧ route ∈ routes ∧ Route.RouteKey route = Some routeKey
    ∧ endpoint = Endpoint.mk "APIGatewayv2" r name
                   (endpointURL rawEndpoint stage (routePath strings_Fields routeKey))
                   443 "https" "True".

(** * Vocabulary of the amended claims *)

(** Modelled from the spec: [MakeRoleEdges] is not part of the sources.
    Section 4.3, step 6: for every role the trust edges are derived and
    inserted or merged like the imported edges; the vertices of the graph are
    left as they are. *)
Definition edges_only (pkg : CapePackage) : Prop :=
  ∀ node g, graph.vertices (MakeRoleEdges pkg node g) = graph.vertices g.

(** The assembled graph has a vertex for every ARN collected, and for no
    other. *)
Definition one_vertex_per_arn (st : CapeState) : Prop :=
  ∀ arn, arn ∈ Node.Arn <$> GlobalNodes st
         ↔ is_Some (graph.vertices (GlobalGraph st) !! arn).

(** No entry of the ledger sits under the empty account ID. *)
Definition ledger_keys_nonempty (st : CapeState) : Prop :=
  analyzedAccounts st !! "" = None.

(** Both risk fields of a node read unknown. *)
Definition reads_unknown (node : Node.t) : Prop :=
  readRisk (Node.IsAdminString node) = RiskUnknown
  ∧ readRisk (Node.CanPrivEscToAdminString node) = RiskUnknown.

(** A collected node that is not the conversion of a listed role: a node of
    the escalation data imported for a profile, a vertex of the trust policy
    of a listed role, or a listed user. *)
Definition other_source (w : World) (pkg : CapePackage) (flags : Flags)
  (node : Node.t) : Prop :=
  (∃ profile caller pmapperMod,
      profile ∈ AWSProfiles flags ∧ AWSWhoami w profile = Some caller
      ∧ InitPmapperGraph w caller (AWSProfile flags) = inl pmapperMod
      ∧ node ∈ Nodes pmapperMod)
  ∨ (∃ profile caller role ledger,
       profile ∈ AWSProfiles flags ∧ AWSWhoami w profile = Some caller
       ∧ role ∈ CachedIamListRoles w profile (ptr_ToString (Account caller))
       ∧ node ∈ FindVerticesInRoleTrust pkg
                  (ConvertIAMRoleToNode pkg role (vendors w) ledger) (vendors w))
  ∨ (∃ profile caller user,
       profile ∈ AWSProfiles flags ∧ AWSWhoami w profile = Some caller
       ∧ user ∈ CachedIamListUsers w profile (ptr_ToString (Account caller))
       ∧ node = ConvertIAMUserToNode pkg user).

(** No role listed for [profile] has the ARN. *)
Definition lists_no_role (w : World) (arn : string) (profile : string) : Prop :=
  ∀ caller role,
    AWSWhoami w profile = Some caller →
    role ∈ CachedIamListRoles w profile (ptr_ToString (Account caller)) →
    RoleArn role ≠ arn.

(** The entry of the account is the one of an error path. *)
Definition flagged (account : string) (st : CapeState) : Prop :=
  analyzedAccounts st !! account = Some unsuccessfulJob.

(** Every collected node of the ARN reads unknown. *)
Definition all_unknown (arn : string) (st : CapeState) : Prop :=
  ∀ node, node ∈ GlobalNodes st → Node.Arn node = arn → reads_unknown node.

(** The example world when [dev] also lists the role [build], whose ARN is
    that of a node of its escalation data. *)
Definition buildListedRole : Role :=
  {| RoleArn := "arn:aws:iam::222222222222:role/build";
     RoleName := "build";
     AssumeRolePolicyDocument := [] |}.

Definition exampleWorldShared : World :=
  {| AWSWhoami := AWSWhoami exampleWorld;
     InitializeCloudFoxRunData := InitializeCloudFoxRunData exampleWorld;
     InitPmapperGraph := InitPmapperGraph exampleWorld;
     PermissionsRows := PermissionsRows exampleWorld;
     CachedIamListRoles := fun profile _ =>
       if decide (profile = "prod") then [deployRole]
       else if decide (profile = "dev") then [buildListedRole] else [];
     CachedIamListUsers := CachedIamListUsers exampleWorld;
     vendors := vendors exampleWorld;
     ReadArnIgnoreListFile := ReadArnIgnoreListFile exampleWorld;
     FileExists := FileExists exampleWorld |}.

(** A world in which the caller identity of the profile [anon] carries no
    account ID. *)
Definition exampleWorldNoAccount : World :=
  {| AWSWhoami := fun profile =>
       if decide (profile = "anon") then Some {| Account := None |}
       else AWSWhoami exampleWorld profile;
     InitializeCloudFoxRunData := InitializeCloudFoxRunData exampleWorld;
     InitPmapperGraph := InitPmapperGraph exampleWorld;
     PermissionsRows := PermissionsRows exampleWorld;
     CachedIamListRoles := fun _ _ => [];
     CachedIamListUsers := CachedIamListUsers exampleWorld;
     vendors := vendors exampleWorld;
     ReadArnIgnoreListFile := ReadArnIgnoreListFile exampleWorld;
     FileExists := FileExists exampleWorld |}.

Definition exampleFlagsAnon : Flags :=
  {| AWSProfiles := ["anon"]; AWSProfile := "anon"; CapeAdminOnly := true;
     CapeArnIgnoreList := "" |}.

(** The ECS account of the examples when the task definition [batch:1]
    cannot be described. *)
Definition exampleECSWithoutBatchDefinition : ECSClient :=
  {| TaskDefinition := TaskDefinition exampleECS;
     TaskRoleArn := TaskRoleArn exampleECS;
     json_Marshal := json_Marshal exampleECS;
     NetworkInterface := NetworkInterface exampleECS;
     NetworkInterfaceId := NetworkInterfaceId exampleECS;
     getPublicIPOfElasticNetworkInterface := getPublicIPOfElasticNetworkInterface exampleECS;
     CachedECSListClusters := CachedECSListClusters exampleECS;
     CachedECSListTasks := CachedECSListTasks exampleECS;
     CachedECSDescribeTasks := CachedECSDescribeTasks exampleECS;
     CachedECSDescribeTaskDefinition := fun _ _ arn =>
       if decide (arn = "arn:aws:ecs:us-east-1:111111111111:task-definition/batch:1")
       then None else Some (getNameFromARN arn);
     CachedEC2DescribeNetworkInterfaces := CachedEC2DescribeNetworkInterfaces exampleECS |}.
(** * Properties *)

(** ** The model on examples *)

(** [Clean] and [Join] on the examples of the Go documentation. *)
Example Clean_examples :
  filepath.Clean "a//c" = "a/c"
  ∧ filepath.Clean "a/c/." = "a/c"
  ∧ filepath.Clean "a/c/b/.." = "a/c"
  ∧ filepath.Clean "/../a/b/../././/c" = "/a/c"
  ∧ filepath.Clean "" = ".".
Proof. split_and!; reflexivity. Qed.

Example Join_examples :
  filepath.Join ["a"; "b"; "c"] = "a/b/c"
  ∧ filepath.Join ["a/b"; "/c"] = "a/b/c"
  ∧ filepath.Join ["a/b"; "../../../xyz"] = "../xyz"
  ∧ filepath.Join [""; ""] = ""
  ∧ filepath.Join ["a"; ""] = "a".
Proof. split_and!; reflexivity. Qed.

(** The example run with [y] at the prompt: the merge, three vertices, the
    edge of [build] to [admin] added once and updated once, the trust edges of
    the three roles. *)
Example example_run_calls :
  let st := final (runCapeCommand exampleWorld examplePackage exampleFlags ["y"]) in
  is_merge <$> log st = [true; false; false; false; false; false; false; false; false; false]
  ∧ is_add_vertex <$> log st
    = [false; true; true; true; false; false; false; false; false; false]
  ∧ is_edge_call <$> log st
    = [false; false; false; false; true; true; true; false; false; false]
  ∧ is_role_edges <$> log st
    = [false; false; false; false; false; false; false; true; true; true]
  ∧ size (graph.vertices (GlobalGraph st)) = 3
  ∧ size (graph.edges (GlobalGraph st)) = 1.
Proof. split_and!; vm_compute; reflexivity. Qed.

(** With the ignore-list naming [admin], its vertex is removed and the two
    imported edges into it are never created. *)
Example example_run_ignoring :
  let st := final (runCapeCommand exampleWorld examplePackage exampleFlagsIgnoring ["y"]) in
  size (graph.vertices (GlobalGraph st)) = 2
  ∧ graph.edges (GlobalGraph st) = ∅.
Proof. split; vm_compute; reflexivity. Qed.

(** The viewer finds the files of both profiles; where no file exists it
    exits, and with four profiles the shortened slice is indexed beyond its
    length. *)
Example viewer_examples :
  runCapeTUICommand exampleWorld true ["prod"; "dev"]
    = CapeTUI
        ["cloudfox-output/aws/prod/json/inbound-privesc-paths-admin-targets-only.json";
         "cloudfox-output/aws/dev/json/inbound-privesc-paths-admin-targets-only.json"]
  ∧ runCapeTUICommand exampleWorldWithoutFiles false ["prod"; "dev"] = TuiExited 1
  ∧ runCapeTUICommand exampleWorldWithoutFiles false ["a"; "b"; "c"; "d"] = TuiPanicked.
Proof. split_and!; vm_compute; reflexivity. Qed.

(** ** The ledger during vertex insertion *)

Lemma insertVertex_ledger flags st node :
  analyzedAccounts (insertVertex flags st node) =
    if decide (analyzedAccounts st !! Node.AccountID node = None
               ∧ Node.VendorName node = "" ∧ Node.AccountID node ≠ "")
    then <[Node.AccountID node := discoveredJob flags (Node.AccountID node)]> (analyzedAccounts st)
    else analyzedAccounts st.
Proof.
  unfold insertVertex; cbn.
  destruct (analyzedAccounts st !! Node.AccountID node) eqn:Hk.
  - rewrite decide_False; [done | intros (? & _); done].
  - destruct (decide (Node.VendorName node = "")) as [Hv|Hv];
      destruct (decide (Node.AccountID node ≠ "")) as [Ha|Ha]; cbn.
    + rewrite decide_True; done.
    + rewrite decide_False; [done | intros (_ & _ & ?); done].
    + rewrite decide_False; [done | intros (_ & ? & _); done].
    + rewrite decide_False; [done | intros (_ & ? & _); done].
Qed.

(** Entries that exist are never touched by vertex insertion, and every key
    it adds is the non-empty account ID of a node without vendor name. *)
Lemma insertVertices_ledger flags nodes : ∀ st k,
  let st' := foldl (insertVertex flags) st nodes in
  (∀ job, analyzedAccounts st !! k = Some job → analyzedAccounts st' !! k = Some job)
  ∧ (analyzedAccounts st !! k = None →
       analyzedAccounts st' !! k = None
       ∨ (analyzedAccounts st' !! k = Some (discoveredJob flags k) ∧ k ≠ ""
          ∧ ∃ node, node ∈ nodes ∧ Node.AccountID node = k ∧ Node.VendorName node = "")).
Proof.
  induction nodes as [|node nodes IH]; intros st k; cbn.
  - split; [done | by left].
  - destruct (IH (insertVertex flags st node) k) as [IHs IHn].
    pose proof (insertVertex_ledger flags st node) as Hstep.
    case_decide as Hc.
    + destruct Hc as (Hfree & Hv & Ha).
      destruct (decide (Node.AccountID node = k)) as [<-|Hne].
      * split; [intros job Hj; congruence |].
        intros _. right. split_and!; [| done |].
        -- apply IHs. rewrite Hstep. apply lookup_insert_eq.
        -- exists node. split_and!; [left | done | done].
      * split.
        -- intros job Hj. apply IHs. rewrite Hstep. by rewrite lookup_insert_ne.
        -- intros Hk.
           destruct IHn as [Hn | (Hs & Hk' & n & Hin & Hn1 & Hn2)].
           { rewrite Hstep. by rewrite lookup_insert_ne. }
           { by left. }
           { right. split_and!; [done | done |]. exists n. split_and!; [by right | done | done]. }
    + rewrite Hstep in IHs, IHn. split; [done |].
      intros Hk. destruct (IHn Hk) as [Hn | (Hs & Hk' & n & Hin & Hn1 & Hn2)]; [by left |].
      right. split_and!; [done | done |]. exists n. split_and!; [by right | done | done].
Qed.

(** ** Loops *)

Lemma foldl_invariant {A S} (P : S → Prop) (f : S → A → S) (l : list A) :
  (∀ s x, x ∈ l → P s → P (f s x)) → ∀ s, P s → P (foldl f s l).
Proof.
  induction l as [|x l IH]; intros Hstep s Hs; cbn; [done |].
  apply IH.
  - intros s' y Hy. apply Hstep. by right.
  - apply Hstep; [by left | done].
Qed.

Lemma forRange_invariant {A} (P : CapeState → Prop) (body : CapeState → A → Result)
    (l : list A) :
  (∀ s x, x ∈ l → P s → P (final (body s x))) →
  ∀ s, P s → P (final (forRange body s l)).
Proof.
  induction l as [|x l IH]; intros Hstep s Hs; cbn; [done |].
  pose proof (Hstep s x ltac:(by left) Hs) as Hx.
  destruct (body s x) as [s'|code s']; cbn in *; [| done].
  apply IH; [| done].
  intros s'' y Hy. apply Hstep. by right.
Qed.

(** ** Claim C6 *)

(** C6, as stated, at a node whose account ID is empty: the ledger has no
    entry for that ID and the node has no vendor name, yet vertex insertion
    adds no entry (the guard of line 1173). *)
Lemma discovery_needs_account_id :
  let flags := {| AWSProfiles := []; AWSProfile := ""; CapeAdminOnly := false;
                  CapeArnIgnoreList := "" |} in
  let node := Node.mk "arn:aws:iam:::role/orphan" "Role" "orphan" "" "" "" "" [] in
  let st := initial [] in
  ¬ (analyzedAccounts st !! Node.AccountID node = None →
     Node.VendorName node = "" →
     analyzedAccounts (insertVertex flags st node) !! Node.AccountID node
       = Some (discoveredJob flags (Node.AccountID node))).
Proof.
  cbn. intros H. specialize (H eq_refl eq_refl). vm_compute in H. discriminate.
Qed.

(** C6, amended: during vertex insertion, a merged node whose account ID is
    non-empty and not yet a key of the ledger, and whose vendor name is empty,
    adds the entry [source = cloudfox, analyzedSuccessfully = false] for its
    account and changes no other entry; a node with a vendor name leaves the
    ledger as it is.  Over the whole loop, every such node's account has an
    entry afterwards, and every key the loop adds comes from such a node. *)
Theorem insertVertex_discovers_account flags :
  (∀ st node,
     analyzedAccounts st !! Node.AccountID node = None →
     Node.VendorName node = "" →
     Node.AccountID node ≠ "" →
     analyzedAccounts (insertVertex flags st node)
       = <[Node.AccountID node := discoveredJob flags (Node.AccountID node)]>
           (analyzedAccounts st))
  ∧ (∀ st node,
       Node.VendorName node ≠ "" →
       analyzedAccounts (insertVertex flags st node) = analyzedAccounts st)
  ∧ (∀ st nodes node,
       node ∈ nodes → Node.VendorName node = "" → Node.AccountID node ≠ "" →
       is_Some (analyzedAccounts (foldl (insertVertex flags) st nodes)
                  !! Node.AccountID node))
  ∧ (∀ st nodes k,
       analyzedAccounts st !! k = None →
       is_Some (analyzedAccounts (foldl (insertVertex flags) st nodes) !! k) →
       analyzedAccounts (foldl (insertVertex flags) st nodes) !! k
         = Some (discoveredJob flags k)
       ∧ ∃ node, node ∈ nodes ∧ Node.AccountID node = k ∧ Node.VendorName node = "").
Proof.
  split_and!.
  - intros st node Hfree Hv Ha. rewrite insertVertex_ledger.
    by rewrite decide_True.
  - intros st node Hv. rewrite insertVertex_ledger.
    rewrite decide_False; [done | intros (_ & ? & _); done].
  - intros st nodes. revert st.
    induction nodes as [|n nodes IH]; intros st node Hin Hv Ha;
      [by apply elem_of_nil in Hin |].
    cbn. apply elem_of_cons in Hin as [->|Hin]; [| by apply IH].
    assert (is_Some (analyzedAccounts (insertVertex flags st n) !! Node.AccountID n))
      as [job Hjob].
    { rewrite insertVertex_ledger. case_decide as Hc.
      - rewrite lookup_insert_eq. by eexists.
      - destruct (analyzedAccounts st !! Node.AccountID n) eqn:Hk; [by eexists |].
        destruct Hc. done. }
    exists job.
    by apply (insertVertices_ledger flags nodes (insertVertex flags st n) (Node.AccountID n)).
  - intros st nodes k Hfree [job Hjob].
    destruct (insertVertices_ledger flags nodes st k) as [_ Hn].
    destruct (Hn Hfree) as [Hnone | (Hs & _ & Hex)]; [congruence | done].
Qed.

Lemma insertVertex_discovers_account_witness :
  let flags := {| AWSProfiles := ["dev"]; AWSProfile := "dev"; CapeAdminOnly := true;
                  CapeArnIgnoreList := "" |} in
  let node := Node.mk "arn:aws:iam::222222222222:role/partner" "Role" "partner" ""
                "" "" "222222222222" [] in
  analyzedAccounts (insertVertex flags (initial []) node)
    = <["222222222222" := discoveredJob flags "222222222222"]> ∅.
Proof.
  intros flags node.
  apply (proj1 (insertVertex_discovers_account flags) (initial []) node).
  - reflexivity.
  - reflexivity.
  - discriminate.
Defined.

(** ** What each loop leaves alone *)

Section Frames.

Variable w : World.
Variable pkg : CapePackage.
Variable flags : Flags.

Lemma appendRoles_frame roles st :
  let st' := foldl (appendRole w pkg) st roles in
  analyzedAccounts st' = analyzedAccounts st
  ∧ pmapperData st' = pmapperData st
  ∧ GlobalPmapperEdges st' = GlobalPmapperEdges st
  ∧ GlobalGraph st' = GlobalGraph st
  ∧ stdin st' = stdin st
  ∧ log st' = log st.
Proof.
  cbn. apply (foldl_invariant (fun s =>
    analyzedAccounts s = analyzedAccounts st ∧ pmapperData s = pmapperData st
    ∧ GlobalPmapperEdges s = GlobalPmapperEdges st ∧ GlobalGraph s = GlobalGraph st
    ∧ stdin s = stdin st ∧ log s = log st)); [| done].
  intros s role _ H. exact H.
Qed.

Lemma appendUsers_frame users st :
  let st' := foldl (appendUser pkg) st users in
  analyzedAccounts st' = analyzedAccounts st
  ∧ pmapperData st' = pmapperData st
  ∧ GlobalPmapperEdges st' = GlobalPmapperEdges st
  ∧ GlobalGraph st' = GlobalGraph st
  ∧ stdin st' = stdin st
  ∧ log st' = log st.
Proof.
  cbn. apply (foldl_invariant (fun s =>
    analyzedAccounts s = analyzedAccounts st ∧ pmapperData s = pmapperData st
    ∧ GlobalPmapperEdges s = GlobalPmapperEdges st ∧ GlobalGraph s = GlobalGraph st
    ∧ stdin s = stdin st ∧ log s = log st)); [| done].
  intros s user _ H. exact H.
Qed.

(** The collection of one profile: the graph, the input and the log are left
    alone, and so is the table of imported modules. *)
Lemma collectProfile_frame st profile :
  let st' := collectProfile w pkg st profile in
  pmapperData st' = pmapperData st
  ∧ GlobalGraph st' = GlobalGraph st
  ∧ stdin st' = stdin st
  ∧ log st' = log st.
Proof.
  cbn. unfold collectProfile.
  destruct (AWSWhoami w profile) as [caller|]; [| done].
  match goal with |- context [foldl (appendUser pkg) ?s ?us] =>
    destruct (appendUsers_frame us s) as (_ & -> & _ & -> & -> & ->) end.
  match goal with |- context [foldl (appendRole w pkg) ?s ?rs] =>
    destruct (appendRoles_frame rs s) as (_ & -> & _ & -> & -> & ->) end.
  by destruct (PermissionsRows w caller profile).
Qed.

Lemma collectProfiles_frame profiles st :
  let st' := foldl (collectProfile w pkg) st profiles in
  pmapperData st' = pmapperData st
  ∧ GlobalGraph st' = GlobalGraph st
  ∧ stdin st' = stdin st
  ∧ log st' = log st.
Proof.
  cbn. apply (foldl_invariant (fun s =>
    pmapperData s = pmapperData st ∧ GlobalGraph s = GlobalGraph st
    ∧ stdin s = stdin st ∧ log s = log st)); [| done].
  intros s p _ (H1 & H2 & H3 & H4).
  destruct (collectProfile_frame s p) as (-> & -> & -> & ->). done.
Qed.

Lemma registerProfiles_frame profiles st :
  let st' := foldl (registerProfile w flags) st profiles in
  pmapperData st' = pmapperData st
  ∧ GlobalNodes st' = GlobalNodes st
  ∧ GlobalPmapperEdges st' = GlobalPmapperEdges st
  ∧ GlobalGraph st' = GlobalGraph st
  ∧ stdin st' = stdin st
  ∧ log st' = log st.
Proof.
  cbn. apply (foldl_invariant (fun s =>
    pmapperData s = pmapperData st ∧ GlobalNodes s = GlobalNodes st
    ∧ GlobalPmapperEdges s = GlobalPmapperEdges st ∧ GlobalGraph s = GlobalGraph st
    ∧ stdin s = stdin st ∧ log s = log st)); [| done].
  intros s p _ H. unfold registerProfile.
  destruct (AWSWhoami w p); [| done].
  by destruct (InitializeCloudFoxRunData w p).
Qed.

(** The import of one profile touches the ledger, the module table, the
    input and, on exit, the log. *)
Lemma importPmapper_frame st profile :
  let st' := final (importPmapper w flags st profile) in
  GlobalNodes st' = GlobalNodes st
  ∧ GlobalPmapperEdges st' = GlobalPmapperEdges st
  ∧ GlobalGraph st' = GlobalGraph st.
Proof.
  cbn. unfold importPmapper.
  destruct (AWSWhoami w profile) as [caller|]; [| done].
  destruct (InitPmapperGraph w caller (AWSProfile flags)); [done |].
  unfold Scanln; cbn. destruct (stdin st); cbn; by case_decide.
Qed.

Lemma importPmappers_frame profiles st :
  let st' := final (forRange (importPmapper w flags) st profiles) in
  GlobalNodes st' = GlobalNodes st
  ∧ GlobalPmapperEdges st' = GlobalPmapperEdges st
  ∧ GlobalGraph st' = GlobalGraph st.
Proof.
  cbn. apply (forRange_invariant (fun s =>
    GlobalNodes s = GlobalNodes st ∧ GlobalPmapperEdges s = GlobalPmapperEdges st
    ∧ GlobalGraph s = GlobalGraph st)); [| done].
  intros s p _ (H1 & H2 & H3).
  destruct (importPmapper_frame s p) as (-> & -> & ->). done.
Qed.

Lemma insertVertices_frame nodes st :
  let st' := foldl (insertVertex flags) st nodes in
  pmapperData st' = pmapperData st
  ∧ GlobalNodes st' = GlobalNodes st
  ∧ GlobalPmapperEdges st' = GlobalPmapperEdges st
  ∧ stdin st' = stdin st.
Proof.
  cbn. apply (foldl_invariant (fun s =>
    pmapperData s = pmapperData st ∧ GlobalNodes s = GlobalNodes st
    ∧ GlobalPmapperEdges s = GlobalPmapperEdges st ∧ stdin s = stdin st)); [| done].
  intros s n _ H. unfold insertVertex; cbn.
  destruct (analyzedAccounts s !! Node.AccountID n); [done |].
  repeat case_decide; done.
Qed.

Lemma removeIgnored_frame arns st :
  let st' := foldl removeIgnored st arns in
  analyzedAccounts st' = analyzedAccounts st
  ∧ GlobalNodes st' = GlobalNodes st
  ∧ GlobalPmapperEdges st' = GlobalPmapperEdges st.
Proof.
  cbn. apply (foldl_invariant (fun s =>
    analyzedAccounts s = analyzedAccounts st ∧ GlobalNodes s = GlobalNodes st
    ∧ GlobalPmapperEdges s = GlobalPmapperEdges st)); [| done].
  intros s a _ H. exact H.
Qed.

Lemma applyIgnoreList_frame st :
  let st' := applyIgnoreList w flags st in
  analyzedAccounts st' = analyzedAccounts st
  ∧ GlobalNodes st' = GlobalNodes st
  ∧ GlobalPmapperEdges st' = GlobalPmapperEdges st.
Proof.
  cbn. unfold applyIgnoreList. case_decide; [| done]. apply removeIgnored_frame.
Qed.

Lemma addPmapperEdge_frame st edge :
  let st' := addPmapperEdge st edge in
  analyzedAccounts st' = analyzedAccounts st
  ∧ GlobalNodes st' = GlobalNodes st
  ∧ GlobalPmapperEdges st' = GlobalPmapperEdges st.
Proof.
  cbn. unfold addPmapperEdge.
  destruct (graph.AddEdge _ _ _ _) as [g1 [e|]]; [| done].
  by case_decide.
Qed.

Lemma addPmapperEdges_frame edges st :
  let st' := foldl addPmapperEdge st edges in
  analyzedAccounts st' = analyzedAccounts st
  ∧ GlobalNodes st' = GlobalNodes st
  ∧ GlobalPmapperEdges st' = GlobalPmapperEdges st.
Proof.
  cbn. apply (foldl_invariant (fun s =>
    analyzedAccounts s = analyzedAccounts st ∧ GlobalNodes s = GlobalNodes st
    ∧ GlobalPmapperEdges s = GlobalPmapperEdges st)); [| done].
  intros s e _ (H1 & H2 & H3).
  destruct (addPmapperEdge_frame s e) as (-> & -> & ->). done.
Qed.

Lemma makeRoleEdges_frame nodes st :
  let st' := foldl (makeRoleEdges pkg) st nodes in
  analyzedAccounts st' = analyzedAccounts st
  ∧ GlobalNodes st' = GlobalNodes st
  ∧ GlobalPmapperEdges st' = GlobalPmapperEdges st.
Proof.
  cbn. apply (foldl_invariant (fun s =>
    analyzedAccounts s = analyzedAccounts st ∧ GlobalNodes s = GlobalNodes st
    ∧ GlobalPmapperEdges s = GlobalPmapperEdges st)); [| done].
  intros s n _ H. unfold makeRoleEdges. by case_decide.
Qed.

(** The assembly changes the ledger only in its vertex loop, and never the
    collected nodes. *)
Lemma assemble_ledger st :
  analyzedAccounts (assemble w pkg flags st)
    = analyzedAccounts
        (foldl (insertVertex flags) (emit (CallMergeNodes (GlobalNodes st)) st)
           (MergeNodes pkg (GlobalNodes st))).
Proof.
  unfold assemble, assembleRoleEdges, assembleEdges, assembleVertices.
  destruct (makeRoleEdges_frame (MergeNodes pkg (GlobalNodes st))
    (foldl addPmapperEdge
       (applyIgnoreList w flags
          (foldl (insertVertex flags) (emit (CallMergeNodes (GlobalNodes st)) st)
             (MergeNodes pkg (GlobalNodes st))))
       (GlobalPmapperEdges
          (applyIgnoreList w flags
             (foldl (insertVertex flags) (emit (CallMergeNodes (GlobalNodes st)) st)
                (MergeNodes pkg (GlobalNodes st))))))) as (-> & _).
  match goal with |- context [foldl addPmapperEdge ?s ?es] =>
    destruct (addPmapperEdges_frame es s) as (-> & _) end.
  match goal with |- context [applyIgnoreList w flags ?s] =>
    destruct (applyIgnoreList_frame s) as (-> & _) end.
  done.
Qed.

End Frames.

(** ** The ledger, loop by loop *)

Section Ledger.

Variable w : World.
Variable pkg : CapePackage.
Variable flags : Flags.

Lemma registerProfile_ledger st profile :
  analyzedAccounts (registerProfile w flags st profile) =
    match AWSWhoami w profile, InitializeCloudFoxRunData w profile with
    | Some caller, Some _ =>
        <[ptr_ToString (Account caller) :=
            CapeJobInfo.mk (ptr_ToString (Account caller)) profile true
              (CapeAdminOnly flags) "user"]> (analyzedAccounts st)
    | _, _ => analyzedAccounts st
    end.
Proof.
  unfold registerProfile.
  destruct (AWSWhoami w profile); [| done].
  by destruct (InitializeCloudFoxRunData w profile).
Qed.

Lemma importPmapper_ledger st profile :
  analyzedAccounts (final (importPmapper w flags st profile)) =
    match AWSWhoami w profile with
    | Some caller =>
        match InitPmapperGraph w caller (AWSProfile flags) with
        | inr _ => <[ptr_ToString (Account caller) := unsuccessfulJob]> (analyzedAccounts st)
        | inl _ => analyzedAccounts st
        end
    | None => analyzedAccounts st
    end.
Proof.
  unfold importPmapper.
  destruct (AWSWhoami w profile) as [caller|]; [| done].
  destruct (InitPmapperGraph w caller (AWSProfile flags)); [done |].
  unfold Scanln; cbn. destruct (stdin st); cbn; by case_decide.
Qed.

Lemma collectProfile_ledger st profile :
  analyzedAccounts (collectProfile w pkg st profile) =
    match AWSWhoami w profile with
    | Some caller =>
        match PermissionsRows w caller profile with
        | Some _ => analyzedAccounts st
        | None => <[ptr_ToString (Account caller) := unsuccessfulJob]> (analyzedAccounts st)
        end
    | None => analyzedAccounts st
    end.
Proof.
  unfold collectProfile.
  destruct (AWSWhoami w profile) as [caller|]; [| done].
  match goal with |- context [foldl (appendUser pkg) ?s ?us] =>
    destruct (appendUsers_frame pkg us s) as (-> & _) end.
  match goal with |- context [foldl (appendRole w pkg) ?s ?rs] =>
    destruct (appendRoles_frame w pkg rs s) as (-> & _) end.
  by destruct (PermissionsRows w caller profile).
Qed.

Lemma keys_accounted_insert st st' profile caller job :
  profile ∈ AWSProfiles flags → AWSWhoami w profile = Some caller →
  analyzedAccounts st' = <[ptr_ToString (Account caller) := job]> (analyzedAccounts st) →
  keys_accounted w flags st → keys_accounted w flags st'.
Proof.
  intros Hin Hw Heq Hst k Hk. rewrite Heq in Hk.
  destruct (decide (ptr_ToString (Account caller) = k)) as [<-|Hne].
  - left. by exists profile, caller.
  - rewrite lookup_insert_ne in Hk; [| done]. by apply Hst.
Qed.

Lemma keys_accounted_same st st' :
  analyzedAccounts st' = analyzedAccounts st →
  keys_accounted w flags st → keys_accounted w flags st'.
Proof. intros Heq Hst k Hk. rewrite Heq in Hk. by apply Hst. Qed.

Lemma collect_keys_accounted input :
  keys_accounted w flags (final (collect w pkg flags input)).
Proof.
  unfold collect.
  assert (keys_accounted w flags
            (foldl (registerProfile w flags) (initial input) (AWSProfiles flags))) as H1.
  { apply (foldl_invariant (keys_accounted w flags)).
    - intros s p Hp Hs. pose proof (registerProfile_ledger s p) as Heq.
      destruct (AWSWhoami w p) as [c|] eqn:Hw; [| by eapply keys_accounted_same].
      destruct (InitializeCloudFoxRunData w p); [| by eapply keys_accounted_same].
      by eapply keys_accounted_insert.
    - intros k [job Hk]. cbn in Hk. by rewrite lookup_empty in Hk. }
  assert (keys_accounted w flags (final (forRange (importPmapper w flags)
            (foldl (registerProfile w flags) (initial input) (AWSProfiles flags))
            (AWSProfiles flags)))) as H2.
  { apply (forRange_invariant (keys_accounted w flags)); [| done].
    intros s p Hp Hs. pose proof (importPmapper_ledger s p) as Heq.
    destruct (AWSWhoami w p) as [c|] eqn:Hw; [| by eapply keys_accounted_same].
    destruct (InitPmapperGraph w c (AWSProfile flags)); [by eapply keys_accounted_same |].
    by eapply keys_accounted_insert. }
  destruct (forRange _ _ _) as [st2|code st2]; cbn in *; [| done].
  apply (foldl_invariant (keys_accounted w flags)); [| done].
  intros s p Hp Hs. pose proof (collectProfile_ledger s p) as Heq.
  destruct (AWSWhoami w p) as [c|] eqn:Hw; [| by eapply keys_accounted_same].
  destruct (PermissionsRows w c p); [by eapply keys_accounted_same |].
  by eapply keys_accounted_insert.
Qed.

Lemma run_keys_accounted input :
  keys_accounted w flags (final (runCapeCommand w pkg flags input)).
Proof.
  unfold runCapeCommand.
  pose proof (collect_keys_accounted input) as Hc.
  destruct (collect w pkg flags input) as [st|code st]; cbn in *; [| done].
  intros k Hk. rewrite assemble_ledger in Hk.
  destruct (analyzedAccounts st !! k) as [job|] eqn:Hst.
  - apply Hc. by eexists.
  - destruct (insertVertices_ledger flags (MergeNodes pkg (GlobalNodes st))
      (emit (CallMergeNodes (GlobalNodes st)) st) k) as [_ Hn].
    destruct (Hn Hst) as [Hnone | (_ & Hne & _)].
    + destruct Hk as [j Hj]. cbn in Hnone. congruence.
    + by right.
Qed.

End Ledger.

(** ** Claim C10 *)

(** ** Claim C5 *)

(** C5, evaluated on the code: profile [prod] creates the entry of account
    111111111111 with its account ID, profile name, admin-only flag and
    source [user]; the import error of the second loop then stores a record
    in which all four are the zero value.  The same happens to account
    222222222222 on the permissions error of the third loop. *)
Theorem error_overwrite_drops_record_fields :
  analyzedAccounts
    (foldl (registerProfile exampleWorld exampleFlags) (initial ["y"])
       (AWSProfiles exampleFlags)) !! "111111111111"
    = Some (CapeJobInfo.mk "111111111111" "prod" true true "user")
  ∧ analyzedAccounts (final (runCapeCommand exampleWorld examplePackage exampleFlags ["y"]))
      !! "111111111111"
    = Some (CapeJobInfo.mk "" "" false false "")
  ∧ analyzedAccounts
      (foldl (registerProfile exampleWorld exampleFlags) (initial ["y"])
         (AWSProfiles exampleFlags)) !! "222222222222"
    = Some (CapeJobInfo.mk "222222222222" "dev" true true "user")
  ∧ analyzedAccounts (final (runCapeCommand exampleWorld examplePackage exampleFlags ["y"]))
      !! "222222222222"
    = Some (CapeJobInfo.mk "" "" false false "").
Proof. split_and!; vm_compute; reflexivity. Qed.

(** ** Edges *)

(** What one imported edge does to the graph. *)
Lemma addPmapperEdge_graph st edge :
  let g := GlobalGraph st in
  let pair := (Edge.Source edge, Edge.Destination edge) in
  GlobalGraph (addPmapperEdge st edge) =
    if decide (is_Some (graph.vertices g !! Edge.Source edge)
               ∧ is_Some (graph.vertices g !! Edge.Destination edge))
    then graph.mkGraph (graph.vertices g)
           (<[pair := <[Edge.ShortReason edge := Edge.Reason edge]>
                         (default ∅ (graph.edges g !! pair))]> (graph.edges g))
    else g.
Proof.
  cbn. unfold addPmapperEdge, graph.AddEdge.
  destruct (graph.vertices (GlobalGraph st) !! Edge.Source edge) as [vs|] eqn:Hs; cbn.
  2:{ rewrite (decide_False (P := _ = _)); [| done].
      rewrite (decide_False (P := _ ∧ _)); [done | intros [[? ?] _]; done]. }
  destruct (graph.vertices (GlobalGraph st) !! Edge.Destination edge) as [vd|] eqn:Hd; cbn.
  2:{ rewrite (decide_False (P := _ = _)); [| done].
      rewrite (decide_False (P := _ ∧ _)); [done | intros [_ [? ?]]; done]. }
  destruct (graph.edges (GlobalGraph st) !! (Edge.Source edge, Edge.Destination edge))
    as [attrs|] eqn:He; cbn.
  - rewrite (decide_True (P := _ = _)); [| done].
    rewrite (decide_True (P := _ ∧ _)); [| split; by eexists].
    unfold graph.Edge, graph.UpdateEdge. rewrite He. cbn. done.
  - rewrite (decide_True (P := _ ∧ _)); [done | split; by eexists].
Qed.

Lemma addPmapperEdge_vertices st edge :
  graph.vertices (GlobalGraph (addPmapperEdge st edge)) = graph.vertices (GlobalGraph st).
Proof. rewrite addPmapperEdge_graph. cbn. by case_decide. Qed.

(** ** Claim C4 *)

(** C4: when the same ordered pair is imported twice with two different reason
    codes, the second [AddEdge] reports that the edge exists, which is not an
    error of the assembly: afterwards the graph holds the edge of that pair
    with both codes mapped to their explanation texts, the reasons the pair
    had before are kept, every other edge is as it was, and the pair is the
    only key the edge map gained. *)
Theorem duplicate_edge_merges_reasons st e1 e2 :
  let g := GlobalGraph st in
  let pair := (Edge.Source e1, Edge.Destination e1) in
  let st1 := addPmapperEdge st e1 in
  let g' := GlobalGraph (addPmapperEdge st1 e2) in
  Edge.Source e2 = Edge.Source e1 →
  Edge.Destination e2 = Edge.Destination e1 →
  Edge.ShortReason e1 ≠ Edge.ShortReason e2 →
  is_Some (graph.vertices g !! Edge.Source e1) →
  is_Some (graph.vertices g !! Edge.Destination e1) →
  (graph.AddEdge (GlobalGraph st1) (Edge.Source e2) (Edge.Destination e2)
     (graph.EdgeAttribute (Edge.ShortReason e2) (Edge.Reason e2))).2
    = Some graph.ErrEdgeAlreadyExists
  ∧ (∃ reasons,
       graph.edges g' !! pair = Some reasons
       ∧ reasons !! Edge.ShortReason e1 = Some (Edge.Reason e1)
       ∧ reasons !! Edge.ShortReason e2 = Some (Edge.Reason e2)
       ∧ ∀ code, code ≠ Edge.ShortReason e1 → code ≠ Edge.ShortReason e2 →
           reasons !! code = default ∅ (graph.edges g !! pair) !! code)
  ∧ (∀ other, other ≠ pair → graph.edges g' !! other = graph.edges g !! other)
  ∧ dom (graph.edges g') = {[pair]} ∪ dom (graph.edges g)
  ∧ graph.vertices g' = graph.vertices g.
Proof.
  intros g pair st1 g' Hs Hd Hcode Hvs Hvd.
  assert (GlobalGraph st1 = graph.mkGraph (graph.vertices g)
            (<[pair := <[Edge.ShortReason e1 := Edge.Reason e1]>
                         (default ∅ (graph.edges g !! pair))]> (graph.edges g))) as Hg1.
  { subst st1. rewrite addPmapperEdge_graph. cbn. by rewrite decide_True. }
  assert (g' = graph.mkGraph (graph.vertices g)
            (<[pair := <[Edge.ShortReason e2 := Edge.Reason e2]>
                         (<[Edge.ShortReason e1 := Edge.Reason e1]>
                            (default ∅ (graph.edges g !! pair)))]> (graph.edges g))) as Hg'.
  { subst g'. rewrite addPmapperEdge_graph. cbn. rewrite Hs, Hd, Hg1. cbn.
    rewrite decide_True; [| done]. fold pair.
    rewrite lookup_insert_eq. cbn. by rewrite insert_insert_eq. }
  split_and!.
  - unfold graph.AddEdge. rewrite Hs, Hd, Hg1. cbn.
    destruct Hvs as [vs ->], Hvd as [vd ->]. fold pair. by rewrite lookup_insert_eq.
  - eexists. rewrite Hg'. cbn. rewrite lookup_insert_eq. split_and!; [done | | |].
    + rewrite lookup_insert_ne; [| done]. apply lookup_insert_eq.
    + apply lookup_insert_eq.
    + intros code H1 H2. by rewrite !lookup_insert_ne.
  - intros other Hne. rewrite Hg'. cbn. by rewrite lookup_insert_ne.
  - rewrite Hg'. cbn. by rewrite dom_insert_L.
  - by rewrite Hg'.
Qed.

Lemma duplicate_edge_merges_reasons_witness :
  ∃ reasons,
    graph.edges
      (GlobalGraph
         (foldl addPmapperEdge
            (assembleVertices examplePackage exampleFlags
               (final (collect exampleWorld examplePackage exampleFlags ["y"])))
            (Edges devModule)))
      !! ("arn:aws:iam::222222222222:role/build", "arn:aws:iam::222222222222:role/admin")
    = Some reasons
    ∧ reasons !! "iam:PassRole" = Some "can pass the admin role to a new instance"
    ∧ reasons !! "sts:AssumeRole" = Some "can assume the admin role".
Proof.
  destruct (duplicate_edge_merges_reasons
    (assembleVertices examplePackage exampleFlags
       (final (collect exampleWorld examplePackage exampleFlags ["y"])))
    (Edge.mk "arn:aws:iam::222222222222:role/build"
       "arn:aws:iam::222222222222:role/admin"
       "iam:PassRole" "can pass the admin role to a new instance")
    (Edge.mk "arn:aws:iam::222222222222:role/build"
       "arn:aws:iam::222222222222:role/admin"
       "sts:AssumeRole" "can assume the admin role"))
    as (_ & (reasons & H1 & H2 & H3 & _) & _).
  - reflexivity.
  - reflexivity.
  - discriminate.
  - vm_compute. eexists. reflexivity.
  - vm_compute. eexists. reflexivity.
  - exists reasons. split_and!; [exact H1 | exact H2 | exact H3].
Defined.

(** ** The call log *)

Section Log.

Variable w : World.
Variable pkg : CapePackage.
Variable flags : Flags.

Lemma insertVertices_log nodes : ∀ st,
  log (foldl (insertVertex flags) st nodes) = log st ++ (CallAddVertex <$> nodes).
Proof.
  induction nodes as [|n nodes IH]; intros st; cbn; [by rewrite app_nil_r |].
  rewrite IH. rewrite (cons_middle (CallAddVertex n)), app_assoc. f_equal.
  unfold insertVertex; cbn.
  destruct (analyzedAccounts st !! Node.AccountID n); [done |].
  repeat case_decide; done.
Qed.

Lemma removeIgnored_log arns : ∀ st,
  log (foldl removeIgnored st arns) = log st ++ (CallRemoveVertex <$> arns).
Proof.
  induction arns as [|a arns IH]; intros st; cbn; [by rewrite app_nil_r |].
  rewrite IH. cbn. by rewrite <- app_assoc.
Qed.

Lemma applyIgnoreList_log st :
  log (applyIgnoreList w flags st) = log st ++ (CallRemoveVertex <$> ignoredArns w flags).
Proof.
  unfold applyIgnoreList, ignoredArns. case_decide.
  - apply removeIgnored_log.
  - cbn. by rewrite app_nil_r.
Qed.

Lemma addPmapperEdge_log st edge :
  ∃ calls, log (addPmapperEdge st edge) = log st ++ calls
           ∧ Forall (fun ev => is_edge_call ev = true) calls.
Proof.
  unfold addPmapperEdge.
  destruct (graph.AddEdge _ _ _ _) as [g1 [e|]]; cbn.
  - case_decide; cbn.
    + eexists [_; _]. rewrite <- app_assoc. split; [done |].
      repeat constructor.
    + eexists [_]. split; [done |]. repeat constructor.
  - eexists [_]. split; [done |]. repeat constructor.
Qed.

Lemma addPmapperEdges_log edges : ∀ st,
  ∃ calls, log (foldl addPmapperEdge st edges) = log st ++ calls
           ∧ Forall (fun ev => is_edge_call ev = true) calls.
Proof.
  induction edges as [|e edges IH]; intros st; cbn.
  - exists []. by rewrite app_nil_r.
  - destruct (addPmapperEdge_log st e) as (c1 & H1 & F1).
    destruct (IH (addPmapperEdge st e)) as (c2 & H2 & F2).
    exists (c1 ++ c2). rewrite H2, H1, app_assoc. split; [done |].
    by apply Forall_app.
Qed.

Lemma makeRoleEdges_log nodes : ∀ st,
  log (foldl (makeRoleEdges pkg) st nodes)
    = log st ++ (CallMakeRoleEdges <$> roleNodes nodes).
Proof.
  unfold roleNodes.
  induction nodes as [|n nodes IH]; intros st; cbn; [by rewrite app_nil_r |].
  rewrite IH. unfold makeRoleEdges.
  case_decide; cbn; [| done]. by rewrite <- app_assoc.
Qed.

(** The calls of the assembly, in order: the merge, one [AddVertex] per merged
    node, one [RemoveVertex] per ignored ARN, the edge calls of the import,
    one [MakeRoleEdges] per merged role node. *)
Lemma assemble_log st :
  ∃ edgeCalls,
    log (assemble w pkg flags st)
      = log st ++ [CallMergeNodes (GlobalNodes st)]
          ++ (CallAddVertex <$> MergeNodes pkg (GlobalNodes st))
          ++ (CallRemoveVertex <$> ignoredArns w flags)
          ++ edgeCalls
          ++ (CallMakeRoleEdges <$> roleNodes (MergeNodes pkg (GlobalNodes st)))
    ∧ Forall (fun ev => is_edge_call ev = true) edgeCalls.
Proof.
  unfold assemble, assembleRoleEdges, assembleEdges, assembleVertices.
  rewrite makeRoleEdges_log.
  match goal with |- context [foldl addPmapperEdge ?s ?es] =>
    destruct (addPmapperEdges_log es s) as (calls & -> & Hcalls) end.
  rewrite applyIgnoreList_log, insertVertices_log. cbn.
  exists calls. split; [| done].
  by rewrite <- !app_assoc.
Qed.

Lemma assemble_GlobalNodes st :
  GlobalNodes (assemble w pkg flags st) = GlobalNodes st.
Proof.
  unfold assemble, assembleRoleEdges, assembleEdges, assembleVertices.
  match goal with |- GlobalNodes (foldl (makeRoleEdges pkg) ?s ?ns) = _ =>
    destruct (makeRoleEdges_frame pkg ns s) as (_ & -> & _) end.
  match goal with |- context [foldl addPmapperEdge ?s ?es] =>
    destruct (addPmapperEdges_frame es s) as (_ & -> & _) end.
  match goal with |- context [applyIgnoreList w flags ?s] =>
    destruct (applyIgnoreList_frame w flags s) as (_ & -> & _) end.
  match goal with |- context [foldl (insertVertex flags) ?s ?ns] =>
    destruct (insertVertices_frame flags ns s) as (_ & -> & _) end.
  done.
Qed.

(** The import loop logs nothing unless it exits, and then the exit only. *)
Lemma importPmappers_log profiles : ∀ st,
  match forRange (importPmapper w flags) st profiles with
  | Completed st' => log st' = log st
  | Exited code st' => log st' = log st ++ [CallExit code] ∧ code = 1%Z
  end.
Proof.
  induction profiles as [|p profiles IH]; intros st; cbn; [done |].
  unfold importPmapper at 1.
  destruct (AWSWhoami w p) as [caller|]; cbn; [| apply IH].
  destruct (InitPmapperGraph w caller (AWSProfile flags)); cbn.
  - specialize (IH (set_pmapperData <[p:=p0]> st)). apply IH.
  - unfold Scanln; cbn. destruct (stdin st) as [|line rest]; cbn.
    + rewrite decide_False; [| done]. cbn. done.
    + case_decide; cbn; [| done].
      match goal with |- context [forRange _ ?s _] => specialize (IH s) end.
      apply IH.
Qed.

(** Collection calls neither the graph library nor [MergeNodes]. *)
Lemma collect_log input :
  match collect w pkg flags input with
  | Completed st => log st = [] ∧ GlobalGraph st = graph.New
  | Exited code st => log st = [CallExit code] ∧ code = 1%Z
  end.
Proof.
  unfold collect.
  destruct (registerProfiles_frame w flags (AWSProfiles flags) (initial input))
    as (_ & _ & _ & Hg1 & _ & Hl1).
  pose proof (importPmappers_log (AWSProfiles flags)
    (foldl (registerProfile w flags) (initial input) (AWSProfiles flags))) as Hl2.
  destruct (importPmappers_frame w flags (AWSProfiles flags)
    (foldl (registerProfile w flags) (initial input) (AWSProfiles flags)))
    as (_ & _ & Hg2).
  destruct (forRange _ _ _) as [st2|code st2]; cbn in *.
  - destruct (collectProfiles_frame w pkg (AWSProfiles flags) st2) as (_ & -> & _ & ->).
    rewrite Hl2, Hl1, Hg2, Hg1. done.
  - destruct Hl2 as [-> ->]. by rewrite Hl1.
Qed.

End Log.

(** ** Claim C1 *)

Lemma merges_app l1 l2 : merges (l1 ++ l2) = merges l1 + merges l2.
Proof. unfold merges. by rewrite filter_app, length_app. Qed.

Lemma merges_none l :
  Forall (fun ev => is_merge ev = false) l → merges l = 0.
Proof.
  unfold merges. induction 1 as [|ev l Hev _ IH]; [done |].
  rewrite filter_cons. rewrite decide_False; [done | congruence].
Qed.

(** C1, as stated, at a run the operator stops: profile [prod] has no
    escalation data and the answer at the prompt is [n]; the process exits and
    [MergeNodes] has not been called once. *)
Lemma no_merge_when_operator_declines :
  completed (runCapeCommand exampleWorld examplePackage exampleFlags ["n"]) = false
  ∧ ¬ merges (log (final (runCapeCommand exampleWorld examplePackage exampleFlags ["n"]))) = 1.
Proof. split; vm_compute; [reflexivity | discriminate]. Qed.

(** C1, amended: in every invocation of [runCapeCommand] that is not ended at
    the prompt of the import loop, [MergeNodes] is called exactly once, as
    the first call of the assembly and on the complete collected node list
    (nothing is collected afterwards); the calls that follow it insert exactly
    the merged nodes as vertices, and no later call merges or inserts a
    vertex.  An invocation ended at the prompt neither merges nor inserts. *)
Theorem merge_once_before_vertices w pkg flags input :
  match runCapeCommand w pkg flags input with
  | Completed st =>
      ∃ st0 rest,
        collect w pkg flags input = Completed st0
        ∧ GlobalNodes st = GlobalNodes st0
        ∧ log st = CallMergeNodes (GlobalNodes st0)
                   :: (CallAddVertex <$> MergeNodes pkg (GlobalNodes st0)) ++ rest
        ∧ Forall (fun ev => is_merge ev = false ∧ is_add_vertex ev = false) rest
        ∧ merges (log st) = 1
  | Exited code st => log st = [CallExit code]
  end.
Proof.
  unfold runCapeCommand.
  pose proof (collect_log w pkg flags input) as Hc.
  destruct (collect w pkg flags input) as [st0|code st0]; cbn; [| by destruct Hc].
  destruct Hc as [Hlog _].
  destruct (assemble_log w pkg flags st0) as (calls & Hl & Hcalls).
  rewrite Hlog in Hl. cbn in Hl.
  assert (Forall (fun ev => is_merge ev = false ∧ is_add_vertex ev = false)
            ((CallRemoveVertex <$> ignoredArns w flags) ++ calls
             ++ (CallMakeRoleEdges <$> roleNodes (MergeNodes pkg (GlobalNodes st0)))))
    as Hrest.
  { apply Forall_app; split; [| apply Forall_app; split].
    - apply Forall_fmap, Forall_true. done.
    - eapply Forall_impl; [exact Hcalls |]. by intros [].
    - apply Forall_fmap, Forall_true. done. }
  eexists st0, _. split_and!; [done | apply assemble_GlobalNodes | exact Hl | exact Hrest |].
  rewrite Hl.
  match goal with |- merges (?x :: ?l) = _ => change (merges ([x] ++ l) = 1) end.
  rewrite merges_app, merges_app.
  rewrite (merges_none (_ <$> _)); [| apply Forall_fmap, Forall_true; done].
  rewrite (merges_none (_ ++ _)); [done |].
  eapply Forall_impl; [exact Hrest |]. by intros ev [? _].
Qed.

(** ** The graph during the assembly *)

Section Graph.

Variable w : World.
Variable pkg : CapePackage.
Variable flags : Flags.

Lemma insertVertex_edges st node :
  graph.edges (GlobalGraph (insertVertex flags st node)) = graph.edges (GlobalGraph st).
Proof.
  unfold insertVertex, graph.AddVertex; cbn.
  destruct (analyzedAccounts st !! Node.AccountID node);
    repeat case_decide; destruct (graph.vertices (GlobalGraph st) !! Node.Arn node); done.
Qed.

Lemma insertVertices_edges nodes st :
  graph.edges (GlobalGraph (foldl (insertVertex flags) st nodes))
    = graph.edges (GlobalGraph st).
Proof.
  apply (foldl_invariant (fun s =>
    graph.edges (GlobalGraph s) = graph.edges (GlobalGraph st))); [| done].
  intros s n _ Hs. by rewrite insertVertex_edges.
Qed.

(** Without edges in the graph, [RemoveVertex] deletes the vertex it is given
    (and does nothing when there is none). *)
Lemma removeIgnored_graph st arn :
  graph.edges (GlobalGraph st) = ∅ →
  GlobalGraph (removeIgnored st arn)
    = graph.mkGraph (delete arn (graph.vertices (GlobalGraph st))) ∅.
Proof.
  intros He. unfold removeIgnored, graph.RemoveVertex, graph.has_edges; cbn.
  destruct (graph.vertices (GlobalGraph st) !! arn) eqn:Hv.
  - rewrite He, map_filter_empty. rewrite bool_decide_false; [done | by intros []].
  - cbn. rewrite delete_id by done. rewrite <- He. by destruct (GlobalGraph st).
Qed.

Lemma removeIgnored_all arns : ∀ st,
  graph.edges (GlobalGraph st) = ∅ →
  let g' := GlobalGraph (foldl removeIgnored st arns) in
  graph.edges g' = ∅
  ∧ (∀ arn, arn ∈ arns → graph.vertices g' !! arn = None)
  ∧ (∀ arn, arn ∉ arns → graph.vertices g' !! arn = graph.vertices (GlobalGraph st) !! arn)
  ∧ (∀ arn, graph.vertices (GlobalGraph st) !! arn = None → graph.vertices g' !! arn = None).
Proof.
  induction arns as [|a arns IH]; intros st He; cbn.
  - split_and!; [done | | done | done]. intros arn Hin. by apply elem_of_nil in Hin.
  - pose proof (removeIgnored_graph st a He) as Hg.
    destruct (IH (removeIgnored st a)) as (IH1 & IH2 & IH3 & IH4); [by rewrite Hg |].
    split_and!; [done | | |].
    + intros arn Hin. apply elem_of_cons in Hin as [->|Hin]; [| by apply IH2].
      apply IH4. rewrite Hg. cbn. apply lookup_delete_eq.
    + intros arn Hnin. apply not_elem_of_cons in Hnin as [Hne Hnin].
      rewrite IH3 by done. rewrite Hg. cbn. by rewrite lookup_delete_ne.
    + intros arn Hnone. apply IH4. rewrite Hg. cbn.
      destruct (decide (a = arn)) as [->|Hne];
        [apply lookup_delete_eq | by rewrite lookup_delete_ne].
Qed.

Lemma applyIgnoreList_graph st :
  graph.edges (GlobalGraph st) = ∅ →
  let g' := GlobalGraph (applyIgnoreList w flags st) in
  graph.edges g' = ∅
  ∧ (∀ arn, arn ∈ ignoredArns w flags → graph.vertices g' !! arn = None)
  ∧ (∀ arn, arn ∉ ignoredArns w flags →
       graph.vertices g' !! arn = graph.vertices (GlobalGraph st) !! arn).
Proof.
  intros He. unfold applyIgnoreList, ignoredArns. cbn. case_decide.
  - destruct (removeIgnored_all (ReadArnIgnoreListFile w (CapeArnIgnoreList flags)).1 st He)
      as (H1 & H2 & H3 & _). done.
  - split_and!; [done | | done]. intros arn Hin. by apply elem_of_nil in Hin.
Qed.

Lemma addPmapperEdge_closed st edge :
  edges_closed (GlobalGraph st) → edges_closed (GlobalGraph (addPmapperEdge st edge)).
Proof.
  intros Hc s d Hsd. rewrite addPmapperEdge_vertices.
  rewrite addPmapperEdge_graph in Hsd. cbn in Hsd.
  case_decide as Hv; [| by apply Hc]. cbn in Hsd.
  destruct (decide ((Edge.Source edge, Edge.Destination edge) = (s, d))) as [Heq|Hne].
  - by injection Heq as <- <-.
  - rewrite lookup_insert_ne in Hsd by done. by apply Hc.
Qed.

Lemma addPmapperEdges_closed edges st :
  edges_closed (GlobalGraph st) →
  let g' := GlobalGraph (foldl addPmapperEdge st edges) in
  edges_closed g' ∧ graph.vertices g' = graph.vertices (GlobalGraph st).
Proof.
  intros Hc. cbn.
  apply (foldl_invariant (fun s =>
    edges_closed (GlobalGraph s)
    ∧ graph.vertices (GlobalGraph s) = graph.vertices (GlobalGraph st))); [| done].
  intros s e _ [H1 H2]. split; [by apply addPmapperEdge_closed |].
  by rewrite addPmapperEdge_vertices.
Qed.

End Graph.

(** ** Claim C7 *)

(** C7: in a run that reaches the assembly, the [RemoveVertex] calls for the
    ARNs of the ignore-list come after every [AddVertex] call and before every
    edge call; after them no named ARN is a vertex (and every other vertex is
    untouched), and this is still so after the imported edges.  An imported
    edge whose source or destination is not a vertex is never created: the
    step ends without stopping the run, its only call is the [AddEdge] whose
    refusal is dropped, and the graph is exactly as before.  So no edge
    of the graph after the import starts or ends at a named ARN. *)
Theorem ignored_vertices_removed_before_edges w pkg flags input st0 :
  collect w pkg flags input = Completed st0 →
  let merged := MergeNodes pkg (GlobalNodes st0) in
  let st1 := assembleVertices pkg flags st0 in
  let st2 := applyIgnoreList w flags st1 in
  let st3 := assembleEdges st2 in
  runCapeCommand w pkg flags input = Completed (assemble w pkg flags st0)
  ∧ (∃ edgeCalls,
       log (assemble w pkg flags st0)
         = [CallMergeNodes (GlobalNodes st0)]
             ++ (CallAddVertex <$> merged)
             ++ (CallRemoveVertex <$> ignoredArns w flags)
             ++ edgeCalls
             ++ (CallMakeRoleEdges <$> roleNodes merged)
       ∧ Forall (fun ev => is_edge_call ev = true) edgeCalls)
  ∧ (∀ arn, arn ∈ ignoredArns w flags →
       graph.vertices (GlobalGraph st2) !! arn = None
       ∧ graph.vertices (GlobalGraph st3) !! arn = None)
  ∧ (∀ arn, arn ∉ ignoredArns w flags →
       graph.vertices (GlobalGraph st2) !! arn = graph.vertices (GlobalGraph st1) !! arn)
  ∧ (∀ st edge,
       graph.vertices (GlobalGraph st) !! Edge.Source edge = None
       ∨ graph.vertices (GlobalGraph st) !! Edge.Destination edge = None →
       GlobalGraph (addPmapperEdge st edge) = GlobalGraph st
       ∧ log (addPmapperEdge st edge)
           = log st ++ [CallAddEdge (Edge.Source edge) (Edge.Destination edge)])
  ∧ (∀ s d, is_Some (graph.edges (GlobalGraph st3) !! (s, d)) →
       (s ∉ ignoredArns w flags) ∧ (d ∉ ignoredArns w flags)).
Proof.
  intros Hcollect merged st1 st2 st3.
  pose proof (collect_log w pkg flags input) as Hc. rewrite Hcollect in Hc.
  destruct Hc as [Hlog Hg0].
  assert (graph.edges (GlobalGraph st1) = ∅) as He1.
  { subst st1. unfold assembleVertices. rewrite insertVertices_edges. cbn.
    by rewrite Hg0. }
  destruct (applyIgnoreList_graph w flags st1 He1) as (He2 & Hgone & Hkept).
  assert (edges_closed (GlobalGraph st2)) as Hclosed2.
  { intros s d [x Hx]. fold st2 in He2. rewrite He2 in Hx. by rewrite lookup_empty in Hx. }
  destruct (addPmapperEdges_closed (GlobalPmapperEdges st2) st2 Hclosed2) as [Hclosed3 Hv3].
  split_and!.
  - unfold runCapeCommand. by rewrite Hcollect.
  - destruct (assemble_log w pkg flags st0) as (calls & Hl & Hcalls).
    rewrite Hlog in Hl. by exists calls.
  - intros arn Hin. split; [by apply Hgone |].
    subst st3. unfold assembleEdges. rewrite Hv3. by apply Hgone.
  - done.
  - intros st edge Hmiss. split.
    + rewrite addPmapperEdge_graph. cbn.
      rewrite decide_False; [done |].
      intros [[? Hs] [? Hd]]. destruct Hmiss; congruence.
    + unfold addPmapperEdge, graph.AddEdge.
      destruct (graph.vertices (GlobalGraph st) !! Edge.Source edge) eqn:Hs; cbn.
      * destruct (graph.vertices (GlobalGraph st) !! Edge.Destination edge) eqn:Hd; cbn.
        -- destruct Hmiss; congruence.
        -- by rewrite decide_False.
      * by rewrite decide_False.
  - intros s d Hsd.
    destruct (Hclosed3 s d Hsd) as [[vs Hs] [vd Hd]].
    rewrite Hv3 in Hs, Hd.
    split; intros Hin; apply Hgone in Hin; fold st2 in Hin; congruence.
Qed.

Lemma ignored_vertices_removed_before_edges_witness :
  graph.vertices
    (GlobalGraph
       (assembleEdges
          (applyIgnoreList exampleWorld exampleFlagsIgnoring
             (assembleVertices examplePackage exampleFlagsIgnoring
                (final (collect exampleWorld examplePackage exampleFlagsIgnoring ["y"]))))))
    !! "arn:aws:iam::222222222222:role/admin" = None.
Proof.
  destruct (ignored_vertices_removed_before_edges exampleWorld examplePackage
    exampleFlagsIgnoring ["y"]
    (final (collect exampleWorld examplePackage exampleFlagsIgnoring ["y"])))
    as (_ & _ & Hgone & _).
  - vm_compute. reflexivity.
  - apply Hgone. vm_compute. left.
Defined.

(** ** Per-account failures *)

Lemma foldl_establishes {A S} (Q : S → Prop) (f : S → A → S) (l : list A) (x : A) :
  x ∈ l → (∀ s, Q (f s x)) → (∀ s y, Q s → Q (f s y)) → ∀ s, Q (foldl f s l).
Proof.
  intros Hin Hx Hkeep. induction l as [|y l IH]; intros s; [by apply elem_of_nil in Hin |].
  cbn. apply elem_of_cons in Hin as [->|Hin]; [| by apply IH].
  apply (foldl_invariant Q); [| apply Hx]. intros s' z _. apply Hkeep.
Qed.

Lemma forRange_establishes {A} (Q : CapeState → Prop) (body : CapeState → A → Result)
    (l : list A) (x : A) :
  x ∈ l →
  (∀ s s', body s x = Completed s' → Q s') →
  (∀ s y s', Q s → body s y = Completed s' → Q s') →
  ∀ s s', forRange body s l = Completed s' → Q s'.
Proof.
  intros Hin Hx Hkeep.
  assert (∀ l' s s', Q s → forRange body s l' = Completed s' → Q s') as Hrest.
  { induction l' as [|y l' IH]; intros s s' Hs Hrun; cbn in Hrun; [by injection Hrun as <- |].
    destruct (body s y) as [s1|code s1] eqn:Hy; cbn in Hrun; [| done].
    eapply IH; [| done]. by eapply Hkeep. }
  induction l as [|y l IH]; intros s s' Hrun; [by apply elem_of_nil in Hin |].
  cbn in Hrun. destruct (body s y) as [s1|code s1] eqn:Hy; cbn in Hrun; [| done].
  apply elem_of_cons in Hin as [->|Hin]; [| by eapply IH].
  eapply Hrest; [| done]. by eapply Hx.
Qed.

Section Failures.

Variable w : World.
Variable pkg : CapePackage.
Variable flags : Flags.

(** With [y] typed at every prompt the import loop runs to its end. *)
Lemma import_completes_when_confirmed profiles : ∀ st,
  Forall (fun line => line = "y") (stdin st) →
  (length profiles ≤ length (stdin st))%nat →
  ∃ st', forRange (importPmapper w flags) st profiles = Completed st'.
Proof.
  induction profiles as [|p profiles IH]; intros st Hy Hlen; cbn; [by eexists |].
  cbn in Hlen. unfold importPmapper at 1.
  destruct (AWSWhoami w p) as [caller|]; cbn; [| apply IH; [done | lia]].
  destruct (InitPmapperGraph w caller (AWSProfile flags)); cbn.
  - apply IH; cbn; [done | lia].
  - unfold Scanln; cbn. destruct (stdin st) as [|line rest] eqn:Hin; cbn in *; [lia |].
    apply Forall_cons in Hy as [-> Hrest].
    rewrite decide_True by done. cbn. apply IH; cbn; [done | lia].
Qed.

(** Without a failed import there is no prompt and no exit. *)
Lemma import_completes_without_failure profiles : ∀ st,
  (∀ p c, p ∈ profiles → AWSWhoami w p = Some c → ¬ importFails w flags c) →
  ∃ st', forRange (importPmapper w flags) st profiles = Completed st'.
Proof.
  induction profiles as [|p profiles IH]; intros st Hok; cbn; [by eexists |].
  assert (∀ p' c, p' ∈ profiles → AWSWhoami w p' = Some c → ¬ importFails w flags c) as Hok'.
  { intros p' c Hin. apply Hok. by right. }
  unfold importPmapper at 1.
  destruct (AWSWhoami w p) as [caller|] eqn:Hw; cbn; [| by apply IH].
  destruct (InitPmapperGraph w caller (AWSProfile flags)) eqn:Hi; cbn; [by apply IH |].
  exfalso. apply (Hok p caller); [by left | done | by eexists].
Qed.

(** The loop exits only at a profile whose import failed. *)
Lemma import_exit_has_cause profiles : ∀ st code st',
  forRange (importPmapper w flags) st profiles = Exited code st' →
  ∃ p c, p ∈ profiles ∧ AWSWhoami w p = Some c ∧ importFails w flags c.
Proof.
  induction profiles as [|p profiles IH]; intros st code st' Hrun; cbn in Hrun; [done |].
  destruct (importPmapper w flags st p) as [s1|code1 s1] eqn:Hp; cbn in Hrun.
  - destruct (IH _ _ _ Hrun) as (p' & c & Hin & Hw & Hf).
    exists p', c. split_and!; [by right | done | done].
  - unfold importPmapper in Hp.
    destruct (AWSWhoami w p) as [caller|] eqn:Hw; [| done].
    destruct (InitPmapperGraph w caller (AWSProfile flags)) eqn:Hi; [done |].
    exists p, caller. split_and!; [by left | done | by eexists].
Qed.

(** An entry that reads unsuccessful stays so through all three loops. *)
Lemma importPmapper_keeps_flag a st profile :
  analyzedAccounts st !! a = Some unsuccessfulJob →
  analyzedAccounts (final (importPmapper w flags st profile)) !! a = Some unsuccessfulJob.
Proof.
  intros Ha. rewrite importPmapper_ledger.
  destruct (AWSWhoami w profile) as [c|]; [| done].
  destruct (InitPmapperGraph w c (AWSProfile flags)); [done |].
  destruct (decide (ptr_ToString (Account c) = a)) as [->|Hne];
    [apply lookup_insert_eq | by rewrite lookup_insert_ne].
Qed.

Lemma collectProfile_keeps_flag a st profile :
  analyzedAccounts st !! a = Some unsuccessfulJob →
  analyzedAccounts (collectProfile w pkg st profile) !! a = Some unsuccessfulJob.
Proof.
  intros Ha. rewrite collectProfile_ledger.
  destruct (AWSWhoami w profile) as [c|]; [| done].
  destruct (PermissionsRows w c profile); [done |].
  destruct (decide (ptr_ToString (Account c) = a)) as [->|Hne];
    [apply lookup_insert_eq | by rewrite lookup_insert_ne].
Qed.

(** After collection, the account of every profile whose import or whose
    permissions failed reads unsuccessful. *)
Lemma collect_flags_failures input st profile caller :
  collect w pkg flags input = Completed st →
  profile ∈ AWSProfiles flags → AWSWhoami w profile = Some caller →
  collectionFails w flags profile caller →
  analyzedAccounts st !! ptr_ToString (Account caller) = Some unsuccessfulJob.
Proof.
  unfold collect. intros Hrun Hin Hw Hfail.
  destruct (forRange _ _ _) as [st2|code st2] eqn:Himport; cbn in Hrun; [| done].
  injection Hrun as <-.
  destruct Hfail as [[err Herr] | Hrows].
  - apply (foldl_invariant (fun s =>
      analyzedAccounts s !! ptr_ToString (Account caller) = Some unsuccessfulJob)).
    { intros s p _. apply collectProfile_keeps_flag. }
    eapply (forRange_establishes (fun s =>
      analyzedAccounts s !! ptr_ToString (Account caller) = Some unsuccessfulJob)
      _ _ profile Hin); [| | exact Himport].
    + intros s s' Hs. pose proof (importPmapper_ledger w flags s profile) as Hl.
      rewrite Hs, Hw, Herr in Hl. cbn in Hl. rewrite Hl. apply lookup_insert_eq.
    + intros s y s' Hq Hy. pose proof (importPmapper_keeps_flag _ s y Hq) as Hk.
      by rewrite Hy in Hk.
  - apply (foldl_establishes (fun s =>
      analyzedAccounts s !! ptr_ToString (Account caller) = Some unsuccessfulJob)
      _ _ profile Hin).
    + intros s. rewrite collectProfile_ledger, Hw, Hrows. apply lookup_insert_eq.
    + intros s y. apply collectProfile_keeps_flag.
Qed.

(** The entry of an account none of whose profiles fails is the one the first
    loop created. *)
Lemma collect_keeps_sound_accounts input st a job :
  collect w pkg flags input = Completed st →
  analyzedAccounts (foldl (registerProfile w flags) (initial input) (AWSProfiles flags))
    !! a = Some job →
  (∀ p c, p ∈ AWSProfiles flags → AWSWhoami w p = Some c →
          ptr_ToString (Account c) = a → ¬ collectionFails w flags p c) →
  analyzedAccounts st !! a = Some job.
Proof.
  unfold collect. intros Hrun Hreg Hsound.
  pose proof (forRange_invariant (fun s => analyzedAccounts s !! a = Some job)
    (importPmapper w flags) (AWSProfiles flags)) as Himp.
  specialize (Himp) with (2 := Hreg).
  destruct (forRange _ _ _) as [st2|code st2]; cbn in Hrun; [| done].
  injection Hrun as <-.
  apply (foldl_invariant (fun s => analyzedAccounts s !! a = Some job)).
  - intros s p Hp Hs. rewrite collectProfile_ledger.
    destruct (AWSWhoami w p) as [c|] eqn:Hw; [| done].
    destruct (PermissionsRows w c p) eqn:Hrows; [done |].
    destruct (decide (ptr_ToString (Account c) = a)) as [Heq|Hne];
      [| by rewrite lookup_insert_ne].
    exfalso. apply (Hsound p c Hp Hw Heq). by right.
  - cbn in Himp. apply Himp.
    intros s p Hp Hs. rewrite importPmapper_ledger.
    destruct (AWSWhoami w p) as [c|] eqn:Hw; [| done].
    destruct (InitPmapperGraph w c (AWSProfile flags)) eqn:Hi; [done |].
    destruct (decide (ptr_ToString (Account c) = a)) as [Heq|Hne];
      [| by rewrite lookup_insert_ne].
    exfalso. apply (Hsound p c Hp Hw Heq). left. by eexists.
Qed.

End Failures.

(** ** What is collected *)

Lemma foldl_establishes_under {A S} (I Q : S → Prop) (f : S → A → S) (l : list A) (x : A) :
  x ∈ l →
  (∀ s y, I s → I (f s y)) →
  (∀ s, I s → Q (f s x)) →
  (∀ s y, Q s → Q (f s y)) →
  ∀ s, I s → Q (foldl f s l).
Proof.
  intros Hin HI Hx Hkeep.
  induction l as [|y l IH]; intros s Hs; [by apply elem_of_nil in Hin |].
  cbn. apply elem_of_cons in Hin as [->|Hin]; [| apply IH; [done | by apply HI]].
  apply (foldl_invariant Q); [| by apply Hx]. intros s' z _. apply Hkeep.
Qed.

Section Collected.

Variable w : World.
Variable pkg : CapePackage.
Variable flags : Flags.

Lemma importPmapper_pmapperData st profile :
  pmapperData (final (importPmapper w flags st profile)) =
    match AWSWhoami w profile with
    | Some caller =>
        match InitPmapperGraph w caller (AWSProfile flags) with
        | inl pmapperMod => <[profile := pmapperMod]> (pmapperData st)
        | inr _ => pmapperData st
        end
    | None => pmapperData st
    end.
Proof.
  unfold importPmapper.
  destruct (AWSWhoami w profile) as [caller|]; [| done].
  destruct (InitPmapperGraph w caller (AWSProfile flags)); [done |].
  unfold Scanln; cbn. destruct (stdin st); cbn; by case_decide.
Qed.

(** After the import loop the module of every profile whose import succeeded
    is in the table under the profile's name. *)
Lemma import_stores_module profiles st st' profile caller pmapperMod :
  forRange (importPmapper w flags) st profiles = Completed st' →
  profile ∈ profiles → AWSWhoami w profile = Some caller →
  InitPmapperGraph w caller (AWSProfile flags) = inl pmapperMod →
  pmapperData st' !! profile = Some pmapperMod.
Proof.
  intros Hrun Hin Hw Hi.
  eapply (forRange_establishes (fun s => pmapperData s !! profile = Some pmapperMod)
    _ _ profile Hin); [| | exact Hrun].
  - intros s s' Hs. pose proof (importPmapper_pmapperData s profile) as Hd.
    rewrite Hs, Hw, Hi in Hd. cbn in Hd. rewrite Hd. apply lookup_insert_eq.
  - intros s y s' Hq Hy. pose proof (importPmapper_pmapperData s y) as Hd.
    rewrite Hy in Hd. cbn in Hd. rewrite Hd.
    destruct (AWSWhoami w y) as [c|] eqn:Hwy; [| done].
    destruct (InitPmapperGraph w c (AWSProfile flags)) as [m|] eqn:Hiy; [| done].
    destruct (decide (y = profile)) as [->|Hne]; [| by rewrite lookup_insert_ne].
    rewrite lookup_insert_eq. congruence.
Qed.

Lemma appendRoles_grow roles : ∀ st,
  ∃ extra, GlobalNodes (foldl (appendRole w pkg) st roles) = GlobalNodes st ++ extra.
Proof.
  induction roles as [|r roles IH]; intros st; cbn; [exists []; by rewrite app_nil_r |].
  destruct (IH (appendRole w pkg st r)) as (extra & ->). cbn.
  eexists. by rewrite <- !app_assoc.
Qed.

Lemma appendUsers_grow users : ∀ st,
  ∃ extra, GlobalNodes (foldl (appendUser pkg) st users) = GlobalNodes st ++ extra.
Proof.
  induction users as [|u users IH]; intros st; cbn; [exists []; by rewrite app_nil_r |].
  destruct (IH (appendUser pkg st u)) as (extra & ->). cbn.
  eexists. by rewrite <- !app_assoc.
Qed.

(** One profile appends the nodes and edges of its module (those of the zero
    module when the table has none), then its roles and users. *)
Lemma collectProfile_appends st profile caller :
  AWSWhoami w profile = Some caller →
  let pmapperMod := default PmapperModule_zero (pmapperData st !! profile) in
  (∃ extra, GlobalNodes (collectProfile w pkg st profile)
              = GlobalNodes st ++ Nodes pmapperMod ++ extra)
  ∧ GlobalPmapperEdges (collectProfile w pkg st profile)
      = GlobalPmapperEdges st ++ Edges pmapperMod.
Proof.
  intros Hw. cbn. unfold collectProfile. rewrite Hw.
  match goal with |- context [foldl (appendUser pkg) ?s ?us] =>
    destruct (appendUsers_grow us s) as (e2 & ->);
    destruct (appendUsers_frame pkg us s) as (_ & _ & -> & _) end.
  match goal with |- context [foldl (appendRole w pkg) ?s ?rs] =>
    destruct (appendRoles_grow rs s) as (e1 & ->);
    destruct (appendRoles_frame w pkg rs s) as (_ & _ & -> & _) end.
  destruct (PermissionsRows w caller profile); cbn.
  - split; [| done]. eexists. by rewrite <- !app_assoc.
  - split; [| done]. eexists. by rewrite <- !app_assoc.
Qed.

Lemma collectProfile_grows st profile :
  (∃ extra, GlobalNodes (collectProfile w pkg st profile) = GlobalNodes st ++ extra)
  ∧ (∃ extra, GlobalPmapperEdges (collectProfile w pkg st profile)
                = GlobalPmapperEdges st ++ extra).
Proof.
  destruct (AWSWhoami w profile) as [c|] eqn:Hw.
  - destruct (collectProfile_appends st profile c Hw) as [(extra & ->) ->].
    split; eexists; done.
  - unfold collectProfile. rewrite Hw. split; exists []; by rewrite app_nil_r.
Qed.

(** The nodes and edges of every imported module are among the collected
    ones. *)
Lemma collect_includes_modules input st profile caller pmapperMod :
  collect w pkg flags input = Completed st →
  profile ∈ AWSProfiles flags → AWSWhoami w profile = Some caller →
  InitPmapperGraph w caller (AWSProfile flags) = inl pmapperMod →
  (∀ n, n ∈ Nodes pmapperMod → n ∈ GlobalNodes st)
  ∧ (∀ e, e ∈ Edges pmapperMod → e ∈ GlobalPmapperEdges st).
Proof.
  unfold collect. intros Hrun Hin Hw Hi.
  destruct (forRange _ _ _) as [st2|code st2] eqn:Himport; cbn in Hrun; [| done].
  injection Hrun as <-.
  pose proof (import_stores_module _ _ _ _ _ _ Himport Hin Hw Hi) as Hstored.
  apply (foldl_establishes_under
    (fun s => pmapperData s !! profile = Some pmapperMod)
    (fun s => (∀ n, n ∈ Nodes pmapperMod → n ∈ GlobalNodes s)
              ∧ (∀ e, e ∈ Edges pmapperMod → e ∈ GlobalPmapperEdges s))
    _ _ profile Hin); [| | | done].
  - intros s y Hs. by destruct (collectProfile_frame w pkg s y) as (-> & _).
  - intros s Hs. destruct (collectProfile_appends s profile caller Hw) as [(extra & ->) ->].
    rewrite Hs. cbn. split; intros x Hx; rewrite !elem_of_app; auto.
  - intros s y [Hn He].
    destruct (collectProfile_grows s y) as [(e1 & ->) (e2 & ->)].
    split; intros x Hx; rewrite elem_of_app; auto.
Qed.

End Collected.

(** ** Claim C2 *)

(** C2, as stated, at a run the operator stops: only the import for [prod]
    fails, the answer at the prompt is [n], and the whole run ends with status
    1 before a single vertex exists, although profile [dev] has escalation
    data. *)
Lemma import_failure_can_end_the_run :
  importFails exampleWorld exampleFlags {| Account := Some "111111111111" |}
  ∧ ¬ importFails exampleWorld exampleFlags {| Account := Some "222222222222" |}
  ∧ ¬ completed (runCapeCommand exampleWorld examplePackage exampleFlags ["n"]) = true
  ∧ graph.vertices
      (GlobalGraph (final (runCapeCommand exampleWorld examplePackage exampleFlags ["n"])))
    = ∅.
Proof.
  split_and!.
  - eexists. vm_compute. reflexivity.
  - intros [err Herr]. vm_compute in Herr. discriminate.
  - vm_compute. discriminate.
  - vm_compute. reflexivity.
Qed.

(** C2, amended: a failure of the permissions gathering never ends the run,
    and a failure of the escalation import ends it only when the operator
    does not answer [y] at the prompt (then with status 1); with [y] at every
    prompt, or without a failed import, the run reaches the assembly.  In a
    run that does, the account of every profile whose import or permissions
    failed reads unsuccessful, the entry of an account none of whose profiles
    failed is still the one created for it, and the nodes and edges of every
    imported module are among those the graph is assembled from. *)
Theorem collection_failure_flags_account_only w pkg flags input :
  let r := runCapeCommand w pkg flags input in
  let registered :=
    analyzedAccounts
      (foldl (registerProfile w flags) (initial input) (AWSProfiles flags)) in
  (Forall (fun line => line = "y") input →
   (length (AWSProfiles flags) ≤ length input)%nat →
   completed r = true)
  ∧ ((∀ p c, p ∈ AWSProfiles flags → AWSWhoami w p = Some c → ¬ importFails w flags c) →
     completed r = true)
  ∧ (∀ code st, r = Exited code st →
       code = 1%Z
       ∧ ∃ p c, p ∈ AWSProfiles flags ∧ AWSWhoami w p = Some c ∧ importFails w flags c)
  ∧ (∀ st, r = Completed st →
       (∀ p c, p ∈ AWSProfiles flags → AWSWhoami w p = Some c →
               collectionFails w flags p c →
               analyzedAccounts st !! ptr_ToString (Account c) = Some unsuccessfulJob)
       ∧ (∀ a job, registered !! a = Some job →
            (∀ p c, p ∈ AWSProfiles flags → AWSWhoami w p = Some c →
                    ptr_ToString (Account c) = a → ¬ collectionFails w flags p c) →
            analyzedAccounts st !! a = Some job)
       ∧ (∀ p c pmapperMod,
            p ∈ AWSProfiles flags → AWSWhoami w p = Some c →
            InitPmapperGraph w c (AWSProfile flags) = inl pmapperMod →
            (∀ n, n ∈ Nodes pmapperMod → n ∈ GlobalNodes st)
            ∧ (∀ e, e ∈ Edges pmapperMod → e ∈ GlobalPmapperEdges st))).
Proof.
  intros r registered.
  assert (∀ st, r = Completed st →
            ∃ st0, collect w pkg flags input = Completed st0
                   ∧ st = assemble w pkg flags st0) as Hsplit.
  { subst r. unfold runCapeCommand. intros st Hr.
    destruct (collect w pkg flags input) as [st0|code st0]; cbn in Hr; [| done].
    injection Hr as <-. by exists st0. }
  assert (∀ st0 a job, analyzedAccounts st0 !! a = Some job →
            analyzedAccounts (assemble w pkg flags st0) !! a = Some job) as Hkept.
  { intros st0 a job Ha. rewrite assemble_ledger.
    by apply (insertVertices_ledger flags (MergeNodes pkg (GlobalNodes st0))
                (emit (CallMergeNodes (GlobalNodes st0)) st0) a). }
  split_and!.
  - intros Hy Hlen. subst r. unfold runCapeCommand, collect.
    destruct (registerProfiles_frame w flags (AWSProfiles flags) (initial input))
      as (_ & _ & _ & _ & Hin & _).
    destruct (import_completes_when_confirmed w flags (AWSProfiles flags)
      (foldl (registerProfile w flags) (initial input) (AWSProfiles flags)))
      as (st2 & ->); [by rewrite Hin | by rewrite Hin |]. done.
  - intros Hok. subst r. unfold runCapeCommand, collect.
    destruct (import_completes_without_failure w flags (AWSProfiles flags)
      (foldl (registerProfile w flags) (initial input) (AWSProfiles flags)) Hok)
      as (st2 & ->). done.
  - intros code st Hr. subst r. unfold runCapeCommand in Hr.
    pose proof (collect_log w pkg flags input) as Hl.
    destruct (collect w pkg flags input) as [st0|code0 st0] eqn:Hc; cbn in Hr; [done |].
    injection Hr as <- <-. split; [by destruct Hl |].
    unfold collect in Hc.
    destruct (forRange _ _ _) as [st2|code2 st2] eqn:Himport; cbn in Hc; [done |].
    by eapply import_exit_has_cause.
  - intros st Hr. destruct (Hsplit st Hr) as (st0 & Hc & ->).
    split_and!.
    + intros p c Hin Hw Hfail. apply Hkept. by eapply collect_flags_failures.
    + intros a job Hreg Hsound. apply Hkept. by eapply collect_keeps_sound_accounts.
    + intros p c pmapperMod Hin Hw Hi.
      rewrite assemble_GlobalNodes.
      assert (GlobalPmapperEdges (assemble w pkg flags st0) = GlobalPmapperEdges st0) as ->.
      { unfold assemble, assembleRoleEdges, assembleEdges, assembleVertices.
        match goal with |- GlobalPmapperEdges (foldl (makeRoleEdges pkg) ?s ?ns) = _ =>
          destruct (makeRoleEdges_frame pkg ns s) as (_ & _ & ->) end.
        match goal with |- context [foldl addPmapperEdge ?s ?es] =>
          destruct (addPmapperEdges_frame es s) as (_ & _ & ->) end.
        match goal with |- context [applyIgnoreList w flags ?s] =>
          destruct (applyIgnoreList_frame w flags s) as (_ & _ & ->) end.
        match goal with |- context [foldl (insertVertex flags) ?s ?ns] =>
          destruct (insertVertices_frame flags ns s) as (_ & _ & -> & _) end.
        done. }
      by eapply collect_includes_modules.
Qed.

Lemma collection_failure_flags_account_only_witness :
  completed (runCapeCommand exampleWorld examplePackage exampleFlags ["y"; "y"]) = true.
Proof.
  apply (proj1 (collection_failure_flags_account_only exampleWorld examplePackage
                  exampleFlags ["y"; "y"])).
  - repeat constructor.
  - vm_compute. repeat constructor.
Defined.

(** ** The merge of the specification *)

Lemma mergeInto_keyed byArn node : keyed byArn → keyed (mergeInto byArn node).
Proof.
  intros Hk k n. unfold mergeInto.
  destruct (decide (Node.Arn node = k)) as [<-|Hne].
  - rewrite lookup_insert_eq. intros [= <-].
    destruct (byArn !! Node.Arn node) as [seen|] eqn:Hs; [| done].
    cbn. by apply Hk.
  - rewrite lookup_insert_ne by done. apply Hk.
Qed.

Lemma mergeInto_dom byArn node :
  dom (mergeInto byArn node) = {[Node.Arn node]} ∪ dom byArn.
Proof. unfold mergeInto. by rewrite dom_insert_L. Qed.

Lemma merge_fold nodes : ∀ byArn,
  keyed byArn →
  keyed (foldl mergeInto byArn nodes)
  ∧ dom (foldl mergeInto byArn nodes) = list_to_set (Node.Arn <$> nodes) ∪ dom byArn.
Proof.
  induction nodes as [|n nodes IH]; intros byArn Hk; cbn.
  - split; [done | by rewrite (left_id_L ∅ (∪))].
  - destruct (IH (mergeInto byArn n)) as [IH1 IH2]; [by apply mergeInto_keyed |].
    split; [done |]. rewrite IH2, mergeInto_dom.
    by rewrite (assoc_L (∪)), (comm_L (∪) (list_to_set _)).
Qed.

Lemma keyed_arns (byArn : gmap string Node.t) :
  keyed byArn → Node.Arn <$> (map_to_list byArn).*2 = (map_to_list byArn).*1.
Proof.
  intros Hk.
  assert (Forall (fun kv : string * Node.t => Node.Arn kv.2 = kv.1) (map_to_list byArn)) as Hall.
  { apply Forall_forall. intros [k n] Hin. apply elem_of_map_to_list in Hin. cbn. by apply Hk. }
  induction Hall as [|[k n] l Hkn _ IH]; [done |].
  cbn in *. by rewrite Hkn, IH.
Qed.

Lemma MergeNodes_spec_arns nodes :
  Node.Arn <$> MergeNodes_spec nodes = (map_to_list (foldl mergeInto ∅ nodes)).*1.
Proof.
  unfold MergeNodes_spec. apply keyed_arns.
  apply (merge_fold nodes ∅). intros k n Hk. by rewrite lookup_empty in Hk.
Qed.

Lemma MergeNodes_spec_NoDup nodes : NoDup (Node.Arn <$> MergeNodes_spec nodes).
Proof. rewrite MergeNodes_spec_arns. apply NoDup_fst_map_to_list. Qed.

Lemma MergeNodes_spec_elem nodes arn :
  arn ∈ Node.Arn <$> MergeNodes_spec nodes ↔ arn ∈ Node.Arn <$> nodes.
Proof.
  rewrite MergeNodes_spec_arns.
  destruct (merge_fold nodes ∅) as [_ Hdom].
  { intros k n Hk. by rewrite lookup_empty in Hk. }
  rewrite <- (elem_of_list_to_set (C := gset string) arn (Node.Arn <$> nodes)).
  assert (list_to_set (Node.Arn <$> nodes) = dom (foldl mergeInto ∅ nodes)) as ->.
  { by rewrite Hdom, dom_empty_L, (right_id_L ∅ (∪)). }
  rewrite elem_of_dom. split.
  - intros Hin. apply list_elem_of_fmap in Hin as ([k n] & -> & Hin).
    apply elem_of_map_to_list in Hin. by eexists.
  - intros [n Hn]. apply list_elem_of_fmap. exists (arn, n).
    split; [done |]. by apply elem_of_map_to_list.
Qed.

Lemma MergeNodes_spec_length nodes :
  length (MergeNodes_spec nodes) = size (list_to_set (Node.Arn <$> nodes) : gset string).
Proof.
  destruct (merge_fold nodes ∅) as [_ Hdom].
  { intros k n Hk. by rewrite lookup_empty in Hk. }
  assert (list_to_set (Node.Arn <$> nodes) = dom (foldl mergeInto ∅ nodes)) as ->.
  { by rewrite Hdom, dom_empty_L, (right_id_L ∅ (∪)). }
  rewrite size_dom. unfold MergeNodes_spec.
  by rewrite length_fmap, length_map_to_list.
Qed.

(** ** Vertices *)

Lemma insertVertex_vertices flags st node :
  graph.vertices (GlobalGraph (insertVertex flags st node)) =
    match graph.vertices (GlobalGraph st) !! Node.Arn node with
    | Some _ => graph.vertices (GlobalGraph st)
    | None =>
        <[Node.Arn node := graph.VertexAttributes (vertexOptions node)]>
          (graph.vertices (GlobalGraph st))
    end.
Proof.
  unfold insertVertex, graph.AddVertex; cbn.
  destruct (analyzedAccounts st !! Node.AccountID node);
    repeat case_decide; destruct (graph.vertices (GlobalGraph st) !! Node.Arn node); done.
Qed.

(** Nodes with pairwise different ARNs, none of them a vertex yet, become one
    vertex each, with the attributes of the node. *)
Lemma insertVertices_vertices flags nodes : ∀ st,
  NoDup (Node.Arn <$> nodes) →
  (∀ node, node ∈ nodes → graph.vertices (GlobalGraph st) !! Node.Arn node = None) →
  let g' := GlobalGraph (foldl (insertVertex flags) st nodes) in
  (∀ node, node ∈ nodes →
     graph.vertices g' !! Node.Arn node = Some (graph.VertexAttributes (vertexOptions node)))
  ∧ (∀ arn, arn ∉ Node.Arn <$> nodes →
       graph.vertices g' !! arn = graph.vertices (GlobalGraph st) !! arn).
Proof.
  induction nodes as [|n nodes IH]; intros st Hnd Hfree; cbn.
  - split; [| done]. intros node Hin. by apply elem_of_nil in Hin.
  - cbn in Hnd. apply NoDup_cons in Hnd as [Hn Hnd].
    pose proof (insertVertex_vertices flags st n) as Hv.
    rewrite (Hfree n) in Hv by left.
    destruct (IH (insertVertex flags st n) Hnd) as [IH1 IH2].
    { intros node Hin. rewrite Hv. rewrite lookup_insert_ne.
      - apply Hfree. by right.
      - intros Heq. apply Hn. rewrite Heq. by apply list_elem_of_fmap_2. }
    split.
    + intros node Hin. apply elem_of_cons in Hin as [->|Hin]; [| by apply IH1].
      rewrite IH2 by done. rewrite Hv. apply lookup_insert_eq.
    + intros arn Hnin. apply not_elem_of_cons in Hnin as [Hne Hnin].
      rewrite IH2 by done. rewrite Hv. by rewrite lookup_insert_ne.
Qed.

(** ** Claim C8 *)

(** ** Strings and paths *)

Lemma append_cons c s t : String c s +:+ t = String c (s +:+ t).
Proof. reflexivity. Qed.

Lemma append_assoc s t u : (s +:+ t) +:+ u = s +:+ t +:+ u.
Proof.
  induction s as [|c s IH]; [done |].
  by rewrite !append_cons, IH.
Qed.

Lemma append_empty_inv s t : s +:+ t = "" → s = "" ∧ t = "".
Proof. destruct s; [done |]. by rewrite append_cons. Qed.

Lemma strings_Split_nonempty sep s : strings_Split sep s ≠ [].
Proof.
  destruct s as [|c s]; cbn; [done |].
  case_decide; [done |]. by destruct (strings_Split sep s).
Qed.

Lemma strings_Split_app sep s t :
  strings_Split sep (s +:+ String sep t) = strings_Split sep s ++ strings_Split sep t.
Proof.
  induction s as [|c s IH].
  - change ("" +:+ String sep t) with (String sep t). cbn.
    by rewrite decide_True.
  - rewrite append_cons. cbn. rewrite IH.
    case_decide; [done |].
    pose proof (strings_Split_nonempty sep s) as Hne.
    by destruct (strings_Split sep s).
Qed.

Lemma cleanStep_plain r out elem :
  plain elem → filepath.cleanStep r out elem = elem :: out.
Proof.
  intros (H1 & H2 & H3). unfold filepath.cleanStep.
  by rewrite !decide_False.
Qed.

Lemma concat_two_more (l : list string) a b :
  ∃ dir, String.concat "/" (l ++ [a; b]) = dir +:+ a +:+ "/" +:+ b
         ∧ (dir = "" ∨ ∃ d, dir = d +:+ "/").
Proof.
  induction l as [|x l (dir & IH & Hdir)].
  - exists "". split; [done | by left].
  - exists (x +:+ "/" +:+ dir). split.
    + change ((x :: l) ++ [a; b]) with (x :: (l ++ [a; b])).
      assert (String.concat "/" (x :: (l ++ [a; b]))
              = x +:+ "/" +:+ String.concat "/" (l ++ [a; b])) as ->.
      { cbn. by destruct l. }
      by rewrite IH, !append_assoc.
    + right. destruct Hdir as [->|(d & ->)].
      * exists x. done.
      * exists (x +:+ "/" +:+ d). by rewrite !append_assoc.
Qed.

(** A path whose last two elements are plain is cleaned to a path that ends
    in these two elements. *)
Lemma Clean_keeps_last_two out tail a b :
  out ≠ "" → strings_Split "/" tail = [a; b] → plain a → plain b →
  ∃ dir, filepath.Clean (out +:+ String "/" tail) = dir +:+ a +:+ "/" +:+ b
         ∧ (dir = "" ∨ ∃ d, dir = d +:+ "/").
Proof.
  intros Hout Htail Ha Hb. unfold filepath.Clean.
  assert (filepath.rooted (out +:+ String "/" tail) = filepath.rooted out) as ->.
  { destruct out; [done |]. by rewrite append_cons. }
  rewrite strings_Split_app, Htail, foldl_app. cbn [foldl].
  rewrite (cleanStep_plain _ _ a Ha), (cleanStep_plain _ _ b Hb).
  cbn [rev]. rewrite <- !app_assoc. cbn [app].
  destruct (concat_two_more
    (rev (foldl (filepath.cleanStep (filepath.rooted out)) [] (strings_Split "/" out))) a b)
    as (dir & -> & Hdir).
  destruct (filepath.rooted out).
  - exists ("/" +:+ dir). split; [by rewrite append_assoc |].
    right. destruct Hdir as [->|(d & ->)]; [by exists "" |].
    exists ("/" +:+ d). by rewrite append_assoc.
  - rewrite decide_False; [by exists dir |].
    intros Hempty. apply append_empty_inv in Hempty as [_ Hempty].
    apply append_empty_inv in Hempty as [_ Hempty]. done.
Qed.

(** ** Claim C9 *)

Section Viewer.

Variable w : World.
Variable capeAdminOnly : bool.

Lemma tuiProfile_invariant profiles st i st' :
  tui_invariant w capeAdminOnly profiles st → tuiProfile w capeAdminOnly st i = inl st' →
  tui_invariant w capeAdminOnly profiles st'.
Proof.
  intros [Hb Hl] Hstep. unfold tuiProfile in Hstep.
  destruct (backing st !! i) as [profile|] eqn:Hi; [| done].
  assert (profile ∈ profiles) as Hp.
  { apply Hb. by eapply list_elem_of_lookup_2. }
  destruct (InitializeCloudFoxRunData w profile) as [out|] eqn:Hinit;
    [| by injection Hstep as <-].
  assert (located w capeAdminOnly profiles
            (capeOutputFileLocations st ++ [capeOutputFileLocation out capeAdminOnly]))
    as Hl'.
  { intros location Hin. apply elem_of_app in Hin as [Hin|Hin]; [by apply Hl |].
    apply list_elem_of_singleton in Hin as ->. by exists profile, out. }
  destruct (FileExists w _); [by injection Hstep as <- |].
  repeat case_decide; try done.
  injection Hstep as <-. split; [| done]. cbn.
  intros p Hin. apply Hb.
  rewrite !elem_of_app in Hin. destruct Hin as [Hin | [Hin | Hin]].
  - by eapply subseteq_take.
  - eapply subseteq_take. by eapply subseteq_drop.
  - by eapply subseteq_drop.
Qed.

Lemma tuiLoop_invariant profiles indices : ∀ st st',
  tui_invariant w capeAdminOnly profiles st → tuiLoop w capeAdminOnly st indices = inl st' →
  tui_invariant w capeAdminOnly profiles st'.
Proof.
  induction indices as [|i indices IH]; intros st st' Hinv Hrun; cbn in Hrun.
  - by injection Hrun as <-.
  - destruct (tuiProfile w capeAdminOnly st i) as [st1|r] eqn:Hstep; [| done].
    eapply IH; [| done]. by eapply tuiProfile_invariant.
Qed.

Lemma runCapeTUICommand_located profiles locations :
  runCapeTUICommand w capeAdminOnly profiles = CapeTUI locations →
  located w capeAdminOnly profiles locations.
Proof.
  unfold runCapeTUICommand. intros Hrun.
  destruct (tuiLoop _ _ _ _) as [st|r] eqn:Hloop.
  - case_decide; [done |]. injection Hrun as <-.
    eapply (tuiLoop_invariant profiles _ _ st); [| done].
    split; [done |]. intros location Hin. by apply elem_of_nil in Hin.
  - subst r. clear -Hloop. exfalso.
    revert Hloop. generalize (mkTui profiles (length profiles) []).
    induction (seq 0 (length profiles)) as [|i indices IH]; intros st Hloop;
      cbn in Hloop; [done |].
    destruct (tuiProfile w capeAdminOnly st i) as [st1|r] eqn:Hstep; [by eapply IH |].
    injection Hloop as ->. unfold tuiProfile in Hstep.
    destruct (backing st !! i); [| done].
    destruct (InitializeCloudFoxRunData w s); [| done].
    destruct (FileExists w _); [done |]. repeat case_decide; done.
Qed.

End Viewer.

(** ** Claim C3 *)

Lemma ConvertIAMRoleToNode_spec_unknown analysis role vendorMap
    (ledger : gmap string CapeJobInfo.t) :
  (∀ job, ledger !! accountOfArn (RoleArn role) = Some job →
          CapeJobInfo.AnalyzedSuccessfully job = false) →
  let node := ConvertIAMRoleToNode_spec analysis role vendorMap ledger in
  Node.Arn node = RoleArn role
  ∧ Node.AccountID node = accountOfArn (RoleArn role)
  ∧ readRisk (Node.IsAdminString node) = RiskUnknown
  ∧ readRisk (Node.CanPrivEscToAdminString node) = RiskUnknown.
Proof.
  intros Hledger. cbn.
  destruct (ledger !! accountOfArn (RoleArn role)) as [job|] eqn:Hjob.
  - rewrite (Hledger job eq_refl). done.
  - done.
Qed.

Section Roles.

Variable w : World.
Variable pkg : CapePackage.

(** Every listed role is converted with the ledger of the moment, and the
    node is collected. *)
Lemma appendRoles_converts roles : ∀ st role,
  role ∈ roles →
  ConvertIAMRoleToNode pkg role (vendors w) (analyzedAccounts st)
    ∈ GlobalNodes (foldl (appendRole w pkg) st roles).
Proof.
  induction roles as [|r roles IH]; intros st role Hin; [by apply elem_of_nil in Hin |].
  cbn. apply elem_of_cons in Hin as [->|Hin].
  - destruct (appendRoles_grow w pkg roles (appendRole w pkg st r)) as (extra & ->).
    cbn. rewrite !elem_of_app. left. left. right. left.
  - by apply (IH (appendRole w pkg st r)).
Qed.

Lemma collectProfile_converts st profile caller role :
  AWSWhoami w profile = Some caller →
  role ∈ CachedIamListRoles w profile (ptr_ToString (Account caller)) →
  ConvertIAMRoleToNode pkg role (vendors w)
      (analyzedAccounts (collectProfile w pkg st profile))
    ∈ GlobalNodes (collectProfile w pkg st profile).
Proof.
  intros Hw Hrole. rewrite collectProfile_ledger. unfold collectProfile. rewrite Hw.
  match goal with |- context [foldl (appendUser pkg) ?s ?us] =>
    destruct (appendUsers_grow pkg us s) as (e2 & ->) end.
  apply elem_of_app. left.
  match goal with |- _ ∈ GlobalNodes (foldl (appendRole w pkg) ?s ?rs) =>
    pose proof (appendRoles_converts rs s role Hrole) as Hc end.
  by destruct (PermissionsRows w caller profile).
Qed.

End Roles.



(** * Further properties of the assembly *)

(** ** Vertices are never re-attributed *)

Lemma vertexAttributesOf_lookup node :
  vertexAttributesOf node !! "Type" = Some (Node.Type' node)
  ∧ vertexAttributesOf node !! "Name" = Some (Node.Name node)
  ∧ vertexAttributesOf node !! "VendorName" = Some (Node.VendorName node)
  ∧ vertexAttributesOf node !! "IsAdminString" = Some (Node.IsAdminString node)
  ∧ vertexAttributesOf node !! "CanPrivEscToAdminString"
      = Some (Node.CanPrivEscToAdminString node)
  ∧ vertexAttributesOf node !! "AccountID" = Some (Node.AccountID node).
Proof.
  unfold vertexAttributesOf, graph.VertexAttributes, vertexOptions. cbn.
  split_and!; by simplify_map_eq.
Qed.

Lemma insertVertices_first flags nodes : ∀ st arn,
  graph.vertices (GlobalGraph (foldl (insertVertex flags) st nodes)) !! arn =
    match graph.vertices (GlobalGraph st) !! arn with
    | Some attrs => Some attrs
    | None => vertexAttributesOf <$> head (filter (fun node => Node.Arn node = arn) nodes)
    end.
Proof.
  induction nodes as [|n nodes IH]; intros st arn.
  - cbn. by destruct (graph.vertices (GlobalGraph st) !! arn).
  - cbn [foldl]. rewrite IH, insertVertex_vertices. rewrite filter_cons.
    destruct (decide (Node.Arn n = arn)) as [<-|Hne].
    + destruct (graph.vertices (GlobalGraph st) !! Node.Arn n) as [attrs|] eqn:Hv.
      * by rewrite Hv.
      * by rewrite lookup_insert_eq.
    + destruct (graph.vertices (GlobalGraph st) !! Node.Arn n) as [attrs|] eqn:Hv; [done |].
      by rewrite lookup_insert_ne.
Qed.

(** X1: whatever list the vertex loop is given, a vertex keeps the attributes
    it was inserted with: an ARN that is a vertex already is left as it is,
    and an ARN that is not becomes a vertex with the six attributes of the
    first node of the list that carries it; later nodes with the same ARN
    change nothing. *)
Theorem vertex_keeps_first_attributes flags nodes st arn :
  let g := GlobalGraph st in
  let g' := GlobalGraph (foldl (insertVertex flags) st nodes) in
  graph.vertices g' !! arn =
    match graph.vertices g !! arn with
    | Some attrs => Some attrs
    | None => vertexAttributesOf <$> head (filter (fun node => Node.Arn node = arn) nodes)
    end
  ∧ ∀ node, vertexAttributesOf node !! "Type" = Some (Node.Type' node)
            ∧ vertexAttributesOf node !! "Name" = Some (Node.Name node)
            ∧ vertexAttributesOf node !! "VendorName" = Some (Node.VendorName node)
            ∧ vertexAttributesOf node !! "IsAdminString" = Some (Node.IsAdminString node)
            ∧ vertexAttributesOf node !! "CanPrivEscToAdminString"
                = Some (Node.CanPrivEscToAdminString node)
            ∧ vertexAttributesOf node !! "AccountID" = Some (Node.AccountID node).
Proof.
  split; [apply insertVertices_first | apply vertexAttributesOf_lookup].
Qed.

(** ** The imported edges *)

Lemma addPmapperEdge_keeps_reason st e pair code text reasons :
  graph.edges (GlobalGraph st) !! pair = Some reasons →
  reasons !! code = Some text →
  ¬ same_reason pair code e →
  ∃ reasons', graph.edges (GlobalGraph (addPmapperEdge st e)) !! pair = Some reasons'
              ∧ reasons' !! code = Some text.
Proof.
  intros Hpair Hcode Hother. rewrite addPmapperEdge_graph. cbn.
  case_decide as Hv; [| by exists reasons]. cbn.
  destruct (decide ((Edge.Source e, Edge.Destination e) = pair)) as [Heq|Hne].
  - rewrite Heq, lookup_insert_eq, Hpair. cbn. eexists. split; [done |].
    rewrite lookup_insert_ne; [done |]. intros Hc. by apply Hother.
  - rewrite lookup_insert_ne by done. by exists reasons.
Qed.

Lemma addPmapperEdges_keep_reason post : ∀ st pair code text reasons,
  graph.edges (GlobalGraph st) !! pair = Some reasons →
  reasons !! code = Some text →
  Forall (fun e => ¬ same_reason pair code e) post →
  ∃ reasons', graph.edges (GlobalGraph (foldl addPmapperEdge st post)) !! pair = Some reasons'
              ∧ reasons' !! code = Some text.
Proof.
  induction post as [|e post IH]; intros st pair code text reasons Hpair Hcode Hall; cbn.
  - by exists reasons.
  - apply Forall_cons in Hall as [He Hall].
    destruct (addPmapperEdge_keeps_reason st e pair code text reasons Hpair Hcode He)
      as (r1 & Hr1 & Hc1).
    by eapply IH.
Qed.

(** X2: an imported edge whose two end points are vertices is never lost,
    wherever it stands in the edge list and whatever the graph held before:
    after the import the graph has an edge for its pair whose reasons map its
    reason code to a text, and the text is its own unless a later edge of the
    list has the same pair and the same code. *)
Theorem imported_edge_is_recorded st pre edge post :
  let g := GlobalGraph st in
  let pair := (Edge.Source edge, Edge.Destination edge) in
  let g' := GlobalGraph (foldl addPmapperEdge st (pre ++ edge :: post)) in
  is_Some (graph.vertices g !! Edge.Source edge) →
  is_Some (graph.vertices g !! Edge.Destination edge) →
  (∃ reasons, graph.edges g' !! pair = Some reasons
              ∧ is_Some (reasons !! Edge.ShortReason edge))
  ∧ (Forall (fun e => ¬ same_reason pair (Edge.ShortReason edge) e) post →
     ∃ reasons, graph.edges g' !! pair = Some reasons
                ∧ reasons !! Edge.ShortReason edge = Some (Edge.Reason edge)).
Proof.
  intros g pair g' Hs Hd. subst g'. rewrite foldl_app. cbn [foldl].
  set (st1 := foldl addPmapperEdge st pre).
  assert (graph.vertices (GlobalGraph st1) = graph.vertices g) as Hv.
  { subst st1. apply (foldl_invariant (fun s =>
      graph.vertices (GlobalGraph s) = graph.vertices g)); [| done].
    intros s e _ Hs'. by rewrite addPmapperEdge_vertices. }
  assert (∃ reasons, graph.edges (GlobalGraph (addPmapperEdge st1 edge)) !! pair = Some reasons
                     ∧ reasons !! Edge.ShortReason edge = Some (Edge.Reason edge))
    as (r1 & Hr1 & Hc1).
  { rewrite addPmapperEdge_graph. cbn. rewrite Hv.
    rewrite decide_True by done. cbn. fold pair. rewrite lookup_insert_eq.
    eexists. split; [done |]. apply lookup_insert_eq. }
  split.
  - clear Hs Hd Hv. revert Hr1 Hc1. generalize (addPmapperEdge st1 edge). clear st1.
    generalize (Edge.Reason edge). revert r1.
    induction post as [|e post IH]; intros r1 text s Hr1 Hc1; cbn.
    + exists r1. split; [done | by eexists].
    + destruct (decide (same_reason pair (Edge.ShortReason edge) e)) as [[Hp Hc]|Hother].
      * destruct (decide (is_Some (graph.vertices (GlobalGraph s) !! Edge.Source e)
                          ∧ is_Some (graph.vertices (GlobalGraph s) !! Edge.Destination e)))
          as [Hve|Hve].
        -- eapply (IH _ (Edge.Reason e)).
           ++ rewrite addPmapperEdge_graph. cbn. rewrite decide_True by done. cbn.
              rewrite Hp. apply lookup_insert_eq.
           ++ rewrite Hc. apply lookup_insert_eq.
        -- eapply (IH r1 text); [| done].
           rewrite addPmapperEdge_graph. cbn. by rewrite decide_False.
      * destruct (addPmapperEdge_keeps_reason s e pair _ text r1 Hr1 Hc1 Hother)
          as (r2 & Hr2 & Hc2).
        by eapply IH.
  - intros Hpost. by eapply addPmapperEdges_keep_reason.
Qed.

Lemma imported_edge_is_recorded_witness :
  ∃ reasons,
    graph.edges
      (GlobalGraph
         (foldl addPmapperEdge
            (assembleVertices examplePackage exampleFlags
               (final (collect exampleWorld examplePackage exampleFlags ["y"])))
            ([] ++ Edge.mk "arn:aws:iam::222222222222:role/build"
                     "arn:aws:iam::222222222222:role/admin"
                     "iam:PassRole" "can pass the admin role to a new instance"
                :: [Edge.mk "arn:aws:iam::222222222222:role/build"
                      "arn:aws:iam::222222222222:role/admin"
                      "sts:AssumeRole" "can assume the admin role"])))
      !! ("arn:aws:iam::222222222222:role/build", "arn:aws:iam::222222222222:role/admin")
    = Some reasons
    ∧ reasons !! "iam:PassRole" = Some "can pass the admin role to a new instance".
Proof.
  apply (proj2 (imported_edge_is_recorded
    (assembleVertices examplePackage exampleFlags
       (final (collect exampleWorld examplePackage exampleFlags ["y"])))
    []
    (Edge.mk "arn:aws:iam::222222222222:role/build"
       "arn:aws:iam::222222222222:role/admin"
       "iam:PassRole" "can pass the admin role to a new instance")
    [Edge.mk "arn:aws:iam::222222222222:role/build"
       "arn:aws:iam::222222222222:role/admin"
       "sts:AssumeRole" "can assume the admin role"]
    ltac:(vm_compute; eexists; reflexivity)
    ltac:(vm_compute; eexists; reflexivity))).
  repeat constructor. intros [_ Hc]. discriminate Hc.
Defined.

(** X3: the import creates nothing of its own: starting from a graph without
    edges, every edge of the graph after the import joins two vertices, has
    at least one reason, and each of its reasons is the code and the text of
    an edge of the imported list for that pair. *)
Theorem imported_edges_come_from_the_list st edges s d reasons :
  let g' := GlobalGraph (foldl addPmapperEdge st edges) in
  graph.edges (GlobalGraph st) = ∅ →
  graph.edges g' !! (s, d) = Some reasons →
  is_Some (graph.vertices g' !! s) ∧ is_Some (graph.vertices g' !! d)
  ∧ reasons ≠ ∅
  ∧ ∀ code text, reasons !! code = Some text →
      ∃ edge, edge ∈ edges ∧ same_reason (s, d) code edge ∧ Edge.Reason edge = text.
Proof.
  intros g' Hempty Hsd.
  assert (edges_closed (GlobalGraph st)) as Hclosed.
  { intros s' d' [x Hx]. by rewrite Hempty, lookup_empty in Hx. }
  destruct (addPmapperEdges_closed edges st Hclosed) as [Hclosed' _].
  destruct (Hclosed' s d) as [Hs Hd]; [by eexists |].
  split_and!; [done | done | |].
  - revert reasons Hsd. subst g'.
    apply (foldl_invariant (fun st' => ∀ reasons,
      graph.edges (GlobalGraph st') !! (s, d) = Some reasons → reasons ≠ ∅)).
    + intros st' e _ IH reasons. rewrite addPmapperEdge_graph. cbn.
      case_decide; [| apply IH]. cbn.
      destruct (decide ((Edge.Source e, Edge.Destination e) = (s, d))) as [->|Hne].
      * rewrite lookup_insert_eq. intros [= <-]. apply insert_non_empty.
      * rewrite lookup_insert_ne by done. apply IH.
    + intros reasons. by rewrite Hempty, lookup_empty.
  - revert reasons Hsd. subst g'.
    apply (foldl_invariant (fun st' => ∀ reasons,
      graph.edges (GlobalGraph st') !! (s, d) = Some reasons →
      ∀ code text, reasons !! code = Some text →
        ∃ edge, edge ∈ edges ∧ same_reason (s, d) code edge ∧ Edge.Reason edge = text)).
    + intros st' e Hin IH reasons. rewrite addPmapperEdge_graph. cbn.
      case_decide; [| apply IH]. cbn.
      destruct (decide ((Edge.Source e, Edge.Destination e) = (s, d))) as [Heq|Hne].
      * rewrite Heq, lookup_insert_eq. intros [= <-] code text.
        destruct (decide (Edge.ShortReason e = code)) as [<-|Hc].
        -- rewrite lookup_insert_eq. intros [= <-]. by exists e.
        -- rewrite lookup_insert_ne by done.
           destruct (graph.edges (GlobalGraph st') !! (s, d)) as [old|] eqn:Hold; cbn.
           ++ by apply IH.
           ++ by rewrite lookup_empty.
      * rewrite lookup_insert_ne by done. apply IH.
    + intros reasons. by rewrite Hempty, lookup_empty.
Qed.

Lemma imported_edges_come_from_the_list_witness :
  (<["sts:AssumeRole" := "can assume the admin role"]>
     (<["iam:PassRole" := "can pass the admin role to a new instance"]> ∅)
   : gmap string string) ≠ ∅.
Proof.
  refine (proj1 (proj2 (proj2 (imported_edges_come_from_the_list
    (applyIgnoreList exampleWorld exampleFlags
       (assembleVertices examplePackage exampleFlags
          (final (collect exampleWorld examplePackage exampleFlags ["y"]))))
    (Edges devModule)
    "arn:aws:iam::222222222222:role/build" "arn:aws:iam::222222222222:role/admin"
    _ _ _)))).
  - vm_compute. reflexivity.
  - vm_compute. reflexivity.
Defined.

(** ** The shapes of the ledger entries *)

Section Shapes.

Variable w : World.
Variable pkg : CapePackage.
Variable flags : Flags.

Lemma ledger_shaped_insert st st' k job :
  analyzedAccounts st' = <[k := job]> (analyzedAccounts st) →
  entry_shape w flags k job →
  ledger_shaped w flags st → ledger_shaped w flags st'.
Proof.
  intros Heq Hjob Hst k' job' Hk. rewrite Heq in Hk.
  destruct (decide (k = k')) as [<-|Hne].
  - rewrite lookup_insert_eq in Hk. by injection Hk as <-.
  - rewrite lookup_insert_ne in Hk by done. by apply Hst.
Qed.

Lemma ledger_shaped_same st st' :
  analyzedAccounts st' = analyzedAccounts st →
  ledger_shaped w flags st → ledger_shaped w flags st'.
Proof. intros Heq Hst k job Hk. rewrite Heq in Hk. by apply Hst. Qed.

Lemma collect_ledger_shaped input :
  ledger_shaped w flags (final (collect w pkg flags input)).
Proof.
  unfold collect.
  assert (ledger_shaped w flags
            (foldl (registerProfile w flags) (initial input) (AWSProfiles flags))) as H1.
  { apply (foldl_invariant (ledger_shaped w flags)).
    - intros s p Hp Hs. pose proof (registerProfile_ledger w flags s p) as Heq.
      destruct (AWSWhoami w p) as [c|] eqn:Hw; [| by eapply ledger_shaped_same].
      destruct (InitializeCloudFoxRunData w p) eqn:Hi; [| by eapply ledger_shaped_same].
      eapply ledger_shaped_insert; [exact Heq | | done].
      left. exists p, c. split_and!; [done | done | done | by rewrite Hi | done].
    - intros k job Hk. cbn in Hk. by rewrite lookup_empty in Hk. }
  assert (ledger_shaped w flags (final (forRange (importPmapper w flags)
            (foldl (registerProfile w flags) (initial input) (AWSProfiles flags))
            (AWSProfiles flags)))) as H2.
  { apply (forRange_invariant (ledger_shaped w flags)); [| done].
    intros s p Hp Hs. pose proof (importPmapper_ledger w flags s p) as Heq.
    destruct (AWSWhoami w p) as [c|] eqn:Hw; [| by eapply ledger_shaped_same].
    destruct (InitPmapperGraph w c (AWSProfile flags)); [by eapply ledger_shaped_same |].
    eapply ledger_shaped_insert; [exact Heq | | done]. right. by left. }
  destruct (forRange _ _ _) as [st2|code st2]; cbn in *; [| done].
  apply (foldl_invariant (ledger_shaped w flags)); [| done].
  intros s p Hp Hs. pose proof (collectProfile_ledger w pkg s p) as Heq.
  destruct (AWSWhoami w p) as [c|] eqn:Hw; [| by eapply ledger_shaped_same].
  destruct (PermissionsRows w c p); [by eapply ledger_shaped_same |].
  eapply ledger_shaped_insert; [exact Heq | | done]. right. by left.
Qed.

Lemma run_ledger_shaped input :
  ledger_shaped w flags (final (runCapeCommand w pkg flags input)).
Proof.
  unfold runCapeCommand.
  pose proof (collect_ledger_shaped input) as Hc.
  destruct (collect w pkg flags input) as [st|code st]; cbn in *; [| done].
  intros k job Hk. rewrite assemble_ledger in Hk.
  destruct (analyzedAccounts st !! k) as [job0|] eqn:Hst.
  - destruct (insertVertices_ledger flags (MergeNodes pkg (GlobalNodes st))
      (emit (CallMergeNodes (GlobalNodes st)) st) k) as [Hs _].
    cbn in Hs. rewrite (Hs job0 Hst) in Hk. injection Hk as <-. by apply Hc.
  - destruct (insertVertices_ledger flags (MergeNodes pkg (GlobalNodes st))
      (emit (CallMergeNodes (GlobalNodes st)) st) k) as [_ Hn].
    destruct (Hn Hst) as [Hnone | (Hd & Hne & _)]; cbn in *; [congruence |].
    rewrite Hd in Hk. injection Hk as <-. right. right. done.
Qed.

End Shapes.

(** X4: at the end of every run, completed or not, each entry of the ledger
    is of one of three shapes: the entry created for a profile of the list
    that authenticated to that account and whose run data initialised, the
    zeroed entry of an error path, or the entry of a discovered account under
    a non-empty key.  So an entry that reads successful has source [user], its
    own key as account ID and the name of a profile of that account; and the
    account ID of an entry is its key or empty. *)
Theorem ledger_entries_have_three_shapes w pkg flags input k job :
  analyzedAccounts (final (runCapeCommand w pkg flags input)) !! k = Some job →
  entry_shape w flags k job
  ∧ (CapeJobInfo.AnalyzedSuccessfully job = true →
       CapeJobInfo.Source job = "user" ∧ CapeJobInfo.AccountID job = k
       ∧ CapeJobInfo.Profile job ∈ AWSProfiles flags
       ∧ ∃ caller, AWSWhoami w (CapeJobInfo.Profile job) = Some caller
                   ∧ ptr_ToString (Account caller) = k)
  ∧ (CapeJobInfo.AccountID job = k ∨ CapeJobInfo.AccountID job = "").
Proof.
  intros Hk. pose proof (run_ledger_shaped w pkg flags input k job Hk) as Hshape.
  split_and!; [done | |].
  - intros Hok.
    destruct Hshape as [(p & c & Hp & Hw & Ha & _ & ->) | [-> | [-> _]]]; [| done | done].
    cbn. split_and!; [done | done | done |]. by exists c.
  - destruct Hshape as [(p & c & _ & _ & _ & _ & ->) | [-> | [-> _]]];
      [by left | by right | by left].
Qed.

Lemma ledger_entries_have_three_shapes_witness :
  CapeJobInfo.AccountID unsuccessfulJob = "111111111111"
  ∨ CapeJobInfo.AccountID unsuccessfulJob = "".
Proof.
  refine (proj2 (proj2 (ledger_entries_have_three_shapes exampleWorld examplePackage
    exampleFlags ["y"] "111111111111" unsuccessfulJob _))).
  vm_compute. reflexivity.
Defined.

(** ** Profiles that do not authenticate *)

Lemma foldl_filter_skip {A S} (P : A → Prop) `{!∀ x, Decision (P x)}
    (f : S → A → S) (l : list A) :
  (∀ s x, ¬ P x → f s x = s) → ∀ s, foldl f s (filter P l) = foldl f s l.
Proof.
  intros Hskip. induction l as [|x l IH]; intros s; [done |].
  rewrite filter_cons. case_decide as Hx; cbn.
  - apply IH.
  - rewrite (Hskip s x Hx). apply IH.
Qed.

Lemma forRange_filter_skip {A} (P : A → Prop) `{!∀ x, Decision (P x)}
    (body : CapeState → A → Result) (l : list A) :
  (∀ s x, ¬ P x → body s x = Completed s) →
  ∀ s, forRange body s (filter P l) = forRange body s l.
Proof.
  intros Hskip. induction l as [|x l IH]; intros s; [done |].
  rewrite filter_cons. case_decide as Hx; cbn.
  - destruct (body s x); cbn; [apply IH | done].
  - rewrite (Hskip s x Hx). cbn. apply IH.
Qed.

(** X5: a profile for which [AWSWhoami] fails is skipped by each of the three
    profile loops: the run is the run on the profiles that authenticate, in
    the same order, with the same input left for the prompts. *)
Theorem unauthenticated_profiles_are_skipped w pkg flags input :
  runCapeCommand w pkg (withProfiles flags (authenticated w (AWSProfiles flags))) input
    = runCapeCommand w pkg flags input.
Proof.
  unfold runCapeCommand, collect, authenticated. cbn [AWSProfiles withProfiles].
  change (registerProfile w (withProfiles flags _)) with (registerProfile w flags).
  change (importPmapper w (withProfiles flags _)) with (importPmapper w flags).
  rewrite (foldl_filter_skip _ (registerProfile w flags)).
  2:{ intros s p Hp. unfold registerProfile.
      destruct (AWSWhoami w p); [| done]. destruct Hp. by eexists. }
  rewrite (forRange_filter_skip _ (importPmapper w flags)).
  2:{ intros s p Hp. unfold importPmapper.
      destruct (AWSWhoami w p); [| done]. destruct Hp. by eexists. }
  destruct (forRange _ _ _) as [st2|code st2]; cbn; [| done].
  rewrite (foldl_filter_skip _ (collectProfile w pkg)).
  2:{ intros s p Hp. unfold collectProfile.
      destruct (AWSWhoami w p); [| done]. destruct Hp. by eexists. }
  done.
Qed.

(** ** The viewer's loop over a list that it shortens *)

Section ViewerRuns.

Variable w : World.
Variable capeAdminOnly : bool.

Lemma resultFile_Some profile location :
  resultFile w capeAdminOnly profile = Some location ↔
  ∃ out, InitializeCloudFoxRunData w profile = Some out
         ∧ location = capeOutputFileLocation out capeAdminOnly.
Proof.
  unfold resultFile. destruct (InitializeCloudFoxRunData w profile) as [out|]; cbn.
  - split; [intros [= <-]; by exists out | intros (out' & [= <-] & ->); done].
  - split; [done | intros (out' & ? & _); done].
Qed.

(** When no result file exists, iteration [k] of a list of [n] profiles is
    entered with a slice of length [n - k]. *)
Lemma tuiLoop_without_files (profiles : list string) (m : nat) : ∀ k st,
  (∀ p, p ∈ profiles → ∃ out, InitializeCloudFoxRunData w p = Some out
        ∧ FileExists w (capeOutputFileLocation out capeAdminOnly) = false) →
  (∀ p, p ∈ backing st → p ∈ profiles) →
  length (backing st) = length profiles →
  len_AWSProfiles st = (length profiles - k)%nat →
  (k + m = length profiles)%nat → (1 ≤ m)%nat → (2 * k ≤ length profiles + 1)%nat →
  tuiLoop w capeAdminOnly st (seq k m)
    = inr (if decide (length profiles ≤ 3)%nat then TuiExited 1 else TuiPanicked).
Proof.
  induction m as [|m IH]; intros k st Hw Hb Hlen Hl Hkm Hm Hk; [lia |].
  cbn [seq tuiLoop]. unfold tuiProfile.
  destruct (lookup_lt_is_Some_2 (backing st) k) as [p Hp]; [lia |].
  rewrite Hp. destruct (Hw p) as (out & -> & ->).
  { apply Hb. by eapply list_elem_of_lookup_2. }
  rewrite Hl. destruct (decide (1 < length profiles - k)%nat) as [H1|H1].
  - destruct (decide (k + 1 ≤ length profiles - k)%nat) as [H2|H2].
    + apply IH; cbn; try done; try lia.
      * intros q Hin. apply Hb.
        rewrite !elem_of_app in Hin. destruct Hin as [Hin | [Hin | Hin]].
        -- by eapply subseteq_take.
        -- eapply subseteq_take. by eapply subseteq_drop.
        -- by eapply subseteq_drop.
      * rewrite !length_app, !length_drop, !length_take. lia.
    + f_equal. rewrite decide_False by lia. done.
  - f_equal. rewrite decide_True by lia. done.
Qed.

(** While every result file looked for exists the list is left alone: the
    loop adds the result file of each element it reads. *)
Lemma tuiLoop_with_files (indices : list nat) : ∀ st,
  (∀ p location, p ∈ backing st → resultFile w capeAdminOnly p = Some location →
                 FileExists w location = true) →
  (∀ i, i ∈ indices → (i < length (backing st))%nat) →
  tuiLoop w capeAdminOnly st indices
    = inl (mkTui (backing st) (len_AWSProfiles st)
             (capeOutputFileLocations st
                ++ omap (resultFile w capeAdminOnly) (omap (fun i => backing st !! i) indices))).
Proof.
  induction indices as [|i indices IH]; intros st Hfiles Hbound.
  - cbn. rewrite app_nil_r. by destruct st.
  - cbn [tuiLoop omap list_omap]. unfold tuiProfile.
    destruct (lookup_lt_is_Some_2 (backing st) i) as [p Hp].
    { apply Hbound. left. }
    rewrite Hp. cbn [omap list_omap].
    assert (p ∈ backing st) as Hin by by eapply list_elem_of_lookup_2.
    assert (∀ j, j ∈ indices → (j < length (backing st))%nat) as Hbound'.
    { intros j Hj. apply Hbound. by right. }
    destruct (InitializeCloudFoxRunData w p) as [out|] eqn:Hinit.
    + assert (resultFile w capeAdminOnly p
                = Some (capeOutputFileLocation out capeAdminOnly)) as Hres.
      { apply resultFile_Some. by exists out. }
      rewrite Hres, (Hfiles p _ Hin Hres).
      rewrite IH by done. cbn [backing len_AWSProfiles capeOutputFileLocations].
      by rewrite <- app_assoc.
    + assert (resultFile w capeAdminOnly p = None) as Hres.
      { unfold resultFile. by rewrite Hinit. }
      rewrite Hres. by rewrite IH.
Qed.

Lemma tuiLoop_cons st i rest :
  tuiLoop w capeAdminOnly st (i :: rest)
    = match tuiProfile w capeAdminOnly st i with
      | inl st' => tuiLoop w capeAdminOnly st' rest
      | inr r => inr r
      end.
Proof. reflexivity. Qed.

Lemma omap_lookup_seq {A} (l : list A) (m : nat) : ∀ k,
  (k + m ≤ length l)%nat → omap (fun i => l !! i) (seq k m) = take m (drop k l).
Proof.
  induction m as [|m IH]; intros k Hk; [done |].
  cbn [seq omap list_omap].
  destruct (lookup_lt_is_Some_2 l k) as [x Hx]; [lia |].
  rewrite Hx. rewrite (drop_S l x k Hx). cbn. f_equal. apply IH. lia.
Qed.

End ViewerRuns.

(** X6: when the run data of every profile initialises and none of the result
    files exists, the viewer never reaches the interface: with at most three
    profiles it exits with status 1, and with four or more the slice
    expression [AWSProfiles[i+1:]] of line 1341 is evaluated with [i + 1]
    beyond the length of the shortened list, which panics. *)
Theorem viewer_without_files_exits_or_panics w (capeAdminOnly : bool) (profiles : list string) :
  (∀ p, p ∈ profiles → ∃ out, InitializeCloudFoxRunData w p = Some out
        ∧ FileExists w (capeOutputFileLocation out capeAdminOnly) = false) →
  runCapeTUICommand w capeAdminOnly profiles
    = if decide (length profiles ≤ 3)%nat then TuiExited 1 else TuiPanicked.
Proof.
  intros Hw. unfold runCapeTUICommand.
  destruct profiles as [|p profiles]; [done |].
  rewrite (tuiLoop_without_files w capeAdminOnly (p :: profiles)); cbn; try done; lia.
Qed.

Lemma viewer_without_files_exits_or_panics_witness :
  runCapeTUICommand exampleWorldWithoutFiles true ["prod"; "dev"; "test"; "stage"]
    = TuiPanicked.
Proof.
  apply (viewer_without_files_exits_or_panics exampleWorldWithoutFiles true
           ["prod"; "dev"; "test"; "stage"]).
  intros p _. eexists. split; reflexivity.
Defined.

(** X7: when the result file of every profile whose run data initialises
    exists, the viewer hands the interface those files in the order of the
    profiles, skipping the profiles whose run data does not initialise; when
    there is no such profile it exits with status 1. *)
Theorem viewer_with_all_files w (capeAdminOnly : bool) (profiles : list string) :
  (∀ p location, p ∈ profiles → resultFile w capeAdminOnly p = Some location →
                 FileExists w location = true) →
  runCapeTUICommand w capeAdminOnly profiles
    = match omap (resultFile w capeAdminOnly) profiles with
      | [] => TuiExited 1
      | locations => CapeTUI locations
      end.
Proof.
  intros Hfiles. unfold runCapeTUICommand.
  rewrite tuiLoop_with_files; cbn [backing capeOutputFileLocations]; [| done |].
  - rewrite omap_lookup_seq by done. rewrite drop_0, firstn_all. cbn.
    destruct (omap _ profiles); done.
  - intros i Hi. apply elem_of_seq in Hi. lia.
Qed.

Lemma viewer_with_all_files_witness :
  runCapeTUICommand exampleWorld true ["prod"; "dev"]
    = CapeTUI ["cloudfox-output/aws/prod/json/inbound-privesc-paths-admin-targets-only.json";
               "cloudfox-output/aws/dev/json/inbound-privesc-paths-admin-targets-only.json"].
Proof.
  apply (viewer_with_all_files exampleWorld true ["prod"; "dev"]).
  intros p location _ _. reflexivity.
Defined.



(** ** What the ignore-list leaves alone *)

Section IgnoreList.

Variable w : World.
Variable pkg : CapePackage.
Variable flags : Flags.

Lemma insertVertex_registers_account st node :
  Node.VendorName node = "" → Node.AccountID node ≠ "" →
  is_Some (analyzedAccounts (insertVertex flags st node) !! Node.AccountID node).
Proof.
  intros Hvendor Haccount. unfold insertVertex. cbn.
  destruct (analyzedAccounts st !! Node.AccountID node) as [job|] eqn:Hjob.
  - cbn. rewrite Hjob. by eexists.
  - rewrite decide_True by done. rewrite decide_True by done. cbn.
    rewrite lookup_insert_eq. by eexists.
Qed.

Lemma insertVertex_keeps_account st node k :
  is_Some (analyzedAccounts st !! k) →
  is_Some (analyzedAccounts (insertVertex flags st node) !! k).
Proof.
  intros [job Hjob].
  destruct (insertVertices_ledger flags [node] st k) as [Hkeep _].
  exists job. by apply Hkeep.
Qed.

Lemma insertVertices_register_accounts nodes node : ∀ st,
  node ∈ nodes → Node.VendorName node = "" → Node.AccountID node ≠ "" →
  is_Some (analyzedAccounts (foldl (insertVertex flags) st nodes) !! Node.AccountID node).
Proof.
  intros st Hin Hvendor Haccount.
  apply (foldl_establishes
           (fun s => is_Some (analyzedAccounts s !! Node.AccountID node))
           (insertVertex flags) nodes node Hin).
  - intros s. by apply insertVertex_registers_account.
  - intros s y Hs. by apply insertVertex_keeps_account.
Qed.

End IgnoreList.

(** X9: the ignore-list removes vertices and nothing else.  The ledger at the
    end of the assembly is the ledger after the vertex loop, so the account
    of an ignored node of an unknown account is still entered in it; and
    [MakeRoleEdges] is still called for every merged node of type [Role],
    ignored or not, because the last loop ranges over the merged list and
    not over the vertices of the graph. *)
Theorem ignore_list_removes_vertices_only w pkg flags st node :
  node ∈ MergeNodes pkg (GlobalNodes st) →
  let st' := assemble w pkg flags st in
  analyzedAccounts st' = analyzedAccounts (assembleVertices pkg flags st)
  ∧ GlobalNodes st' = GlobalNodes st
  ∧ (Node.VendorName node = "" → Node.AccountID node ≠ "" →
       is_Some (analyzedAccounts st' !! Node.AccountID node))
  ∧ (Node.Type' node = "Role" → CallMakeRoleEdges node ∈ log st').
Proof.
  intros Hin. cbn. split_and!.
  - apply assemble_ledger.
  - apply assemble_GlobalNodes.
  - intros Hvendor Haccount. rewrite assemble_ledger.
    by apply insertVertices_register_accounts.
  - intros Hrole. destruct (assemble_log w pkg flags st) as (edgeCalls & -> & _).
    rewrite !elem_of_app. do 5 right.
    apply list_elem_of_fmap. exists node. split; [done |].
    unfold roleNodes. apply list_elem_of_filter. done.
Qed.

Lemma ignore_list_removes_vertices_only_witness :
  CallMakeRoleEdges adminRole
    ∈ log (assemble exampleWorld examplePackage exampleFlagsIgnoring
             (final (collect exampleWorld examplePackage exampleFlagsIgnoring ["y"]))).
Proof.
  refine (proj2 (proj2 (proj2 (ignore_list_removes_vertices_only exampleWorld examplePackage
    exampleFlagsIgnoring
    (final (collect exampleWorld examplePackage exampleFlagsIgnoring ["y"]))
    adminRole _))) _).
  - vm_compute. repeat first [left | right].
  - reflexivity.
Defined.

(** ** Where the collected nodes come from *)

Section Collected.

Variable w : World.
Variable pkg : CapePackage.
Variable flags : Flags.

Lemma appendRoles_sound (P : Node.t → Prop) roles st :
  (∀ node, node ∈ GlobalNodes st → P node) →
  (∀ role, role ∈ roles →
     let node := ConvertIAMRoleToNode pkg role (vendors w) (analyzedAccounts st) in
     P node ∧ ∀ v, v ∈ FindVerticesInRoleTrust pkg node (vendors w) → P v) →
  ∀ node, node ∈ GlobalNodes (foldl (appendRole w pkg) st roles) → P node.
Proof.
  intros Hst Hroles.
  apply (foldl_invariant
           (fun s => analyzedAccounts s = analyzedAccounts st
                     ∧ ∀ node, node ∈ GlobalNodes s → P node)
           (appendRole w pkg) roles); [| done].
  intros s role Hrole [Hledger Hs]. split; [done |].
  intros node Hin. unfold appendRole in Hin. cbn in Hin.
  destruct (Hroles role Hrole) as [Hnode Htrust]. rewrite <- Hledger in Hnode, Htrust.
  rewrite !elem_of_app in Hin. destruct Hin as [[Hin | Hin] | Hin].
  - by apply Hs.
  - by apply list_elem_of_singleton in Hin as ->.
  - by apply Htrust.
Qed.

Lemma appendUsers_sound (P : Node.t → Prop) users st :
  (∀ node, node ∈ GlobalNodes st → P node) →
  (∀ user, user ∈ users → P (ConvertIAMUserToNode pkg user)) →
  ∀ node, node ∈ GlobalNodes (foldl (appendUser pkg) st users) → P node.
Proof.
  intros Hst Husers.
  apply (foldl_invariant (fun s => ∀ node, node ∈ GlobalNodes s → P node)
           (appendUser pkg) users); [| done].
  intros s user Huser Hs node Hin. unfold appendUser in Hin. cbn in Hin.
  apply elem_of_app in Hin as [Hin | Hin]; [by apply Hs |].
  apply list_elem_of_singleton in Hin as ->. by apply Husers.
Qed.

Lemma appendRoles_complete roles : ∀ st role,
  role ∈ roles →
  let node := ConvertIAMRoleToNode pkg role (vendors w) (analyzedAccounts st) in
  let st' := foldl (appendRole w pkg) st roles in
  node ∈ GlobalNodes st'
  ∧ ∀ v, v ∈ FindVerticesInRoleTrust pkg node (vendors w) → v ∈ GlobalNodes st'.
Proof.
  induction roles as [|r roles IH]; intros st role Hin; [by apply elem_of_nil in Hin |].
  cbn [foldl]. apply elem_of_cons in Hin as [-> | Hin].
  - destruct (appendRoles_grow w pkg roles (appendRole w pkg st r)) as [extra ->].
    unfold appendRole. cbn. split.
    + rewrite !elem_of_app. left. left. right. left.
    + intros v Hv. rewrite !elem_of_app. left. by right.
  - apply (IH (appendRole w pkg st r) role Hin).
Qed.

Lemma appendUsers_complete users : ∀ st user,
  user ∈ users →
  ConvertIAMUserToNode pkg user ∈ GlobalNodes (foldl (appendUser pkg) st users).
Proof.
  induction users as [|u users IH]; intros st user Hin; [by apply elem_of_nil in Hin |].
  cbn [foldl]. apply elem_of_cons in Hin as [-> | Hin]; [| by apply IH].
  destruct (appendUsers_grow pkg users (appendUser pkg st u)) as [extra ->].
  unfold appendUser. cbn. rewrite !elem_of_app. left. right. left.
Qed.

Lemma collectProfile_sound st profile :
  profile ∈ AWSProfiles flags →
  modules_imported w flags st →
  (∀ node, node ∈ GlobalNodes st → collected_source w pkg flags node) →
  ∀ node, node ∈ GlobalNodes (collectProfile w pkg st profile) →
          collected_source w pkg flags node.
Proof.
  intros Hprofile Hmodules Hst. unfold collectProfile.
  destruct (AWSWhoami w profile) as [caller|] eqn:Hwho; [| done].
  apply appendUsers_sound.
  2:{ intros user Huser. right. right. by exists profile, caller, user. }
  apply appendRoles_sound.
  2:{ intros role Hrole. cbn. split.
      - right. left. eexists profile, caller, role, _. split_and!; [done.. |]. by left.
      - intros v Hv. right. left. eexists profile, caller, role, _.
        split_and!; [done.. |]. by right. }
  intros node Hin. cbn in Hin.
  apply elem_of_app in Hin as [Hin | Hin].
  - apply Hst. by destruct (PermissionsRows w caller profile).
  - assert (pmapperData
              match PermissionsRows w caller profile with
              | Some rows => append_PermissionRows rows st
              | None => set_analyzedAccounts
                          <[ptr_ToString (Account caller) := unsuccessfulJob]> st
              end = pmapperData st) as Hdata
      by by destruct (PermissionsRows w caller profile).
    rewrite Hdata in Hin.
    destruct (pmapperData st !! profile) as [pmapperMod|] eqn:Hmod; cbn in Hin.
    + destruct (Hmodules profile pmapperMod Hmod) as (_ & caller' & Hwho' & Hinit).
      left. exists profile, caller', pmapperMod. done.
    + by apply elem_of_nil in Hin.
Qed.

Lemma importPmappers_modules_imported profiles st :
  (∀ p, p ∈ profiles → p ∈ AWSProfiles flags) →
  modules_imported w flags st →
  modules_imported w flags (final (forRange (importPmapper w flags) st profiles)).
Proof.
  intros Hsub. apply (forRange_invariant (modules_imported w flags)).
  intros s p Hp Hs profile pmapperMod Hlook.
  rewrite importPmapper_pmapperData in Hlook.
  destruct (AWSWhoami w p) as [caller|] eqn:Hwho; [| by apply Hs].
  destruct (InitPmapperGraph w caller (AWSProfile flags)) as [m|] eqn:Hinit; [| by apply Hs].
  destruct (decide (p = profile)) as [<- | Hne].
  - rewrite lookup_insert_eq in Hlook. injection Hlook as <-.
    split; [by apply Hsub |]. by exists caller.
  - rewrite lookup_insert_ne in Hlook by done. by apply Hs.
Qed.

Lemma collectProfiles_sound profiles st :
  (∀ p, p ∈ profiles → p ∈ AWSProfiles flags) →
  modules_imported w flags st →
  (∀ node, node ∈ GlobalNodes st → collected_source w pkg flags node) →
  ∀ node, node ∈ GlobalNodes (foldl (collectProfile w pkg) st profiles) →
          collected_source w pkg flags node.
Proof.
  intros Hsub Hmodules Hst.
  apply (foldl_invariant
           (fun s => modules_imported w flags s
                     ∧ ∀ node, node ∈ GlobalNodes s → collected_source w pkg flags node)
           (collectProfile w pkg) profiles); [| done].
  intros s p Hp [Hm Hs]. split.
  - intros profile pmapperMod Hlook.
    destruct (collectProfile_frame w pkg s p) as (Hdata & _).
    rewrite Hdata in Hlook. by apply Hm.
  - apply collectProfile_sound; [by apply Hsub | done | done].
Qed.

Lemma collectProfile_complete st profile caller :
  AWSWhoami w profile = Some caller →
  let st' := collectProfile w pkg st profile in
  (∀ role, role ∈ CachedIamListRoles w profile (ptr_ToString (Account caller)) →
     ∃ ledger,
       let node := ConvertIAMRoleToNode pkg role (vendors w) ledger in
       node ∈ GlobalNodes st'
       ∧ ∀ v, v ∈ FindVerticesInRoleTrust pkg node (vendors w) → v ∈ GlobalNodes st')
  ∧ (∀ user, user ∈ CachedIamListUsers w profile (ptr_ToString (Account caller)) →
       ConvertIAMUserToNode pkg user ∈ GlobalNodes st').
Proof.
  intros Hwho. cbn. unfold collectProfile. rewrite Hwho. split.
  - intros role Hrole.
    match goal with |- context [foldl (appendUser pkg) ?s ?us] =>
      destruct (appendUsers_grow pkg us s) as [extra Hgrow] end.
    match type of Hgrow with context [foldl (appendRole w pkg) ?s ?rs] =>
      destruct (appendRoles_complete rs s role Hrole) as [Hnode Htrust];
      exists (analyzedAccounts s) end.
    cbn. rewrite Hgrow. split.
    + apply elem_of_app. by left.
    + intros v Hv. apply elem_of_app. left. by apply Htrust.
  - intros user Huser. by apply appendUsers_complete.
Qed.

End Collected.

(** X10: the nodes a completed collection hands to the merge are exactly what
    the profiles yield.  Every collected node comes from the escalation data
    imported for a listed profile, from a role listed for a profile that
    authenticates (the role itself or a vertex of its trust policy) or from
    a user listed for such a profile; and every such role, each vertex of its
    trust policy and every such user is among the collected nodes, whether or
    not the permissions of the profile could be gathered. *)
Theorem collected_nodes_are_what_the_profiles_yield w pkg flags input st :
  collect w pkg flags input = Completed st →
  (∀ node, node ∈ GlobalNodes st → collected_source w pkg flags node)
  ∧ (∀ profile caller,
       profile ∈ AWSProfiles flags → AWSWhoami w profile = Some caller →
       (∀ role, role ∈ CachedIamListRoles w profile (ptr_ToString (Account caller)) →
          ∃ ledger,
            let node := ConvertIAMRoleToNode pkg role (vendors w) ledger in
            node ∈ GlobalNodes st
            ∧ ∀ v, v ∈ FindVerticesInRoleTrust pkg node (vendors w) → v ∈ GlobalNodes st)
       ∧ (∀ user, user ∈ CachedIamListUsers w profile (ptr_ToString (Account caller)) →
            ConvertIAMUserToNode pkg user ∈ GlobalNodes st)).
Proof.
  unfold collect. intros Hrun.
  pose proof (importPmappers_modules_imported w flags (AWSProfiles flags)
                (foldl (registerProfile w flags) (initial input) (AWSProfiles flags))
                (fun p Hp => Hp)) as Hmodules.
  pose proof (importPmappers_frame w flags (AWSProfiles flags)
                (foldl (registerProfile w flags) (initial input) (AWSProfiles flags)))
    as (Hnodes & _).
  destruct (registerProfiles_frame w flags (AWSProfiles flags) (initial input))
    as (Hdata0 & Hnodes0 & _).
  destruct (forRange _ _ _) as [st2|code st2]; cbn in *; [| done].
  injection Hrun as <-. split.
  - apply collectProfiles_sound; [done | |].
    + apply Hmodules. intros profile pmapperMod Hlook.
      rewrite Hdata0 in Hlook. cbn in Hlook. by rewrite lookup_empty in Hlook.
    + intros node Hin. rewrite Hnodes, Hnodes0 in Hin. cbn in Hin.
      by apply elem_of_nil in Hin.
  - intros profile caller Hprofile Hwho.
    apply list_elem_of_split in Hprofile as (before & after & Hsplit).
    rewrite Hsplit, foldl_app. cbn [foldl].
    destruct (collectProfile_complete w pkg
                (foldl (collectProfile w pkg) st2 before) profile caller Hwho)
      as [Hroles Husers].
    assert (∀ node,
              node ∈ GlobalNodes
                       (collectProfile w pkg (foldl (collectProfile w pkg) st2 before) profile) →
              node ∈ GlobalNodes
                       (foldl (collectProfile w pkg)
                          (collectProfile w pkg (foldl (collectProfile w pkg) st2 before)
                             profile) after)) as Hkeep.
    { clear Hsplit. intros node. generalize (collectProfile w pkg
        (foldl (collectProfile w pkg) st2 before) profile).
      induction after as [|p after IH]; intros s Hin; [done |].
      cbn [foldl]. apply IH.
      destruct (collectProfile_grows w pkg s p) as [[extra ->] _].
      apply elem_of_app. by left. }
    split.
    + intros role Hrole. destruct (Hroles role Hrole) as (ledger & Hnode & Htrust).
      exists ledger. split; [by apply Hkeep |]. intros v Hv. by apply Hkeep, Htrust.
    + intros user Huser. by apply Hkeep, Husers.
Qed.

Lemma collected_nodes_are_what_the_profiles_yield_witness :
  collected_source exampleWorld examplePackage exampleFlags adminRole.
Proof.
  refine (proj1 (collected_nodes_are_what_the_profiles_yield exampleWorld examplePackage
    exampleFlags ["y"]
    (final (collect exampleWorld examplePackage exampleFlags ["y"])) _) adminRole _).
  - vm_compute. reflexivity.
  - vm_compute. repeat first [left | right].
Defined.

(** * The ECS task inventory *)

(** ** Names and identifiers cut out of ARNs *)

Lemma cut_None sep s : cut sep s = None ↔ occurrences sep s = 0%nat.
Proof.
  induction s as [|c s IH]; cbn; [done |].
  case_decide as Hc; [split; [done | lia] |].
  destruct (cut sep s) as [[before after]|]; cbn.
  - split; [done |]. intros H. by apply IH in H.
  - split; [| done]. intros _. by apply IH.
Qed.

Lemma cut_Some sep s before after :
  cut sep s = Some (before, after) →
  s = before +:+ String sep after
  ∧ occurrences sep before = 0%nat
  ∧ occurrences sep s = S (occurrences sep after).
Proof.
  revert before. induction s as [|c s IH]; intros before Hcut; cbn in Hcut; [done |].
  case_decide as Hc.
  - injection Hcut as <- <-. subst c. cbn. rewrite decide_True by done. done.
  - destruct (cut sep s) as [[b a]|] eqn:Hs; [| done].
    injection Hcut as <- <-. destruct (IH b eq_refl) as (-> & Hb & Hocc).
    cbn. rewrite !decide_False by done. cbn. split_and!; [done | done |].
    cbn in Hocc. done.
Qed.

Lemma cut_is_Some sep s :
  (0 < occurrences sep s)%nat → ∃ before after, cut sep s = Some (before, after).
Proof.
  intros Hocc. destruct (cut sep s) as [[before after]|] eqn:Hcut; [by eauto |].
  apply cut_None in Hcut. lia.
Qed.

Lemma getNameFromARN_cut arn :
  getNameFromARN arn
    = match cut "/" arn with Some (_, after) => after | None => arn end.
Proof.
  unfold getNameFromARN. cbn [strings_SplitN].
  destruct (cut "/" arn) as [[before after]|]; reflexivity.
Qed.

Lemma getIDFromECSTask_cut arn :
  getIDFromECSTask arn
    = match cut "/" arn with
      | Some (_, after) =>
          match cut "/" after with Some (_, rest) => rest | None => arn end
      | None => arn
      end.
Proof.
  unfold getIDFromECSTask. cbn [strings_SplitN].
  destruct (cut "/" arn) as [[before after]|]; [| reflexivity].
  destruct (cut "/" after) as [[middle rest]|]; reflexivity.
Qed.

(** X11: [getNameFromARN] returns what follows the first slash of the ARN,
    and the whole ARN when it has no slash: the name of a cluster, or the
    family and revision of a task definition. *)
Theorem getNameFromARN_is_the_part_after_the_first_slash (arn : string) :
  (occurrences "/" arn = 0%nat → getNameFromARN arn = arn)
  ∧ ((0 < occurrences "/" arn)%nat →
       ∃ prefix, occurrences "/" prefix = 0%nat
                 ∧ arn = prefix +:+ "/" +:+ getNameFromARN arn
                 ∧ occurrences "/" arn = S (occurrences "/" (getNameFromARN arn))).
Proof.
  rewrite getNameFromARN_cut. split.
  - intros Hocc. apply cut_None in Hocc. by rewrite Hocc.
  - intros Hocc. destruct (cut_is_Some _ _ Hocc) as (before & after & Hcut).
    rewrite Hcut. destruct (cut_Some _ _ _ _ Hcut) as (Harn & Hbefore & Hcount).
    exists before. done.
Qed.

(** X12: [getIDFromECSTask] needs two slashes.  From an ARN with at least
    two, as in [task/cluster/id], it returns what follows the second slash,
    which is [getNameFromARN] applied twice; an ARN with fewer, as in the
    older [task/id], is returned whole. *)
Theorem getIDFromECSTask_needs_two_slashes (arn : string) :
  ((occurrences "/" arn < 2)%nat → getIDFromECSTask arn = arn)
  ∧ ((2 ≤ occurrences "/" arn)%nat →
       getIDFromECSTask arn = getNameFromARN (getNameFromARN arn)
       ∧ ∃ prefix middle,
           occurrences "/" prefix = 0%nat ∧ occurrences "/" middle = 0%nat
           ∧ arn = prefix +:+ "/" +:+ middle +:+ "/" +:+ getIDFromECSTask arn).
Proof.
  rewrite !getIDFromECSTask_cut, !getNameFromARN_cut.
  destruct (cut "/" arn) as [[before after]|] eqn:Hcut.
  - destruct (cut_Some _ _ _ _ Hcut) as (Harn & Hbefore & Hcount).
    cbn [fst snd].
    destruct (cut "/" after) as [[middle rest]|] eqn:Hcut2.
    + destruct (cut_Some _ _ _ _ Hcut2) as (Hafter & Hmiddle & Hcount2).
      split; [lia |]. intros _. split; [done |].
      exists before, middle. split_and!; [done | done |].
      by rewrite Harn, Hafter.
    + apply cut_None in Hcut2. split; [done | lia].
  - apply cut_None in Hcut. split; [done | lia].
Qed.

(** ** The work of one region *)

Section ECSRegion.

Variable sdk : ECSClient.
Variable account : string.

Lemma describedBatches_app cs cs' :
  describedBatches (cs ++ cs') = describedBatches cs ++ describedBatches cs'.
Proof. unfold describedBatches. apply omap_app. Qed.

Lemma describedDefinitions_app cs cs' :
  describedDefinitions (cs ++ cs') = describedDefinitions cs ++ describedDefinitions cs'.
Proof. unfold describedDefinitions. apply omap_app. Qed.

Lemma loadPublicIPs_frame st eniIDs region :
  let st' := (loadPublicIPs sdk account st eniIDs region).2 in
  MappedECSTasks st' = MappedECSTasks st
  ∧ CommandCounter_Error st' = CommandCounter_Error st
  ∧ calls st' = calls st
                ++ (if decide (length eniIDs = 0%nat) then []
                    else [CallDescribeNetworkInterfaces region]).
Proof.
  cbn. unfold loadPublicIPs. case_decide; cbn; [by rewrite app_nil_r |].
  by destruct (CachedEC2DescribeNetworkInterfaces sdk account region).
Qed.

(** The loop over the described tasks: the tasks sent are those of the
    longest prefix whose definitions can be described. *)
Lemma sendTasks_prefix clusterARN region publicIPs good : ∀ definitions remaining st,
  Forall2 (fun task taskDefinition =>
             CachedECSDescribeTaskDefinition sdk account region
               (ptr_ToString (Task.TaskDefinitionArn task)) = Some taskDefinition)
    good definitions →
  match remaining with
  | [] => True
  | task :: _ =>
      CachedECSDescribeTaskDefinition sdk account region
        (ptr_ToString (Task.TaskDefinitionArn task)) = None
  end →
  let st' := sendTasks sdk account st clusterARN region publicIPs (good ++ remaining) in
  MappedECSTasks st'
    = MappedECSTasks st ++ zip_with (mappedTask sdk clusterARN publicIPs) good definitions
  ∧ CommandCounter_Error st'
    = (CommandCounter_Error st + match remaining with [] => 0 | _ => 1 end)%nat
  ∧ calls st'
    = calls st
      ++ (CallDescribeTaskDefinition region
            <$> ((fun task => ptr_ToString (Task.TaskDefinitionArn task))
                   <$> (good ++ take 1 remaining))).
Proof.
  induction good as [|task good IH]; intros definitions remaining st Hgood Hrest.
  - apply Forall2_nil_inv_l in Hgood as ->. cbn [app zip_with].
    destruct remaining as [|bad rest]; cbn.
    + rewrite !app_nil_r. split_and!; [done | lia | done].
    + rewrite Hrest. cbn. rewrite app_nil_r. split_and!; [done | lia | done].
  - apply Forall2_cons_inv_l in Hgood as (taskDefinition & definitions' & Hdef & Hgood & ->).
    cbn [app sendTasks zip_with]. rewrite Hdef.
    destruct (IH definitions' remaining
                (ecs_send (mappedTask sdk clusterARN publicIPs task taskDefinition)
                   (ecs_call (CallDescribeTaskDefinition region
                                (ptr_ToString (Task.TaskDefinitionArn task))) st))
                Hgood Hrest) as (-> & -> & ->).
    cbn. rewrite <- !app_assoc. done.
Qed.

Lemma sendTasks_frame clusterARN region publicIPs Tasks : ∀ st,
  let st' := sendTasks sdk account st clusterARN region publicIPs Tasks in
  (∃ sent, MappedECSTasks st' = MappedECSTasks st ++ sent
           ∧ Forall (fun task => MappedECSTask.Cluster task = getNameFromARN clusterARN
                                 ∧ MappedECSTask.Admin task = ""
                                 ∧ MappedECSTask.CanPrivEsc task = "") sent)
  ∧ (CommandCounter_Error st ≤ CommandCounter_Error st')%nat
  ∧ describedBatches (calls st') = describedBatches (calls st).
Proof.
  induction Tasks as [|task Tasks IH]; intros st; cbn.
  - split_and!; [| done | done]. exists []. by rewrite app_nil_r.
  - destruct (CachedECSDescribeTaskDefinition sdk account region _) as [taskDefinition|]; cbn.
    + destruct (IH (ecs_send (mappedTask sdk clusterARN publicIPs task taskDefinition)
                      (ecs_call (CallDescribeTaskDefinition region
                                   (ptr_ToString (Task.TaskDefinitionArn task))) st)))
        as ((sent & -> & Hsent) & Herr & ->).
      cbn. split_and!; [| done |].
      * exists (mappedTask sdk clusterARN publicIPs task taskDefinition :: sent).
        rewrite <- app_assoc. split; [done |]. by constructor.
      * rewrite describedBatches_app. cbn. by rewrite app_nil_r.
    + split_and!; [| lia |].
      * exists []. by rewrite app_nil_r.
      * rewrite describedBatches_app. cbn. by rewrite app_nil_r.
Qed.

Lemma loadTasksData_frame st clusterARN taskARNs region :
  let st' := loadTasksData sdk account st clusterARN taskARNs region in
  (∃ sent, MappedECSTasks st' = MappedECSTasks st ++ sent
           ∧ Forall (fun task => MappedECSTask.Cluster task = getNameFromARN clusterARN
                                 ∧ MappedECSTask.Admin task = ""
                                 ∧ MappedECSTask.CanPrivEsc task = "") sent)
  ∧ (CommandCounter_Error st ≤ CommandCounter_Error st')%nat
  ∧ describedBatches (calls st')
    = describedBatches (calls st) ++ (if decide (taskARNs = []) then [] else [taskARNs]).
Proof.
  cbn. unfold loadTasksData.
  destruct taskARNs as [|arn taskARNs]; cbn [length].
  { rewrite decide_True by done. rewrite decide_True by done. rewrite app_nil_r.
    split_and!; [| done | done]. exists []. by rewrite app_nil_r. }
  rewrite decide_False by done. rewrite (decide_False (P := _ = [])) by done.
  remember (ecs_call (CallDescribeTasks region clusterARN (arn :: taskARNs)) st)
    as st1 eqn:Est1.
  assert (MappedECSTasks st1 = MappedECSTasks st
          ∧ CommandCounter_Error st1 = CommandCounter_Error st
          ∧ describedBatches (calls st1)
            = describedBatches (calls st) ++ [arn :: taskARNs]) as (Ht1 & He1 & Hst1).
  { subst st1. cbn. by rewrite describedBatches_app. }
  clear Est1.
  destruct (CachedECSDescribeTasks sdk account region clusterARN (arn :: taskARNs))
    as [Tasks|].
  - destruct (loadPublicIPs_frame st1 (eniIDsOf Tasks) region) as (Htasks & Herr & Hcalls).
    destruct (loadPublicIPs sdk account st1 (eniIDsOf Tasks) region) as [[publicIPs|] st2];
      cbn [fst snd] in Htasks, Herr, Hcalls.
    + destruct (sendTasks_frame clusterARN region publicIPs Tasks st2)
        as ((sent & -> & Hsent) & Hle & ->).
      rewrite Htasks, Hcalls, describedBatches_app, Hst1, Ht1. split_and!.
      * by exists sent.
      * rewrite Herr, He1 in Hle. done.
      * case_decide; cbn; by rewrite app_nil_r.
    + cbn [ecs_error MappedECSTasks CommandCounter_Error calls].
      rewrite Htasks, Herr, Hcalls, describedBatches_app, Hst1, Ht1, He1. split_and!.
      * exists []. by rewrite app_nil_r.
      * lia.
      * case_decide; cbn; by rewrite app_nil_r.
  - cbn [ecs_error MappedECSTasks CommandCounter_Error calls].
    rewrite Ht1, He1, Hst1. split_and!; [| lia | done]. exists []. by rewrite app_nil_r.
Qed.

Lemma batchLoop_batches clusterARN region TaskArns i st :
  let st' := batchLoop sdk account clusterARN region TaskArns i st in
  (∃ sent, MappedECSTasks st' = MappedECSTasks st ++ sent
           ∧ Forall (fun task => MappedECSTask.Cluster task = getNameFromARN clusterARN
                                 ∧ MappedECSTask.Admin task = ""
                                 ∧ MappedECSTask.CanPrivEsc task = "") sent)
  ∧ (CommandCounter_Error st ≤ CommandCounter_Error st')%nat
  ∧ ∃ batches,
      describedBatches (calls st') = describedBatches (calls st) ++ batches
      ∧ concat batches = drop i TaskArns
      ∧ Forall (fun batch => (1 ≤ length batch ≤ batchSize)%nat) batches
      ∧ (∀ k batch, batches !! k = Some batch → (S k < length batches)%nat →
                    length batch = batchSize).
Proof.
  cbn. funelim (batchLoop sdk account clusterARN region TaskArns i st).
  - set (j := if decide (length TaskArns < i + batchSize)%nat then length TaskArns
              else (i + batchSize)%nat) in *.
    set (batch := take (j - i) (drop i TaskArns)) in *.
    assert (1 ≤ length batch ≤ batchSize ∧ (j - i = batchSize ∨ j = length TaskArns))%nat
      as [Hlen Hj].
    { unfold batch, j. rewrite length_take, length_drop. unfold batchSize in *.
      destruct (decide (length TaskArns < i + 100)%nat); lia. }
    assert (batch ≠ []) as Hne by (intros Hnil; rewrite Hnil in Hlen; cbn in Hlen; lia).
    destruct (loadTasksData_frame st clusterARN batch region)
      as ((sent1 & Hsent1 & Hall1) & Herr1 & Hb1).
    rewrite decide_False in Hb1 by done.
    destruct H as ((sent2 & -> & Hall2) & Herr2 & (batches & -> & Hconcat & Hall & Hfull)).
    rewrite Hsent1, Hb1. split_and!.
    + exists (sent1 ++ sent2). rewrite app_assoc. split; [done |]. by apply Forall_app.
    + lia.
    + exists (batch :: batches). rewrite <- app_assoc. split_and!; [done | | |].
      * cbn [concat]. rewrite Hconcat. unfold batch.
        destruct Hj as [Hj | Hj].
        -- rewrite Hj. rewrite <- (drop_drop TaskArns batchSize i).
           apply take_drop.
        -- rewrite (drop_ge TaskArns (i + batchSize)).
           2:{ unfold j in Hj. case_decide; lia. }
           rewrite app_nil_r. apply take_ge. rewrite length_drop. lia.
      * by constructor.
      * intros k b Hk Hlast. destruct k as [|k]; cbn in Hk.
        -- injection Hk as <-. cbn in Hlast.
           destruct batches as [|b' batches']; [cbn in Hlast; lia |].
           apply Forall_cons in Hall as [Hb' _].
           assert (length (drop (i + batchSize) TaskArns) ≠ 0)%nat as Hrest.
           { rewrite <- Hconcat. cbn. rewrite length_app. lia. }
           rewrite length_drop in Hrest.
           unfold batch, j. rewrite length_take, length_drop.
           rewrite decide_False by lia. lia.
        -- apply (Hfull k b Hk). cbn in Hlast. lia.
  - split_and!; [| done |].
    + exists []. by rewrite app_nil_r.
    + exists []. rewrite app_nil_r. split_and!; [done | | done |].
      * cbn. symmetry. apply drop_ge. lia.
      * intros k b Hk. done.
Qed.

Lemma getListTasks_frame st clusterARN region :
  let st' := getListTasks sdk account st clusterARN region in
  (∃ sent, MappedECSTasks st' = MappedECSTasks st ++ sent
           ∧ Forall (fun task => MappedECSTask.Cluster task = getNameFromARN clusterARN
                                 ∧ MappedECSTask.Admin task = ""
                                 ∧ MappedECSTask.CanPrivEsc task = "") sent)
  ∧ (CommandCounter_Error st ≤ CommandCounter_Error st')%nat.
Proof.
  cbn. unfold getListTasks.
  destruct (CachedECSListTasks sdk account region clusterARN) as [TaskArns|].
  - destruct (batchLoop_batches clusterARN region TaskArns 0
                (ecs_call (CallListTasks region clusterARN) st)) as (Hsent & Herr & _).
    done.
  - cbn. split; [| lia]. exists []. by rewrite app_nil_r.
Qed.

End ECSRegion.

Lemma eniIDsOf_filter (Tasks : list Task.t) :
  eniIDsOf Tasks
    = filter (fun eniID => eniID ≠ "") (getElasticNetworkInterfaceIDOfECSTask <$> Tasks).
Proof.
  unfold eniIDsOf.
  assert (∀ acc,
    foldl (fun eniIDs task =>
             if decide (getElasticNetworkInterfaceIDOfECSTask task ≠ "")
             then eniIDs ++ [getElasticNetworkInterfaceIDOfECSTask task] else eniIDs)
      acc Tasks
    = acc ++ filter (fun eniID => eniID ≠ "")
               (getElasticNetworkInterfaceIDOfECSTask <$> Tasks)) as Hgen.
  { induction Tasks as [|task Tasks IH]; intros acc; [by rewrite app_nil_r |].
    cbn [foldl fmap list_fmap]. rewrite IH, filter_cons.
    destruct (decide (getElasticNetworkInterfaceIDOfECSTask task ≠ ""));
      [by rewrite <- app_assoc | done]. }
  apply (Hgen []).
Qed.

Lemma eniIDsOf_nonempty (Tasks : list Task.t) (task : Task.t) :
  task ∈ Tasks → getElasticNetworkInterfaceIDOfECSTask task ≠ "" → eniIDsOf Tasks ≠ [].
Proof.
  intros Hin Heni Hnil. rewrite eniIDsOf_filter in Hnil.
  assert (getElasticNetworkInterfaceIDOfECSTask task
            ∈ filter (fun eniID => eniID ≠ "")
                (getElasticNetworkInterfaceIDOfECSTask <$> Tasks)) as Helem.
  { apply list_elem_of_filter. split; [done |]. apply list_elem_of_fmap. by exists task. }
  rewrite Hnil in Helem. by apply elem_of_nil in Helem.
Qed.

Lemma publicIPs_lookup (sdk : ECSClient) (interfaces : list (NetworkInterface sdk))
    (eniID : string) :
  foldl (fun eniPublicIPs eni =>
           <[ptr_ToString (NetworkInterfaceId sdk eni) :=
               getPublicIPOfElasticNetworkInterface sdk eni]> eniPublicIPs)
    (∅ : gmap string string) interfaces !! eniID
  = getPublicIPOfElasticNetworkInterface sdk
      <$> last (filter (fun eni => ptr_ToString (NetworkInterfaceId sdk eni) = eniID)
                  interfaces).
Proof.
  induction interfaces as [|eni interfaces IH] using rev_ind; [done |].
  rewrite foldl_app, filter_app. cbn [foldl]. rewrite filter_cons, filter_nil.
  destruct (decide (ptr_ToString (NetworkInterfaceId sdk eni) = eniID)) as [Heq | Hne].
  - rewrite Heq, lookup_insert_eq, last_snoc. done.
  - rewrite lookup_insert_ne by done. rewrite app_nil_r. apply IH.
Qed.

Lemma writeLoot_addresses (outputDirectory : string) (tasks : list MappedECSTask.t) :
  writeLoot outputDirectory tasks !! 0%nat
    = Some (filepath.Join [filepath.Join [outputDirectory; "loot"];
                           "ecs-tasks-PrivateIPs.txt"], (lootIPs tasks).2)
  ∧ writeLoot outputDirectory tasks !! 1%nat
    = Some (filepath.Join [filepath.Join [outputDirectory; "loot"];
                           "ecs-tasks-PublicIPs.txt"], (lootIPs tasks).1).
Proof.
  unfold writeLoot. destruct (lootIPs tasks) as [publicIPs privateIPs]. cbn [fst snd].
  match goal with |- context [foldl ?f ?init tasks] =>
    assert (∃ more, foldl f init tasks = init ++ more) as [more ->] end.
  { match goal with |- ∃ more, foldl ?f ?init tasks = _ => generalize init end.
    induction tasks as [|task tasks IH]; intros init; cbn [foldl].
    - exists []. by rewrite app_nil_r.
    - case_decide; [| apply IH].
      match goal with |- ∃ more, foldl _ (init ++ [?w]) tasks = _ =>
        destruct (IH (init ++ [w])) as [more ->]; exists ([w] ++ more) end.
      by rewrite <- app_assoc. }
  done.
Qed.

Lemma lootIPs_snoc (tasks : list MappedECSTask.t) (task : MappedECSTask.t) :
  lootIPs (tasks ++ [task])
    = ((if decide (MappedECSTask.ExternalIP task ≠ "NoExternalIP")
        then (lootIPs tasks).1 +:+ fmt_Sprintln (MappedECSTask.ExternalIP task)
        else (lootIPs tasks).1),
       (if decide (MappedECSTask.PrivateIP task ≠ "")
        then (lootIPs tasks).2 +:+ fmt_Sprintln (MappedECSTask.PrivateIP task)
        else (lootIPs tasks).2)).
Proof.
  unfold lootIPs. rewrite foldl_app. cbn [foldl].
  by destruct (foldl _ _ tasks) as [publicIPs privateIPs].
Qed.

(** X13: every task listed for a cluster is handed to [DescribeTasks]
    exactly once and in order, in batches of at most 100 task ARNs: the
    batches are not empty, their concatenation is the list, and all but the
    last hold exactly 100. *)
Theorem tasks_are_described_in_batches sdk account st clusterARN region TaskArns :
  CachedECSListTasks sdk account region clusterARN = Some TaskArns →
  ∃ batches,
    describedBatches (calls (getListTasks sdk account st clusterARN region))
      = describedBatches (calls st) ++ batches
    ∧ concat batches = TaskArns
    ∧ Forall (fun batch => (1 ≤ length batch ≤ 100)%nat) batches
    ∧ (∀ k batch, batches !! k = Some batch → (S k < length batches)%nat →
                  length batch = 100%nat).
Proof.
  intros Hlist. unfold getListTasks. rewrite Hlist.
  destruct (batchLoop_batches sdk account clusterARN region TaskArns 0
              (ecs_call (CallListTasks region clusterARN) st))
    as (_ & _ & batches & Hcalls & Hconcat & Hall & Hfull).
  exists batches. rewrite Hcalls. cbn. rewrite describedBatches_app. cbn.
  rewrite app_nil_r. done.
Qed.

Lemma tasks_are_described_in_batches_witness :
  ∃ batches,
    describedBatches
      (calls (getListTasks exampleECS "111111111111" emptyECS
                "arn:aws:ecs:us-east-1:111111111111:cluster/web" "us-east-1"))
      = describedBatches (calls emptyECS) ++ batches
    ∧ concat batches = ["arn:aws:ecs:us-east-1:111111111111:task/web/0a1b";
                        "arn:aws:ecs:us-east-1:111111111111:task/2c3d"]
    ∧ Forall (fun batch => (1 ≤ length batch ≤ 100)%nat) batches
    ∧ (∀ k batch, batches !! k = Some batch → (S k < length batches)%nat →
                  length batch = 100%nat).
Proof.
  apply (tasks_are_described_in_batches exampleECS "111111111111" emptyECS
           "arn:aws:ecs:us-east-1:111111111111:cluster/web" "us-east-1").
  reflexivity.
Defined.

(** X14: when one task of a batch sits on an attached network interface and
    the network interfaces of the region cannot be listed, the whole batch is
    dropped: no task of it is reported, not even those without a network
    interface, no task definition is asked for, and one error is counted. *)
Theorem batch_is_dropped_when_interfaces_cannot_be_listed
    sdk account st clusterARN taskARNs region Tasks task :
  taskARNs ≠ [] →
  CachedECSDescribeTasks sdk account region clusterARN taskARNs = Some Tasks →
  task ∈ Tasks → getElasticNetworkInterfaceIDOfECSTask task ≠ "" →
  CachedEC2DescribeNetworkInterfaces sdk account region = None →
  let st' := loadTasksData sdk account st clusterARN taskARNs region in
  MappedECSTasks st' = MappedECSTasks st
  ∧ CommandCounter_Error st' = S (CommandCounter_Error st)
  ∧ describedDefinitions (calls st') = describedDefinitions (calls st).
Proof.
  intros Hne Htasks Hin Heni Hfail. cbn. unfold loadTasksData.
  rewrite decide_False by (by destruct taskARNs).
  rewrite Htasks. unfold loadPublicIPs.
  pose proof (eniIDsOf_nonempty Tasks task Hin Heni) as Hids.
  rewrite decide_False by (by destruct (eniIDsOf Tasks)).
  rewrite Hfail. cbn. rewrite !describedDefinitions_app. cbn.
  rewrite !app_nil_r. done.
Qed.

Lemma batch_is_dropped_when_interfaces_cannot_be_listed_witness :
  MappedECSTasks
    (loadTasksData exampleECSWithoutInterfaces "111111111111" emptyECS
       "arn:aws:ecs:us-east-1:111111111111:cluster/web"
       ["arn:aws:ecs:us-east-1:111111111111:task/web/0a1b";
        "arn:aws:ecs:us-east-1:111111111111:task/2c3d"] "us-east-1")
    = MappedECSTasks emptyECS.
Proof.
  refine (proj1 (batch_is_dropped_when_interfaces_cannot_be_listed
    exampleECSWithoutInterfaces "111111111111" emptyECS
    "arn:aws:ecs:us-east-1:111111111111:cluster/web"
    ["arn:aws:ecs:us-east-1:111111111111:task/web/0a1b";
     "arn:aws:ecs:us-east-1:111111111111:task/2c3d"] "us-east-1"
    [exampleAttachedTask; exampleBareTask] exampleAttachedTask _ _ _ _ _)).
  - done.
  - reflexivity.
  - left.
  - vm_compute. done.
  - reflexivity.
Defined.

(** X15: the tasks of a batch are reported one by one, up to the first task
    whose task definition cannot be described.  The tasks before it are
    reported, each with its own definition; the failing task and the tasks
    after it are not, and for the tasks after it no definition is asked for.
    One error is counted when there is such a task, none otherwise. *)
Theorem tasks_before_a_failed_definition_are_reported
    sdk account st clusterARN taskARNs region good definitions remaining :
  taskARNs ≠ [] →
  CachedECSDescribeTasks sdk account region clusterARN taskARNs = Some (good ++ remaining) →
  (eniIDsOf (good ++ remaining) = []
   ∨ is_Some (CachedEC2DescribeNetworkInterfaces sdk account region)) →
  Forall2 (fun task taskDefinition =>
             CachedECSDescribeTaskDefinition sdk account region
               (ptr_ToString (Task.TaskDefinitionArn task)) = Some taskDefinition)
    good definitions →
  match remaining with
  | [] => True
  | task :: _ =>
      CachedECSDescribeTaskDefinition sdk account region
        (ptr_ToString (Task.TaskDefinitionArn task)) = None
  end →
  let st' := loadTasksData sdk account st clusterARN taskARNs region in
  ∃ publicIPs,
    MappedECSTasks st'
      = MappedECSTasks st ++ zip_with (mappedTask sdk clusterARN publicIPs) good definitions
    ∧ CommandCounter_Error st'
      = (CommandCounter_Error st + match remaining with [] => 0 | _ => 1 end)%nat
    ∧ describedDefinitions (calls st')
      = describedDefinitions (calls st)
        ++ ((fun task => ptr_ToString (Task.TaskDefinitionArn task))
              <$> (good ++ take 1 remaining)).
Proof.
  intros Hne Htasks Hips Hgood Hrest. cbn. unfold loadTasksData.
  rewrite decide_False by (by destruct taskARNs).
  rewrite Htasks.
  set (st1 := ecs_call (CallDescribeTasks region clusterARN taskARNs) st).
  pose proof (loadPublicIPs_frame sdk account st1 (eniIDsOf (good ++ remaining)) region)
    as (Hft & Hfe & Hfc).
  assert (is_Some (loadPublicIPs sdk account st1 (eniIDsOf (good ++ remaining)) region).1)
    as [publicIPs Hloaded].
  { unfold loadPublicIPs. destruct Hips as [-> | [interfaces ->]].
    - rewrite decide_True by done. by eexists.
    - case_decide; by eexists. }
  destruct (loadPublicIPs sdk account st1 (eniIDsOf (good ++ remaining)) region)
    as [loaded st2].
  cbn [fst snd] in *. subst loaded. exists publicIPs.
  destruct (sendTasks_prefix sdk account clusterARN region publicIPs good definitions
              remaining st2 Hgood Hrest) as (-> & -> & ->).
  rewrite Hft, Hfe, Hfc. unfold st1. cbn [ecs_call MappedECSTasks CommandCounter_Error calls].
  split_and!; [done | done |].
  rewrite !describedDefinitions_app. cbn [describedDefinitions omap list_omap].
  case_decide; cbn [describedDefinitions omap list_omap]; rewrite !app_nil_r.
  all: f_equal; generalize (good ++ take 1 remaining); intros l;
    induction l as [|t l IH]; cbn; [done | by f_equal].
Qed.

Lemma tasks_before_a_failed_definition_are_reported_witness :
  ∃ publicIPs,
    MappedECSTasks
      (loadTasksData exampleECSWithoutBatchDefinition "111111111111" emptyECS
         "arn:aws:ecs:us-east-1:111111111111:cluster/web"
         ["arn:aws:ecs:us-east-1:111111111111:task/web/0a1b";
          "arn:aws:ecs:us-east-1:111111111111:task/2c3d"] "us-east-1")
      = MappedECSTasks emptyECS
        ++ zip_with (mappedTask exampleECSWithoutBatchDefinition
                       "arn:aws:ecs:us-east-1:111111111111:cluster/web" publicIPs)
             [exampleAttachedTask] ["web:3"]
    ∧ CommandCounter_Error
        (loadTasksData exampleECSWithoutBatchDefinition "111111111111" emptyECS
           "arn:aws:ecs:us-east-1:111111111111:cluster/web"
           ["arn:aws:ecs:us-east-1:111111111111:task/web/0a1b";
            "arn:aws:ecs:us-east-1:111111111111:task/2c3d"] "us-east-1")
      = (CommandCounter_Error emptyECS + 1)%nat
    ∧ describedDefinitions
        (calls (loadTasksData exampleECSWithoutBatchDefinition "111111111111" emptyECS
                  "arn:aws:ecs:us-east-1:111111111111:cluster/web"
                  ["arn:aws:ecs:us-east-1:111111111111:task/web/0a1b";
                   "arn:aws:ecs:us-east-1:111111111111:task/2c3d"] "us-east-1"))
      = describedDefinitions (calls emptyECS)
        ++ ((fun task => ptr_ToString (Task.TaskDefinitionArn task))
              <$> ([exampleAttachedTask] ++ take 1 [exampleBareTask])).
Proof.
  apply (tasks_before_a_failed_definition_are_reported exampleECSWithoutBatchDefinition
           "111111111111" emptyECS
           "arn:aws:ecs:us-east-1:111111111111:cluster/web"
           ["arn:aws:ecs:us-east-1:111111111111:task/web/0a1b";
            "arn:aws:ecs:us-east-1:111111111111:task/2c3d"] "us-east-1"
           [exampleAttachedTask] ["web:3"] [exampleBareTask]).
  - done.
  - reflexivity.
  - right. by eexists.
  - repeat constructor.
  - reflexivity.
Defined.

(** X16: the external address reported for a task.  When network interfaces
    are looked up, the table holds every interface the region lists, not only
    the ones asked for, and a later interface with the same identifier
    replaces an earlier one.  A task without attached network interface gets
    the empty string, and so does a task whose interface is not in the
    listing; the others get what [getPublicIPOfElasticNetworkInterface]
    returns for the interface. *)
Theorem external_address_of_a_task sdk account st eniIDs region interfaces :
  eniIDs ≠ [] →
  CachedEC2DescribeNetworkInterfaces sdk account region = Some interfaces →
  ∃ publicIPs,
    (loadPublicIPs sdk account st eniIDs region).1 = Some publicIPs
    ∧ ∀ clusterARN task taskDefinition,
        MappedECSTask.ExternalIP (mappedTask sdk clusterARN publicIPs task taskDefinition)
        = if decide (getElasticNetworkInterfaceIDOfECSTask task = "") then ""
          else
            match last (filter (fun eni => ptr_ToString (NetworkInterfaceId sdk eni)
                                             = getElasticNetworkInterfaceIDOfECSTask task)
                          interfaces) with
            | Some eni => getPublicIPOfElasticNetworkInterface sdk eni
            | None => ""
            end.
Proof.
  intros Hne Hlist. unfold loadPublicIPs.
  rewrite decide_False by (by destruct eniIDs). rewrite Hlist. cbn [fst].
  eexists. split; [done |]. intros clusterARN task taskDefinition. cbn.
  destruct (decide (getElasticNetworkInterfaceIDOfECSTask task = "")) as [Heq | Hneq].
  - rewrite decide_False by (intros H; by apply H). done.
  - rewrite decide_True by done. rewrite publicIPs_lookup.
    by destruct (last _).
Qed.

Lemma external_address_of_a_task_witness :
  ∃ publicIPs,
    (loadPublicIPs exampleECS "111111111111" emptyECS ["eni-1"] "us-east-1").1
      = Some publicIPs
    ∧ ∀ clusterARN task taskDefinition,
        MappedECSTask.ExternalIP
          (mappedTask exampleECS clusterARN publicIPs task taskDefinition)
        = if decide (getElasticNetworkInterfaceIDOfECSTask task = "") then ""
          else
            match last (filter (fun eni => ptr_ToString (NetworkInterfaceId exampleECS eni)
                                             = getElasticNetworkInterfaceIDOfECSTask task)
                          [("eni-1", "NoExternalIP")]) with
            | Some eni => getPublicIPOfElasticNetworkInterface exampleECS eni
            | None => ""
            end.
Proof.
  apply (external_address_of_a_task exampleECS "111111111111" emptyECS ["eni-1"]
           "us-east-1" [("eni-1", "NoExternalIP")]).
  - done.
  - reflexivity.
Defined.

(** X17: only the marker [NoExternalIP] keeps a task out of the file of
    public addresses.  A task without attached network interface, or whose
    interface is missing from the table, is reported with the empty string
    as its external address, so it adds an empty line to that file. *)
Theorem task_without_interface_adds_an_empty_line
    sdk clusterARN publicIPs task taskDefinition outputDirectory tasks :
  getElasticNetworkInterfaceIDOfECSTask task = ""
  ∨ publicIPs !! getElasticNetworkInterfaceIDOfECSTask task = None →
  ∃ file content,
    writeLoot outputDirectory tasks !! 1%nat = Some (file, content)
    ∧ writeLoot outputDirectory
        (tasks ++ [mappedTask sdk clusterARN publicIPs task taskDefinition]) !! 1%nat
      = Some (file, content +:+ fmt_Sprintln "").
Proof.
  intros Hnone.
  destruct (writeLoot_addresses outputDirectory tasks) as [_ ->].
  destruct (writeLoot_addresses outputDirectory
              (tasks ++ [mappedTask sdk clusterARN publicIPs task taskDefinition]))
    as [_ ->].
  eexists _, _. split; [done |]. rewrite lootIPs_snoc. cbn [fst].
  assert (MappedECSTask.ExternalIP (mappedTask sdk clusterARN publicIPs task taskDefinition)
            = "") as ->.
  { cbn. destruct Hnone as [Heq | Hmiss].
    - rewrite decide_False by (intros H; by apply H). done.
    - case_decide; [| done]. by rewrite Hmiss. }
  rewrite decide_True by done. done.
Qed.

Lemma task_without_interface_adds_an_empty_line_witness :
  ∃ file content,
    writeLoot "out" [] !! 1%nat = Some (file, content)
    ∧ writeLoot "out"
        ([] ++ [mappedTask exampleECS "arn:aws:ecs:us-east-1:111111111111:cluster/web" ∅
                  exampleBareTask "batch:1"]) !! 1%nat
      = Some (file, content +:+ fmt_Sprintln "").
Proof.
  apply (task_without_interface_adds_an_empty_line exampleECS
           "arn:aws:ecs:us-east-1:111111111111:cluster/web" ∅ exampleBareTask "batch:1"
           "out" []).
  left. reflexivity.
Defined.

(** X18: the work of one region only adds to what was received.  The tasks
    received before are kept in place, the error counter does not decrease,
    and every task added names a cluster the region lists and has its two
    analysis fields still empty; when the clusters cannot be listed, nothing
    is added and one error is counted. *)
Theorem region_adds_tasks_of_listed_clusters sdk account st region :
  ∃ sent,
    MappedECSTasks (getListClusters sdk account st region) = MappedECSTasks st ++ sent
    ∧ (CommandCounter_Error st
         ≤ CommandCounter_Error (getListClusters sdk account st region))%nat
    ∧ (∀ task, task ∈ sent →
         ∃ ClusterArns clusterARN,
           CachedECSListClusters sdk account region = Some ClusterArns
           ∧ clusterARN ∈ ClusterArns
           ∧ MappedECSTask.Cluster task = getNameFromARN clusterARN
           ∧ MappedECSTask.Admin task = "" ∧ MappedECSTask.CanPrivEsc task = "")
    ∧ (CachedECSListClusters sdk account region = None →
         sent = []
         ∧ CommandCounter_Error (getListClusters sdk account st region)
           = S (CommandCounter_Error st)).
Proof.
  unfold getListClusters.
  destruct (CachedECSListClusters sdk account region) as [ClusterArns|].
  - set (st1 := ecs_call (CallListClusters region) st).
    assert (∀ clusters s,
      ∃ sent,
        MappedECSTasks
          (foldl (fun st clusterARN => getListTasks sdk account st clusterARN region)
             s clusters) = MappedECSTasks s ++ sent
        ∧ (CommandCounter_Error s
             ≤ CommandCounter_Error
                 (foldl (fun st clusterARN => getListTasks sdk account st clusterARN region)
                    s clusters))%nat
        ∧ ∀ task, task ∈ sent →
            ∃ clusterARN, clusterARN ∈ clusters
              ∧ MappedECSTask.Cluster task = getNameFromARN clusterARN
              ∧ MappedECSTask.Admin task = "" ∧ MappedECSTask.CanPrivEsc task = "")
      as Hloop.
    { induction clusters as [|c clusters IH]; intros s; cbn [foldl].
      - exists []. rewrite app_nil_r. split_and!; [done | done |].
        intros task Hin. by apply elem_of_nil in Hin.
      - destruct (getListTasks_frame sdk account s c region)
          as ((sent1 & Hsent1 & Hall1) & Herr1).
        destruct (IH (getListTasks sdk account s c region))
          as (sent2 & -> & Herr2 & Hall2).
        exists (sent1 ++ sent2). rewrite Hsent1, <- app_assoc.
        split_and!; [done | lia |].
        intros task Hin. apply elem_of_app in Hin as [Hin | Hin].
        + exists c. split; [left |].
          rewrite Forall_forall in Hall1. by apply Hall1.
        + destruct (Hall2 task Hin) as (c' & Hc' & Hrest).
          exists c'. split; [by right | done]. }
    destruct (Hloop ClusterArns st1) as (sent & -> & Herr & Hall).
    exists sent. split_and!; [done | done | | done].
    intros task Hin. destruct (Hall task Hin) as (c & Hc & Hrest).
    by exists ClusterArns, c.
  - exists []. cbn. rewrite app_nil_r. split_and!; [done | lia | | done].
    intros task Hin. by apply elem_of_nil in Hin.
Qed.

(** * [awsPostRun] *)

Lemma awsPostRun_calls w store out profiles : ∀ saved result saved',
  awsPostRun w store out profiles saved = (result, saved') →
  ∃ calls,
    saved' = saved ++ calls
    ∧ (∀ k call, calls !! k = Some call → (S k < length calls)%nat → cache_saved store call)
    ∧ (result = PostRunReturned →
         Forall (cache_saved store) calls
         ∧ calls = concat (cacheCallsOf w out <$> profiles)
         ∧ ∀ profile caller, profile ∈ profiles → AWSWhoami w profile = Some caller →
             is_Some (Account caller))
    ∧ (result = PostRunFatal →
         ∃ call, last calls = Some call ∧ ¬ cache_saved store call)
    ∧ (∃ before after,
         profiles = before ++ after
         ∧ calls = take (length calls) (concat (cacheCallsOf w out <$> before))
         ∧ (result = PostRunReturned → after = [])).
Proof.
  induction profiles as [|profile rest IH]; intros saved result saved' Hrun;
    cbn [awsPostRun] in Hrun; cbv zeta in Hrun.
  { injection Hrun as <- <-. exists []. rewrite app_nil_r.
    split_and!; [done | by intros k call Hk | | done |].
    - intros _. split_and!; [done | done |]. intros p c Hp. by apply elem_of_nil in Hp.
    - exists [], []. done. }
  destruct (AWSWhoami w profile) as [caller|] eqn:Hwho.
  2:{ destruct (IH _ _ _ Hrun) as (calls & -> & Hinit & Hret & Hfatal & Hprefix).
      exists calls. split_and!; [done | done | | done |].
      - intros Hr. destruct (Hret Hr) as (Hall & Hcalls & Hacc).
        split_and!; [done | |].
        + cbn. unfold cacheCallsOf at 1. by rewrite Hwho.
        + intros p c Hp Hc. apply elem_of_cons in Hp as [-> | Hp]; [congruence |].
          by eapply Hacc.
      - destruct Hprefix as (before & after & -> & Htake & Hafter).
        exists (profile :: before), after. split_and!; [done | | done].
        cbn. unfold cacheCallsOf at 1. by rewrite Hwho. }
  destruct (Account caller) as [account|] eqn:Hacc.
  2:{ injection Hrun as <- <-. exists []. rewrite app_nil_r.
      split_and!; [done | by intros k call Hk | done | done |].
      exists [], (profile :: rest). done. }
  assert (cacheCallsOf w out profile
            = [CallSaveCacheToGobFiles (cacheDirectory out caller) account;
               CallSaveCacheToFiles (cacheDirectory out caller) account]) as Hcalls.
  { unfold cacheCallsOf. by rewrite Hwho, Hacc. }
  destruct (SaveCacheToGobFiles store (cacheDirectory out caller) account) as [e|] eqn:Hgob.
  { injection Hrun as <- <-.
    exists [CallSaveCacheToGobFiles (cacheDirectory out caller) account].
    split_and!; [done | | done | |].
    - intros k call Hk Hlt. cbn in Hlt. lia.
    - intros _. eexists. split; [done |]. cbn [cache_saved]. by rewrite Hgob.
    - exists [profile], rest. split_and!; [done | | done].
      cbn. rewrite Hcalls. done. }
  destruct (SaveCacheToFiles store (cacheDirectory out caller) account) as [e|] eqn:Hfiles.
  { injection Hrun as <- <-.
    exists [CallSaveCacheToGobFiles (cacheDirectory out caller) account;
            CallSaveCacheToFiles (cacheDirectory out caller) account].
    rewrite <- app_assoc. split_and!; [done | | done | |].
    - intros k call Hk Hlt. destruct k as [|k]; cbn in Hlt; [| lia].
      injection Hk as <-. done.
    - intros _. eexists. split; [done |]. cbn [cache_saved]. by rewrite Hfiles.
    - exists [profile], rest. split_and!; [done | | done].
      cbn. rewrite Hcalls. done. }
  destruct (IH _ _ _ Hrun) as (calls & -> & Hinit & Hret & Hfatal & Hprefix).
  exists ([CallSaveCacheToGobFiles (cacheDirectory out caller) account;
           CallSaveCacheToFiles (cacheDirectory out caller) account] ++ calls).
  rewrite <- !app_assoc. split_and!; [done | | | |].
  - intros k call Hk Hlt. destruct k as [|[|k]]; cbn in Hk.
    + by injection Hk as <-.
    + by injection Hk as <-.
    + apply (Hinit k call Hk). cbn in Hlt. lia.
  - intros Hr. destruct (Hret Hr) as (Hall & Hc & Haccs). split_and!.
    + by repeat constructor.
    + cbn [fmap list_fmap concat]. by rewrite Hcalls, Hc.
    + intros p c Hp Hwp. apply elem_of_cons in Hp as [-> | Hp]; [| by eapply Haccs].
      rewrite Hwho in Hwp. injection Hwp as <-. by rewrite Hacc.
  - intros Hr. destruct (Hfatal Hr) as (call & Hlast & Hbad).
    exists call. split; [| done].
    rewrite last_app, Hlast. done.
  - destruct Hprefix as (before & after & -> & Htake & Hafter).
    exists (profile :: before), after. split_and!; [done | | done].
    cbn [fmap list_fmap concat length app]. rewrite Hcalls. cbn [app take].
    by rewrite <- Htake.
Qed.

(** X19: [awsPostRun] saves the caches profile by profile and stops at the
    first save that fails.  Every save but the last one attempted succeeded;
    the saves attempted are an initial part of the saves of the profiles in
    order (the gob files of an account, then its files, for each profile that
    authenticates), so after a failure nothing is saved for the profiles that
    follow; and the function returns only when every authenticating profile
    has an account and all the saves succeeded. *)
Theorem awsPostRun_stops_at_the_first_failed_save w store out profiles result saved :
  awsPostRun w store out profiles [] = (result, saved) →
  (∀ k call, saved !! k = Some call → (S k < length saved)%nat → cache_saved store call)
  ∧ saved = take (length saved) (concat (cacheCallsOf w out <$> profiles))
  ∧ (result = PostRunReturned →
       saved = concat (cacheCallsOf w out <$> profiles)
       ∧ Forall (cache_saved store) saved
       ∧ ∀ profile caller, profile ∈ profiles → AWSWhoami w profile = Some caller →
           is_Some (Account caller))
  ∧ (result = PostRunFatal → ∃ call, last saved = Some call ∧ ¬ cache_saved store call).
Proof.
  intros Hrun.
  destruct (awsPostRun_calls w store out profiles [] result saved Hrun)
    as (calls & -> & Hinit & Hret & Hfatal & before & after & -> & Htake & _).
  cbn [app]. split_and!; [done | | | done].
  - rewrite fmap_app, concat_app. rewrite Htake at 1.
    rewrite take_app_le; [done |].
    rewrite Htake at 1. rewrite length_take. lia.
  - intros Hr. destruct (Hret Hr) as (Hall & Hc & Hacc). done.
Qed.

Lemma awsPostRun_stops_at_the_first_failed_save_witness :
  ∃ call,
    last [CallSaveCacheToGobFiles "out/cached-data/aws/111111111111" "111111111111";
          CallSaveCacheToFiles "out/cached-data/aws/111111111111" "111111111111"]
      = Some call
    ∧ ¬ cache_saved exampleFailingStore call.
Proof.
  refine (proj2 (proj2 (proj2 (awsPostRun_stops_at_the_first_failed_save exampleWorld
    exampleFailingStore "out" ["prod"; "dev"] PostRunFatal
    [CallSaveCacheToGobFiles "out/cached-data/aws/111111111111" "111111111111";
     CallSaveCacheToFiles "out/cached-data/aws/111111111111" "111111111111"] _))) _).
  - vm_compute. reflexivity.
  - reflexivity.
Defined.

(** * API Gateway v2 endpoints *)

Lemma strings_HasPrefix_app (p s : string) : strings_HasPrefix (p +:+ s) p = true.
Proof.
  induction p as [|c p IH]; [done |].
  change (bool_decide (c = c) && strings_HasPrefix (p +:+ s) p = true).
  rewrite bool_decide_true by done. apply IH.
Qed.

Lemma strings_HasPrefix_longer (a t : string) :
  t ≠ "" → strings_HasPrefix a (a +:+ t) = false.
Proof.
  intros Ht. induction a as [|c a IH].
  - by destruct t.
  - change (bool_decide (c = c) && strings_HasPrefix a (a +:+ t) = false).
    rewrite bool_decide_true by done. apply IH.
Qed.

Lemma string_skip_app (a b : string) : string_skip (String.length a) (a +:+ b) = b.
Proof. induction a as [|c a IH]; cbn; [by destruct b | apply IH]. Qed.

Lemma strings_Replace1_prefix (old rest new : string) :
  strings_Replace1 (old +:+ rest) old new = new +:+ rest.
Proof.
  assert (∀ s, strings_Replace1 s old new
               = if strings_HasPrefix s old then new +:+ string_skip (String.length old) s
                 else match s with
                      | EmptyString => EmptyString
                      | String c s' => String c (strings_Replace1 s' old new)
                      end) as Hunfold by (by intros [|c s]).
  rewrite Hunfold, strings_HasPrefix_app, string_skip_app. done.
Qed.

Lemma domainEndpoint_prefixed r domain stage key mapping endpoint old rest :
  old = (if decide (stage = "") then
           "https://" +:+ ptr_ToString (ApiMapping.ApiId mapping) +:+ ".execute-api." +:+ r
             +:+ ".amazonaws.com/"
         else
           "https://" +:+ ptr_ToString (ApiMapping.ApiId mapping) +:+ ".execute-api." +:+ r
             +:+ ".amazonaws.com/" +:+ stage +:+ "/") →
  Endpoint.Endpoint endpoint = old +:+ rest →
  domainEndpoint r domain stage key mapping endpoint
    = Some (Endpoint.mk (Endpoint.AWSService endpoint) (Endpoint.Region endpoint) domain
              ("https://" +:+ domain +:+ "/" +:+ keySegment key +:+ rest)
              (Endpoint.Port endpoint) (Endpoint.Protocol endpoint)
              (Endpoint.Public endpoint)).
Proof.
  intros Hold Hurl. unfold domainEndpoint. rewrite <- Hold, Hurl.
  rewrite strings_HasPrefix_app, strings_Replace1_prefix. do 2 f_equal.
  unfold keySegment. destruct (decide (key = "")) as [Hkey | Hkey].
  - rewrite !append_assoc. done.
  - rewrite !append_assoc. done.
Qed.

Lemma append_nil_r (s : string) : s +:+ "" = s.
Proof. induction s as [|c s IH]; [done |]. by rewrite append_cons, IH. Qed.

Lemma executeApiURL_slash id r (s : string) :
  executeApiURL id r +:+ "/" +:+ s
    = ("https://" +:+ id +:+ ".execute-api." +:+ r +:+ ".amazonaws.com/") +:+ s.
Proof. unfold executeApiURL. rewrite !append_assoc. cbn. done. Qed.

Lemma named_stage_url id r stage path :
  stage ≠ "" →
  endpointURL (executeApiURL id r) stage path
    = ("https://" +:+ id +:+ ".execute-api." +:+ r +:+ ".amazonaws.com/" +:+ stage) +:+ path.
Proof.
  intros Hstage. unfold endpointURL. rewrite decide_False by done.
  rewrite executeApiURL_slash. rewrite !append_assoc. done.
Qed.

Lemma named_stage_old id r stage :
  "https://" +:+ id +:+ ".execute-api." +:+ r +:+ ".amazonaws.com/" +:+ stage +:+ "/"
    = ("https://" +:+ id +:+ ".execute-api." +:+ r +:+ ".amazonaws.com/" +:+ stage) +:+ "/".
Proof. rewrite !append_assoc. done. Qed.

Lemma default_stage_old id r :
  "https://" +:+ id +:+ ".execute-api." +:+ r +:+ ".amazonaws.com/"
    = executeApiURL id r +:+ "/".
Proof. unfold executeApiURL. rewrite !append_assoc. cbn. done. Qed.

(** X20: a custom domain mapped to a named stage of an HTTP API.  An endpoint
    of that stage whose route has a path is sent under the domain, the
    execute-api URL of the stage being replaced by the domain and the mapping
    key; the endpoint of a route without path (such as the route [$default])
    is the bare URL of the stage, does not begin with that URL followed by a
    slash, and is not sent. *)
Theorem custom_domain_of_a_named_stage r domain id stage key mapping :
  ptr_ToString (ApiMapping.ApiId mapping) = id →
  stage ≠ "" →
  (∀ endpoint rest,
     Endpoint.Endpoint endpoint = endpointURL (executeApiURL id r) stage ("/" +:+ rest) →
     domainEndpoint r domain stage key mapping endpoint
       = Some (Endpoint.mk (Endpoint.AWSService endpoint) (Endpoint.Region endpoint) domain
                 ("https://" +:+ domain +:+ "/" +:+ keySegment key +:+ rest)
                 (Endpoint.Port endpoint) (Endpoint.Protocol endpoint)
                 (Endpoint.Public endpoint)))
  ∧ (∀ endpoint,
       Endpoint.Endpoint endpoint = endpointURL (executeApiURL id r) stage "" →
       domainEndpoint r domain stage key mapping endpoint = None).
Proof.
  intros Hid Hstage. split.
  - intros endpoint rest Hurl.
    apply (domainEndpoint_prefixed r domain stage key mapping endpoint _ rest eq_refl).
    rewrite Hurl, Hid, decide_False by done.
    rewrite named_stage_url by done. rewrite named_stage_old.
    by rewrite !append_assoc.
  - intros endpoint Hurl. unfold domainEndpoint.
    rewrite Hurl, Hid, (decide_False (P := stage = "")) by done.
    rewrite named_stage_url by done. rewrite named_stage_old, append_nil_r.
    rewrite strings_HasPrefix_longer by done. done.
Qed.

Lemma custom_domain_of_a_named_stage_witness :
  domainEndpoint "us-east-1" "api.example.com" "prod" "v1" exampleMapping
    (exampleEndpoint "https://a1b2c3.execute-api.us-east-1.amazonaws.com/prod/orders")
  = Some (Endpoint.mk "APIGatewayv2" "us-east-1" "api.example.com"
            ("https://" +:+ "api.example.com" +:+ "/" +:+ keySegment "v1" +:+ "orders")
            443 "https" "True").
Proof.
  apply (proj1 (custom_domain_of_a_named_stage "us-east-1" "api.example.com" "a1b2c3"
                  "prod" "v1" exampleMapping eq_refl ltac:(done))
           (exampleEndpoint "https://a1b2c3.execute-api.us-east-1.amazonaws.com/prod/orders")
           "orders").
  reflexivity.
Defined.

(** X21: a custom domain mapped to the stage [$default].  The URL looked for
    is the execute-api URL of the API followed by a slash, which every
    endpoint of every named stage begins with: the endpoints of the other
    stages are sent under the domain as well, with the stage name kept as the
    first segment of the path.  The endpoints of the default stage are sent
    when their route has a path, and not sent when it has none. *)
Theorem custom_domain_of_the_default_stage r domain id key mapping :
  ptr_ToString (ApiMapping.ApiId mapping) = id →
  (∀ endpoint stage path,
     stage ≠ "" →
     Endpoint.Endpoint endpoint = endpointURL (executeApiURL id r) stage path →
     domainEndpoint r domain "" key mapping endpoint
       = Some (Endpoint.mk (Endpoint.AWSService endpoint) (Endpoint.Region endpoint) domain
                 ("https://" +:+ domain +:+ "/" +:+ keySegment key +:+ stage +:+ path)
                 (Endpoint.Port endpoint) (Endpoint.Protocol endpoint)
                 (Endpoint.Public endpoint)))
  ∧ (∀ endpoint rest,
       Endpoint.Endpoint endpoint = endpointURL (executeApiURL id r) "" ("/" +:+ rest) →
       domainEndpoint r domain "" key mapping endpoint
         = Some (Endpoint.mk (Endpoint.AWSService endpoint) (Endpoint.Region endpoint) domain
                   ("https://" +:+ domain +:+ "/" +:+ keySegment key +:+ rest)
                   (Endpoint.Port endpoint) (Endpoint.Protocol endpoint)
                   (Endpoint.Public endpoint)))
  ∧ (∀ endpoint,
       Endpoint.Endpoint endpoint = endpointURL (executeApiURL id r) "" "" →
       domainEndpoint r domain "" key mapping endpoint = None).
Proof.
  intros Hid. split_and!.
  - intros endpoint stage path Hstage Hurl.
    apply (domainEndpoint_prefixed r domain "" key mapping endpoint _ (stage +:+ path)
             eq_refl).
    rewrite Hurl, Hid. unfold endpointURL.
    rewrite decide_False by done. by rewrite executeApiURL_slash.
  - intros endpoint rest Hurl.
    apply (domainEndpoint_prefixed r domain "" key mapping endpoint _ rest eq_refl).
    rewrite Hurl, Hid. unfold endpointURL.
    rewrite (decide_True (P := EmptyString = "")) by done. by rewrite executeApiURL_slash.
  - intros endpoint Hurl. unfold domainEndpoint.
    rewrite Hurl, Hid. unfold endpointURL.
    rewrite !(decide_True (P := EmptyString = "")) by done.
    rewrite append_nil_r, default_stage_old.
    rewrite strings_HasPrefix_longer by done. done.
Qed.

Lemma custom_domain_of_the_default_stage_witness :
  domainEndpoint "us-east-1" "api.example.com" "" "" exampleDefaultMapping
    (exampleEndpoint "https://a1b2c3.execute-api.us-east-1.amazonaws.com/prod/orders")
  = Some (Endpoint.mk "APIGatewayv2" "us-east-1" "api.example.com"
            ("https://" +:+ "api.example.com" +:+ "/" +:+ keySegment "" +:+ "prod"
               +:+ "/orders")
            443 "https" "True").
Proof.
  apply (proj1 (custom_domain_of_the_default_stage "us-east-1" "api.example.com" "a1b2c3"
                  "" exampleDefaultMapping eq_refl)
           (exampleEndpoint "https://a1b2c3.execute-api.us-east-1.amazonaws.com/prod/orders")
           "prod" "/orders").
  - done.
  - reflexivity.
Defined.

Section Gateway.

Variable sdk : APIGatewayv2Client.
Variable account : string.
Variable strings_Fields : string → list string.

Lemma routeEndpoints_result r name rawEndpoint stage routes : ∀ endpoints,
  match routeEndpoints strings_Fields r name rawEndpoint stage routes endpoints with
  | None => Exists (fun route => Route.RouteKey route = None) routes
  | Some result =>
      Forall (fun route => Route.RouteKey route ≠ None) routes
      ∧ ∃ new, result = endpoints ++ new ∧ length new = length routes
               ∧ Forall (endpoint_of strings_Fields r name rawEndpoint [stage] routes) new
  end.
Proof.
  induction routes as [|route routes IH]; intros endpoints; cbn [routeEndpoints].
  - split; [done |]. exists []. by rewrite app_nil_r.
  - destruct (Route.RouteKey route) as [routeKey|] eqn:Hkey; [| by left].
    match goal with |- context [routeEndpoints _ _ _ _ _ _ (endpoints ++ [?e])] =>
      specialize (IH (endpoints ++ [e])); set (sent := e) in * end.
    destruct (routeEndpoints _ _ _ _ _ _ _) as [result|]; [| by right].
    destruct IH as (Hkeys & new & -> & Hlen & Hall). split.
    + constructor; [by rewrite Hkey | done].
    + exists (sent :: new). rewrite <- app_assoc. split_and!; [done | by cbn; rewrite Hlen |].
      constructor.
      * exists stage, route, routeKey. split_and!; [left | left | done | done].
      * eapply Forall_impl; [exact Hall |].
        intros e (s & rt & k & Hs & Hrt & Hk & He). exists s, rt, k.
        split_and!; [done | by right | done | done].
Qed.

Lemma stageEndpoints_result r name rawEndpoint routes stages : ∀ endpoints,
  match stageEndpoints strings_Fields r name rawEndpoint stages routes endpoints with
  | None => stages ≠ [] ∧ Exists (fun route => Route.RouteKey route = None) routes
  | Some result =>
      (stages = [] ∨ Forall (fun route => Route.RouteKey route ≠ None) routes)
      ∧ ∃ new, result = endpoints ++ new
               ∧ length new = (length stages * length routes)%nat
               ∧ Forall (endpoint_of strings_Fields r name rawEndpoint stages routes) new
  end.
Proof.
  induction stages as [|stage stages IH]; intros endpoints; cbn [stageEndpoints].
  - split; [by left |]. exists []. by rewrite app_nil_r.
  - pose proof (routeEndpoints_result r name rawEndpoint stage routes endpoints) as Hroutes.
    destruct (routeEndpoints _ _ _ _ _ _ _) as [result1|]; [| done].
    destruct Hroutes as (Hkeys & new1 & -> & Hlen1 & Hall1).
    specialize (IH (endpoints ++ new1)).
    destruct (stageEndpoints _ _ _ _ _ _ _) as [result|].
    + destruct IH as (_ & new & -> & Hlen & Hall). split; [by right |].
      exists (new1 ++ new). rewrite <- app_assoc. split_and!; [done | |].
      * rewrite length_app, Hlen1, Hlen. cbn. lia.
      * apply Forall_app. split.
        -- eapply Forall_impl; [exact Hall1 |].
           intros e (s & rt & k & Hs & Hrt & Hk & He). exists s, rt, k.
           apply list_elem_of_singleton in Hs as ->.
           split_and!; [left | done | done | done].
        -- eapply Forall_impl; [exact Hall |].
           intros e (s & rt & k & Hs & Hrt & Hk & He). exists s, rt, k.
           split_and!; [by right | done | done | done].
    + destruct IH as [_ Hbad]. done.
Qed.

Lemma stage_segments (GetStages : list ApiStage.t) :
  foldl (fun stages stage => stages ++ [stageSegment (ApiStage.StageName stage)])
    [] GetStages
  = (fun stage => stageSegment (ApiStage.StageName stage)) <$> GetStages.
Proof.
  assert (∀ acc,
    foldl (fun stages stage => stages ++ [stageSegment (ApiStage.StageName stage)])
      acc GetStages
    = acc ++ ((fun stage => stageSegment (ApiStage.StageName stage)) <$> GetStages)) as Hgen.
  { induction GetStages as [|stage GetStages IH]; intros acc; cbn; [by rewrite app_nil_r |].
    by rewrite IH, <- app_assoc. }
  apply (Hgen []).
Qed.

End Gateway.

(** X22: the endpoints of one HTTP API.  [getEndpointsPerAPIGatewayv2]
    panics exactly when the API has a stage and one of its routes has no
    route key; otherwise it returns one endpoint for each stage and route,
    whose URL is made of the endpoint of the API, the stage (nothing for
    [$default]) and the path of the route, the second field of its key when
    the key has two fields and nothing otherwise.  An API without stage or
    without route yields no endpoint. *)
Theorem one_endpoint_per_stage_and_route sdk account strings_Fields st r api :
  let id := ptr_ToString (Api.ApiId api) in
  let GetStages := (CachedAPIGatewayv2GetStages sdk account r id).1 in
  let GetRoutes := (CachedAPIGatewayv2GetRoutes sdk account r id).1 in
  let result := (getEndpointsPerAPIGatewayv2 sdk account strings_Fields st r api).1 in
  (result = None ↔
     GetStages ≠ [] ∧ Exists (fun route => Route.RouteKey route = None) GetRoutes)
  ∧ ∀ endpoints, result = Some endpoints →
      length endpoints = (length GetStages * length GetRoutes)%nat
      ∧ Forall (fun endpoint =>
                  ∃ stage route routeKey,
                    stage ∈ GetStages ∧ route ∈ GetRoutes
                    ∧ Route.RouteKey route = Some routeKey
                    ∧ endpoint
                      = Endpoint.mk "APIGatewayv2" r (ptr_ToString (Api.Name api))
                          (endpointURL (ptr_ToString (Api.ApiEndpoint api))
                             (stageSegment (ApiStage.StageName stage))
                             (routePath strings_Fields routeKey))
                          443 "https" "True")
          endpoints.
Proof.
  cbn zeta. unfold getEndpointsPerAPIGatewayv2.
  destruct (CachedAPIGatewayv2GetStages sdk account r (ptr_ToString (Api.ApiId api)))
    as [GetStages e1].
  destruct (CachedAPIGatewayv2GetRoutes sdk account r (ptr_ToString (Api.ApiId api)))
    as [GetRoutes e2].
  cbn [fst snd]. rewrite stage_segments.
  pose proof (stageEndpoints_result strings_Fields r (ptr_ToString (Api.Name api))
                (ptr_ToString (Api.ApiEndpoint api)) GetRoutes
                ((fun stage => stageSegment (ApiStage.StageName stage)) <$> GetStages) [])
    as Hresult.
  destruct (stageEndpoints _ _ _ _ _ _ _) as [result|].
  - destruct Hresult as (Hok & new & -> & Hlen & Hall). split.
    + split; [done |]. intros [Hstages Hbad]. destruct Hok as [Hnil | Hkeys].
      * by apply fmap_nil_inv in Hnil.
      * apply Exists_exists in Hbad as (route & Hin & Hnone).
        rewrite Forall_forall in Hkeys. by destruct (Hkeys route Hin).
    + intros endpoints [= <-]. cbn [app]. split.
      * by rewrite Hlen, length_fmap.
      * eapply Forall_impl; [exact Hall |].
        intros e (s & rt & k & Hs & Hrt & Hk & He).
        apply list_elem_of_fmap in Hs as (stage & -> & Hstage).
        by exists stage, rt, k.
  - destruct Hresult as [Hstages Hbad]. split; [| done].
    split; [| done]. intros _. split; [| done].
    intros Hnil. apply Hstages. by rewrite Hnil.
Qed.

(** X23: the loop over the custom domains ends at the first domain whose
    mappings cannot be fetched.  The endpoints sent for the domains before it
    stay, the error is recorded, and the domains after it are never looked
    at, whatever they are. *)
Theorem domains_after_a_failed_lookup_are_skipped
    sdk account strings_Fields st r Items before item after mappings err :
  Forall (fun d => (CachedAPIGatewayv2GetApiMappings sdk account r
                      (ptr_ToString (DomainName.DomainName d))).2 = None) before →
  CachedAPIGatewayv2GetApiMappings sdk account r
    (ptr_ToString (DomainName.DomainName item)) = (mappings, Some err) →
  domainEndpoints sdk account strings_Fields st r Items (before ++ item :: after)
    = st' ← domainEndpoints sdk account strings_Fields st r Items before;
      Some (endpoints_error r err st').
Proof.
  intros Hbefore Hfail. revert st.
  induction before as [|d before IH]; intros st; cbn [app domainEndpoints].
  - by rewrite Hfail.
  - apply Forall_cons in Hbefore as [Hd Hbefore].
    destruct (CachedAPIGatewayv2GetApiMappings sdk account r
                (ptr_ToString (DomainName.DomainName d))) as [ms e].
    cbn in Hd. subst e.
    destruct (foldl _ (Some st) ms) as [st1|]; cbn; [by apply IH | done].
Qed.

Lemma domains_after_a_failed_lookup_are_skipped_witness :
  domainEndpoints exampleGateway "111111111111" exampleFields emptyEndpoints "us-east-1"
    [exampleApi]
    ([] ++ DomainName.mk (Some "broken.example.com")
          :: [DomainName.mk (Some "api.example.com")])
  = st' ← domainEndpoints exampleGateway "111111111111" exampleFields emptyEndpoints
            "us-east-1" [exampleApi] [];
    Some (endpoints_error "us-east-1"
            {| Error_text := "throttled"; OperationError := None |} st').
Proof.
  apply (domains_after_a_failed_lookup_are_skipped exampleGateway "111111111111"
           exampleFields emptyEndpoints "us-east-1" [exampleApi] []
           (DomainName.mk (Some "broken.example.com"))
           [DomainName.mk (Some "api.example.com")] []).
  - constructor.
  - reflexivity.
Defined.

(** * The location of the result file, the ledger keys, the merged vertices *)

(** C9: the location the viewer computes for a run is [filepath.Join] of the
    run's output location, [json] and a file name chosen by the admin-only
    flag alone; it is a path whose last two elements are [json] and
    [inbound-privesc-paths-admin-targets-only.json] when the flag is set,
    [json] and [inbound-privesc-paths-all-targets.json] otherwise.  The
    viewer recomputes it: run on one profile with that output location it
    hands exactly this path to the interface when the file exists (and exits
    with status 1 when it does not); run on a list of profiles whose files
    exist it hands over the paths of the profiles, in order; and whatever it
    hands over is that path for a profile of its list. *)
Theorem result_file_location (outputLocation : string) (capeAdminOnly : bool) :
  let name :=
    if capeAdminOnly then "inbound-privesc-paths-admin-targets-only.json"
    else "inbound-privesc-paths-all-targets.json" in
  capeOutputFileLocation outputLocation capeAdminOnly
    = filepath.Join [outputLocation; "json"; name]
  ∧ (∃ dir, capeOutputFileLocation outputLocation capeAdminOnly = dir +:+ "json/" +:+ name
            ∧ (dir = "" ∨ ∃ d, dir = d +:+ "/"))
  ∧ (∀ w profile,
       InitializeCloudFoxRunData w profile = Some outputLocation →
       runCapeTUICommand w capeAdminOnly [profile]
         = if FileExists w (capeOutputFileLocation outputLocation capeAdminOnly)
           then CapeTUI [capeOutputFileLocation outputLocation capeAdminOnly]
           else TuiExited 1)
  ∧ (∀ w profiles,
       (∀ p location, p ∈ profiles → resultFile w capeAdminOnly p = Some location →
                      FileExists w location = true) →
       runCapeTUICommand w capeAdminOnly profiles
         = match omap (resultFile w capeAdminOnly) profiles with
           | [] => TuiExited 1
           | locations => CapeTUI locations
           end)
  ∧ (∀ w profiles locations,
       runCapeTUICommand w capeAdminOnly profiles = CapeTUI locations →
       ∀ location, location ∈ locations →
         ∃ profile out,
           profile ∈ profiles ∧ InitializeCloudFoxRunData w profile = Some out
           ∧ location = capeOutputFileLocation out capeAdminOnly).
Proof.
  intros name.
  assert (fileName capeAdminOnly = name) as Hname by (by destruct capeAdminOnly).
  split_and!.
  - unfold capeOutputFileLocation. by rewrite Hname.
  - unfold capeOutputFileLocation. rewrite Hname.
    destruct (decide (outputLocation = "")) as [->|Hout].
    + exists "". split; [| by left]. subst name. by destruct capeAdminOnly.
    + unfold filepath.Join. rewrite decide_False by done.
      assert (String.concat "/" [outputLocation; "json"; name]
              = outputLocation +:+ String "/" ("json/" +:+ name)) as -> by done.
      destruct (Clean_keeps_last_two outputLocation ("json/" +:+ name) "json" name Hout)
        as (dir & -> & Hdir).
      * subst name. by destruct capeAdminOnly.
      * done.
      * subst name. by destruct capeAdminOnly.
      * exists dir. split; [done | done].
  - intros w profile Hinit. unfold runCapeTUICommand.
    cbn [length seq tuiLoop]. unfold tuiProfile. cbn [backing lookup list_lookup].
    rewrite Hinit. cbn [capeOutputFileLocations len_AWSProfiles app].
    destruct (FileExists w (capeOutputFileLocation outputLocation capeAdminOnly)).
    + cbn. done.
    + rewrite decide_False by lia. done.
  - intros w profiles Hfiles. unfold runCapeTUICommand.
    rewrite tuiLoop_with_files; cbn [backing capeOutputFileLocations]; [| done |].
    + rewrite omap_lookup_seq by done. rewrite drop_0, firstn_all. cbn.
      destruct (omap _ profiles); done.
    + intros i Hi. apply elem_of_seq in Hi. lia.
  - intros w profiles locations Hrun. by eapply runCapeTUICommand_located.
Qed.

Lemma result_file_location_witness :
  runCapeTUICommand exampleWorld true ["dev"]
    = if FileExists exampleWorld (capeOutputFileLocation "cloudfox-output/aws/dev" true)
      then CapeTUI [capeOutputFileLocation "cloudfox-output/aws/dev" true]
      else TuiExited 1.
Proof.
  apply (proj1 (proj2 (proj2 (result_file_location "cloudfox-output/aws/dev" true)))
           exampleWorld "dev").
  reflexivity.
Defined.

(** C10, as stated, at a run whose only profile has a caller identity
    without account ID: the first loop files the profile under the key
    [ptr.ToString(caller.Account)], which is the empty string. *)
Lemma ledger_key_can_be_empty :
  ¬ ledger_keys_nonempty
      (final (runCapeCommand exampleWorldNoAccount examplePackage exampleFlagsAnon [])).
Proof. vm_compute. discriminate. Qed.

(** C10, amended: a merged node whose account ID is the empty string adds no
    entry to the ledger, whatever its vendor name and whatever the ledger
    holds, so the vertex loop never creates the key [""].  Every key of the
    ledger of a run is the account ID of the caller identity of a profile or
    a non-empty account ID; an entry under [""] is never a discovered one
    and exists only for a profile whose caller identity has an empty account
    ID; when every caller identity carries a non-empty account ID, the ledger
    has no entry under [""]. *)
Theorem empty_account_id_never_discovered w pkg flags :
  (∀ st node,
     Node.AccountID node = "" →
     analyzedAccounts (insertVertex flags st node) = analyzedAccounts st)
  ∧ (∀ st nodes,
       analyzedAccounts st !! "" = None →
       analyzedAccounts (foldl (insertVertex flags) st nodes) !! "" = None)
  ∧ (∀ input k,
       is_Some (analyzedAccounts (final (runCapeCommand w pkg flags input)) !! k) →
       profileAccount w flags k ∨ k ≠ "")
  ∧ (∀ input job,
       analyzedAccounts (final (runCapeCommand w pkg flags input)) !! "" = Some job →
       CapeJobInfo.Source job ≠ "cloudfox"
       ∧ ∃ profile caller,
           profile ∈ AWSProfiles flags ∧ AWSWhoami w profile = Some caller
           ∧ ptr_ToString (Account caller) = "")
  ∧ (∀ input,
       (∀ profile caller,
          profile ∈ AWSProfiles flags → AWSWhoami w profile = Some caller →
          ptr_ToString (Account caller) ≠ "") →
       analyzedAccounts (final (runCapeCommand w pkg flags input)) !! "" = None).
Proof.
  split_and!.
  - intros st node Ha. rewrite insertVertex_ledger.
    rewrite decide_False; [done | intros (_ & _ & ?); done].
  - intros st nodes Hfree.
    destruct (insertVertices_ledger flags nodes st "") as [_ Hn].
    destruct (Hn Hfree) as [Hnone | (_ & Hne & _)]; done.
  - intros input k Hk. by apply (run_keys_accounted w pkg flags input k).
  - intros input job Hjob. split.
    + destruct (run_ledger_shaped w pkg flags input "" job Hjob)
        as [(p & c & _ & _ & _ & _ & ->) | [-> | [_ Hne]]]; done.
    + destruct (run_keys_accounted w pkg flags input "") as [Hp | Hne];
        [by eexists | exact Hp | done].
  - intros input Hprofiles.
    destruct (analyzedAccounts (final (runCapeCommand w pkg flags input)) !! "")
      as [job|] eqn:Hk; [| done].
    destruct (run_keys_accounted w pkg flags input "") as [(p & c & Hp & Hw & He) | Hne];
      [by eexists | | done].
    exfalso. by eapply Hprofiles.
Qed.

Lemma empty_account_id_never_discovered_witness :
  analyzedAccounts (final (runCapeCommand exampleWorld examplePackage exampleFlags ["y"]))
    !! "" = None.
Proof.
  apply (proj2 (proj2 (proj2 (proj2 (empty_account_id_never_discovered exampleWorld
                                       examplePackage exampleFlags)))) ["y"]).
  intros profile caller Hin Hw.
  apply elem_of_cons in Hin as [->|Hin].
  - vm_compute in Hw. injection Hw as <-. vm_compute. discriminate.
  - apply list_elem_of_singleton in Hin as ->.
    vm_compute in Hw. injection Hw as <-. vm_compute. discriminate.
Defined.

(** ** The vertices of the assembled graph *)

Lemma collect_graph w pkg flags input st :
  collect w pkg flags input = Completed st →
  GlobalGraph st = graph.New ∧ GlobalNodes st = GlobalNodes st.
Proof.
  unfold collect. intros Hrun. split; [| done].
  destruct (registerProfiles_frame w flags (AWSProfiles flags) (initial input))
    as (_ & _ & _ & Hg1 & _).
  destruct (importPmappers_frame w flags (AWSProfiles flags)
              (foldl (registerProfile w flags) (initial input) (AWSProfiles flags)))
    as (_ & _ & Hg2).
  destruct (forRange _ _ _) as [st2|code st2]; cbn in *; [| done].
  injection Hrun as <-.
  destruct (collectProfiles_frame w pkg (AWSProfiles flags) st2) as (_ & -> & _).
  by rewrite Hg2, Hg1.
Qed.

Lemma addPmapperEdges_vertices edges : ∀ st,
  graph.vertices (GlobalGraph (foldl addPmapperEdge st edges))
    = graph.vertices (GlobalGraph st).
Proof.
  induction edges as [|edge edges IH]; intros st; cbn [foldl]; [done |].
  by rewrite IH, addPmapperEdge_vertices.
Qed.

Lemma makeRoleEdges_vertices pkg nodes : ∀ st,
  edges_only pkg →
  graph.vertices (GlobalGraph (foldl (makeRoleEdges pkg) st nodes))
    = graph.vertices (GlobalGraph st).
Proof.
  induction nodes as [|node nodes IH]; intros st Hedges; cbn [foldl]; [done |].
  rewrite IH by done. unfold makeRoleEdges. case_decide; [| done]. cbn. apply Hedges.
Qed.

(** After the assembly a vertex is there unless the ignore-list names it, and
    it is the vertex of the vertex loop. *)
Lemma assemble_vertices w pkg flags st arn :
  edges_only pkg →
  graph.edges (GlobalGraph st) = ∅ →
  graph.vertices (GlobalGraph (assemble w pkg flags st)) !! arn
    = if decide (arn ∈ ignoredArns w flags) then None
      else graph.vertices (GlobalGraph (assembleVertices pkg flags st)) !! arn.
Proof.
  intros Hedges Hempty. unfold assemble, assembleRoleEdges, assembleEdges.
  rewrite makeRoleEdges_vertices by done. rewrite addPmapperEdges_vertices.
  destruct (applyIgnoreList_graph w flags (assembleVertices pkg flags st))
    as (_ & Hin & Hout).
  { unfold assembleVertices. by rewrite insertVertices_edges. }
  case_decide; [by apply Hin | by apply Hout].
Qed.

Lemma merged_lookup nodes arn node :
  foldl mergeInto ∅ nodes !! arn = Some node ↔
  node ∈ MergeNodes_spec nodes ∧ Node.Arn node = arn.
Proof.
  destruct (merge_fold nodes ∅) as [Hkeyed _]; [by intros k n Hk |].
  unfold MergeNodes_spec. split.
  - intros Hlook. split; [| by apply Hkeyed].
    apply list_elem_of_fmap. exists (arn, node). split; [done |].
    by apply elem_of_map_to_list.
  - intros [Hin <-]. apply list_elem_of_fmap in Hin as ([k n] & -> & Hin).
    apply elem_of_map_to_list in Hin. cbn. by rewrite (Hkeyed k n Hin).
Qed.

(** The vertex loop on the empty graph: the vertex of an ARN carries the
    attributes of the merged node of that ARN. *)
Lemma merged_vertices pkg analysis flags st arn :
  graph.vertices (GlobalGraph st) = ∅ →
  graph.vertices (GlobalGraph (assembleVertices (specPackage pkg analysis) flags st)) !! arn
    = vertexAttributesOf <$> (foldl mergeInto ∅ (GlobalNodes st) !! arn).
Proof.
  intros Hempty. unfold assembleVertices. cbn [MergeNodes specPackage].
  destruct (insertVertices_vertices flags (MergeNodes_spec (GlobalNodes st))
    (emit (CallMergeNodes (GlobalNodes st)) st) (MergeNodes_spec_NoDup (GlobalNodes st)))
    as [Hin Hout].
  { intros node _. cbn. rewrite Hempty. apply lookup_empty. }
  cbn in Hout. rewrite Hempty in Hout.
  destruct (foldl mergeInto ∅ (GlobalNodes st) !! arn) as [node|] eqn:Hlook; cbn.
  - apply merged_lookup in Hlook as [Hnode <-]. by apply Hin.
  - rewrite Hout; [apply lookup_empty |].
    intros Harn. apply list_elem_of_fmap in Harn as (node & -> & Hnode).
    assert (foldl mergeInto ∅ (GlobalNodes st) !! Node.Arn node = Some node) as Hsome
      by by apply merged_lookup.
    congruence.
Qed.

(** The vertices of the graph a completed run assembles. *)
Lemma run_vertices w pkg analysis flags input st arn :
  edges_only pkg →
  runCapeCommand w (specPackage pkg analysis) flags input = Completed st →
  graph.vertices (GlobalGraph st) !! arn
    = if decide (arn ∈ ignoredArns w flags) then None
      else vertexAttributesOf <$> (foldl mergeInto ∅ (GlobalNodes st) !! arn).
Proof.
  intros Hedges Hrun. unfold runCapeCommand in Hrun.
  destruct (collect w (specPackage pkg analysis) flags input) as [st0|code st0] eqn:Hcollect;
    cbn [andThen] in Hrun; [| done].
  injection Hrun as <-.
  destruct (collect_graph _ _ _ _ _ Hcollect) as [Hgraph _].
  rewrite assemble_vertices; [| exact Hedges | by rewrite Hgraph].
  rewrite assemble_GlobalNodes. case_decide; [done |].
  apply merged_vertices. by rewrite Hgraph.
Qed.

Lemma merged_dom nodes arn :
  is_Some (foldl mergeInto ∅ nodes !! arn) ↔ arn ∈ Node.Arn <$> nodes.
Proof.
  rewrite <- MergeNodes_spec_elem. split.
  - intros [node Hnode]. apply merged_lookup in Hnode as [Hin <-].
    apply list_elem_of_fmap. by exists node.
  - intros Harn. apply list_elem_of_fmap in Harn as (node & -> & Hin).
    exists node. by apply merged_lookup.
Qed.

(** A run on two profiles of which one lists a role that its escalation data
    holds as well: four nodes are collected, with three ARNs, and the graph
    has three vertices. *)
Example example_run_shared :
  let st := final (runCapeCommand exampleWorldShared examplePackage exampleFlags ["y"]) in
  length (GlobalNodes st) = 4%nat ∧ size (graph.vertices (GlobalGraph st)) = 3.
Proof. split; vm_compute; reflexivity. Qed.

(** C8, as stated, at the run with the ignore-list: the ARN of the role
    [admin] is collected, and the assembled graph has no vertex for it. *)
Lemma ignored_arn_has_no_vertex :
  ¬ one_vertex_per_arn
      (final (runCapeCommand exampleWorld examplePackage exampleFlagsIgnoring ["y"])).
Proof.
  intros Hclaim.
  destruct (proj1 (Hclaim "arn:aws:iam::222222222222:role/admin")) as [attrs Hattrs].
  - vm_compute. repeat first [left | right].
  - vm_compute in Hattrs. discriminate.
Qed.

(** C8, amended: for every input node sequence the merge returns exactly one
    node per distinct ARN of the input: the ARNs of the output are pairwise
    different, they are the ARNs of the input, and there are as many nodes as
    distinct ARNs.  In a completed run, where [MakeRoleEdges] adds edges
    only, the assembled graph has exactly one vertex for each collected ARN
    that the ignore-list does not name, with the attributes of its merged
    node, and no other vertex. *)
Theorem merge_one_node_per_arn nodes :
  NoDup (Node.Arn <$> MergeNodes_spec nodes)
  ∧ (∀ arn, arn ∈ Node.Arn <$> MergeNodes_spec nodes ↔ arn ∈ Node.Arn <$> nodes)
  ∧ length (MergeNodes_spec nodes) = size (list_to_set (Node.Arn <$> nodes) : gset string)
  ∧ ∀ w pkg analysis flags input st,
      edges_only pkg →
      runCapeCommand w (specPackage pkg analysis) flags input = Completed st →
      GlobalNodes st = nodes →
      let g := GlobalGraph st in
      (∀ arn, is_Some (graph.vertices g !! arn)
              ↔ arn ∈ Node.Arn <$> nodes ∧ arn ∉ ignoredArns w flags)
      ∧ (∀ node, node ∈ MergeNodes_spec nodes → Node.Arn node ∉ ignoredArns w flags →
           graph.vertices g !! Node.Arn node = Some (vertexAttributesOf node))
      ∧ size (graph.vertices g)
        = size (list_to_set (Node.Arn <$> nodes) ∖ list_to_set (ignoredArns w flags)
                : gset string).
Proof.
  split_and!; [apply MergeNodes_spec_NoDup | apply MergeNodes_spec_elem
              | apply MergeNodes_spec_length |].
  intros w pkg analysis flags input st Hedges Hrun Hnodes g. subst g.
  assert (∀ arn, is_Some (graph.vertices (GlobalGraph st) !! arn)
                 ↔ arn ∈ Node.Arn <$> nodes ∧ arn ∉ ignoredArns w flags) as Hiff.
  { intros arn. rewrite (run_vertices w pkg analysis flags input st arn Hedges Hrun).
    rewrite Hnodes. case_decide as Hign.
    - split; [by intros [? ?] | by intros [_ ?]].
    - rewrite fmap_is_Some, merged_dom. split; [done | by intros [? _]]. }
  split_and!; [done | |].
  - intros node Hnode Hign.
    rewrite (run_vertices w pkg analysis flags input st _ Hedges Hrun).
    rewrite decide_False by done. rewrite Hnodes.
    assert (foldl mergeInto ∅ nodes !! Node.Arn node = Some node) as ->
      by by apply merged_lookup.
    done.
  - rewrite <- size_dom. f_equal. apply set_eq. intros arn.
    rewrite elem_of_dom, elem_of_difference, !elem_of_list_to_set. apply Hiff.
Qed.

Lemma merge_one_node_per_arn_witness :
  size (graph.vertices
          (GlobalGraph
             (final (runCapeCommand exampleWorldShared examplePackage exampleFlags ["y"]))))
  = size (list_to_set
            (Node.Arn <$> GlobalNodes
               (final (runCapeCommand exampleWorldShared examplePackage exampleFlags ["y"])))
          ∖ list_to_set (ignoredArns exampleWorldShared exampleFlags) : gset string).
Proof.
  destruct (merge_one_node_per_arn
    (GlobalNodes
       (final (runCapeCommand exampleWorldShared examplePackage exampleFlags ["y"]))))
    as (_ & _ & _ & Hrun).
  destruct (Hrun exampleWorldShared examplePackage (fun _ => (false, false)) exampleFlags
              ["y"]
              (final (runCapeCommand exampleWorldShared examplePackage exampleFlags ["y"])))
    as (_ & _ & Hsize).
  - intros node g. reflexivity.
  - vm_compute. reflexivity.
  - reflexivity.
  - exact Hsize.
Defined.

(** ** The risk fields of a vertex *)

Lemma mergeRisk_unknown a b :
  readRisk (mergeRisk a b) = RiskUnknown
  ↔ readRisk a = RiskUnknown ∧ readRisk b = RiskUnknown.
Proof.
  unfold mergeRisk.
  destruct (decide (readRisk a = RiskTrue)) as [Ha | Ha].
  { rewrite Ha. split; [done | by intros [? _]]. }
  destruct (decide (readRisk b = RiskTrue)) as [Hb | Hb].
  { rewrite Hb. split; [done | by intros [_ ?]]. }
  destruct (decide (readRisk a = RiskFalse)) as [Ha' | Ha'].
  { rewrite Ha'. split; [done | by intros [? _]]. }
  destruct (decide (readRisk b = RiskFalse)) as [Hb' | Hb'].
  { rewrite Hb'. split; [done | by intros [_ ?]]. }
  assert (readRisk a = RiskUnknown) as Hua by (by destruct (readRisk a)).
  assert (readRisk b = RiskUnknown) as Hub by (by destruct (readRisk b)).
  unfold firstNonEmpty. case_decide; by rewrite ?Hua, ?Hub.
Qed.

(** The merged node of an ARN reads unknown in a risk field exactly when
    every node of that ARN does. *)
Lemma merged_field (f : Node.t → string) :
  (∀ seen new, f (mergeNode seen new) = mergeRisk (f seen) (f new)) →
  ∀ nodes arn node,
    foldl mergeInto ∅ nodes !! arn = Some node →
    (readRisk (f node) = RiskUnknown
     ↔ ∀ n, n ∈ nodes → Node.Arn n = arn → readRisk (f n) = RiskUnknown).
Proof.
  intros Hf nodes.
  induction nodes as [|x nodes IH] using rev_ind; intros arn node Hlook.
  { cbn in Hlook. by rewrite lookup_empty in Hlook. }
  rewrite foldl_app in Hlook. cbn [foldl] in Hlook.
  remember (foldl mergeInto ∅ nodes) as m eqn:Hm0. unfold mergeInto in Hlook.
  destruct (decide (Node.Arn x = arn)) as [Hx | Hx].
  - rewrite Hx, lookup_insert_eq in Hlook.
    destruct (m !! arn) as [seen|] eqn:Hseen; cbv beta iota in Hlook.
    + assert (node = mergeNode seen x) as -> by congruence.
      rewrite Hf. pose proof (mergeRisk_unknown (f seen) (f x)) as Hm.
      pose proof (IH arn seen Hseen) as Hs. split.
      * intros H. apply Hm in H as [H1 H2]. intros n Hin Harn.
        apply elem_of_app in Hin as [Hin | Hin]; [by apply Hs |].
        by apply list_elem_of_singleton in Hin as ->.
      * intros Hall. apply Hm. split.
        -- apply Hs. intros n Hin. apply Hall, elem_of_app. by left.
        -- apply Hall; [| done]. apply elem_of_app. right. left.
    + assert (∀ n, n ∈ nodes → Node.Arn n ≠ arn) as Hfresh.
      { intros n Hin Harn.
        assert (is_Some (m !! arn)) as [? ?]; [| congruence].
        rewrite Hm0. apply merged_dom. apply list_elem_of_fmap. by exists n. }
      assert (node = x) as -> by congruence.
      split.
      * intros Hn n Hin Harn. apply elem_of_app in Hin as [Hin | Hin].
        -- by destruct (Hfresh n Hin).
        -- by apply list_elem_of_singleton in Hin as ->.
      * intros Hall. apply Hall; [| done]. apply elem_of_app. right. left.
  - rewrite lookup_insert_ne in Hlook by done.
    pose proof (IH arn node Hlook) as Hs. split.
    + intros H n Hin Harn. apply elem_of_app in Hin as [Hin | Hin]; [by apply Hs |].
      apply list_elem_of_singleton in Hin as ->. done.
    + intros Hall. apply Hs. intros n Hin. apply Hall, elem_of_app. by left.
Qed.

Lemma merged_risk nodes arn node :
  foldl mergeInto ∅ nodes !! arn = Some node →
  (readRisk (Node.IsAdminString node) = RiskUnknown
   ↔ ∀ n, n ∈ nodes → Node.Arn n = arn → readRisk (Node.IsAdminString n) = RiskUnknown)
  ∧ (readRisk (Node.CanPrivEscToAdminString node) = RiskUnknown
     ↔ ∀ n, n ∈ nodes → Node.Arn n = arn →
            readRisk (Node.CanPrivEscToAdminString n) = RiskUnknown).
Proof.
  intros Hlook. split.
  - by apply (merged_field Node.IsAdminString).
  - by apply (merged_field Node.CanPrivEscToAdminString).
Qed.

Lemma vertexRisk_of_node g arn node :
  graph.vertices g !! arn = Some (vertexAttributesOf node) →
  vertexRisk g arn "IsAdminString" = readRisk (Node.IsAdminString node)
  ∧ vertexRisk g arn "CanPrivEscToAdminString"
    = readRisk (Node.CanPrivEscToAdminString node).
Proof.
  intros Hv. unfold vertexRisk. rewrite Hv.
  destruct (vertexAttributesOf_lookup node) as (_ & _ & _ & -> & -> & _). done.
Qed.

(** In the graph a completed run assembles, a vertex reads unknown in a risk
    field exactly when every collected node of its ARN does. *)
Lemma run_vertex_risk w pkg analysis flags input st arn :
  edges_only pkg →
  runCapeCommand w (specPackage pkg analysis) flags input = Completed st →
  is_Some (graph.vertices (GlobalGraph st) !! arn) →
  (vertexRisk (GlobalGraph st) arn "IsAdminString" = RiskUnknown
   ↔ ∀ n, n ∈ GlobalNodes st → Node.Arn n = arn →
          readRisk (Node.IsAdminString n) = RiskUnknown)
  ∧ (vertexRisk (GlobalGraph st) arn "CanPrivEscToAdminString" = RiskUnknown
     ↔ ∀ n, n ∈ GlobalNodes st → Node.Arn n = arn →
            readRisk (Node.CanPrivEscToAdminString n) = RiskUnknown).
Proof.
  intros Hedges Hrun [attrs Hattrs].
  pose proof (run_vertices w pkg analysis flags input st arn Hedges Hrun) as Hv.
  rewrite Hattrs in Hv. case_decide; [done |].
  destruct (foldl mergeInto ∅ (GlobalNodes st) !! arn) as [node|] eqn:Hnode; [| done].
  cbn in Hv. injection Hv as ->.
  destruct (vertexRisk_of_node (GlobalGraph st) arn node Hattrs) as [-> ->].
  by apply merged_risk.
Qed.

(** ** The roles of an account whose collection failed *)

Section Unknown.

Variable w : World.
Variable pkg : CapePackage.
Variable analysis : Role → bool * bool.
Variable flags : Flags.
Variable arn : string.

Hypothesis others :
  ∀ node, other_source w (specPackage pkg analysis) flags node →
          Node.Arn node = arn → reads_unknown node.

Lemma flagged_insert account st k :
  flagged account st →
  <[k := unsuccessfulJob]> (analyzedAccounts st) !! account = Some unsuccessfulJob.
Proof.
  intros Hflag. destruct (decide (k = account)) as [-> | Hne].
  - apply lookup_insert_eq.
  - by rewrite lookup_insert_ne.
Qed.

Lemma collectProfile_unknown st profile :
  profile ∈ AWSProfiles flags →
  modules_imported w flags st →
  all_unknown arn st →
  (flagged (accountOfArn arn) st
   ∨ lists_no_role w arn profile
   ∨ ∃ caller, AWSWhoami w profile = Some caller
               ∧ PermissionsRows w caller profile = None
               ∧ ptr_ToString (Account caller) = accountOfArn arn) →
  all_unknown arn (collectProfile w (specPackage pkg analysis) st profile).
Proof.
  intros Hprofile Hmodules Hst Hcase. unfold all_unknown, collectProfile.
  destruct (AWSWhoami w profile) as [caller|] eqn:Hwho; [| done].
  apply (appendUsers_sound (specPackage pkg analysis)
           (fun node => Node.Arn node = arn → reads_unknown node)).
  2:{ intros user Huser. apply others. right. right. by exists profile, caller, user. }
  apply (appendRoles_sound w (specPackage pkg analysis)
           (fun node => Node.Arn node = arn → reads_unknown node)).
  - intros node Hin. cbn in Hin. apply elem_of_app in Hin as [Hin | Hin].
    + apply Hst. by destruct (PermissionsRows w caller profile).
    + assert (pmapperData
                match PermissionsRows w caller profile with
                | Some rows => append_PermissionRows rows st
                | None => set_analyzedAccounts
                            <[ptr_ToString (Account caller) := unsuccessfulJob]> st
                end = pmapperData st) as Hdata
        by by destruct (PermissionsRows w caller profile).
      rewrite Hdata in Hin.
      destruct (pmapperData st !! profile) as [pmapperMod|] eqn:Hmod; cbn in Hin.
      * destruct (Hmodules profile pmapperMod Hmod) as (_ & caller' & Hwho' & Hinit).
        apply others. left. by exists profile, caller', pmapperMod.
      * by apply elem_of_nil in Hin.
  - intros role Hrole. cbn zeta. split.
    + intros Harn.
      change (ConvertIAMRoleToNode (specPackage pkg analysis))
        with (ConvertIAMRoleToNode_spec analysis) in *.
      assert (RoleArn role = arn) as Hra by exact Harn.
      match goal with |- reads_unknown (ConvertIAMRoleToNode_spec analysis role _ ?L) =>
        destruct (ConvertIAMRoleToNode_spec_unknown analysis role (vendors w) L)
          as (_ & _ & H3 & H4); [| by split] end.
      intros job Hjob. rewrite Hra in Hjob.
      cbn [analyzedAccounts append_GlobalPmapperEdges append_GlobalNodes] in Hjob.
      destruct Hcase as [Hflag | [Hnone | (caller' & Hwho' & Hrows & Hacct)]].
      * destruct (PermissionsRows w caller profile);
          cbn [analyzedAccounts append_PermissionRows set_analyzedAccounts] in Hjob.
        -- unfold flagged in Hflag. rewrite Hflag in Hjob. by injection Hjob as <-.
        -- rewrite (flagged_insert _ _ _ Hflag) in Hjob. by injection Hjob as <-.
      * by destruct (Hnone caller role Hwho Hrole).
      * injection Hwho' as <-. rewrite Hrows in Hjob.
        cbn [analyzedAccounts set_analyzedAccounts] in Hjob.
        rewrite <- Hacct, lookup_insert_eq in Hjob. by injection Hjob as <-.
    + intros v Hv. apply others. right. left.
      eexists profile, caller, role, _. split_and!; [done | done | done |].
      exact Hv.
Qed.

Lemma collectProfile_modules st profile :
  modules_imported w flags st →
  modules_imported w flags (collectProfile w (specPackage pkg analysis) st profile).
Proof.
  intros Hm p pmapperMod Hlook.
  destruct (collectProfile_frame w (specPackage pkg analysis) st profile) as (Hdata & _).
  rewrite Hdata in Hlook. by apply Hm.
Qed.

Lemma collect_all_unknown input st before profile after caller :
  collect w (specPackage pkg analysis) flags input = Completed st →
  AWSProfiles flags = before ++ profile :: after →
  AWSWhoami w profile = Some caller →
  collectionFails w flags profile caller →
  ptr_ToString (Account caller) = accountOfArn arn →
  (importFails w flags caller ∨ ∀ q, q ∈ before → lists_no_role w arn q) →
  all_unknown arn st.
Proof.
  intros Hrun Hsplit Hwho Hfail Hacct Hearlier. unfold collect in Hrun.
  assert (profile ∈ AWSProfiles flags) as Hin.
  { rewrite Hsplit. apply elem_of_app. right. left. }
  pose proof (importPmappers_modules_imported w flags (AWSProfiles flags)
                (foldl (registerProfile w flags) (initial input) (AWSProfiles flags))
                (fun p Hp => Hp)) as Hmodules.
  pose proof (importPmappers_frame w flags (AWSProfiles flags)
                (foldl (registerProfile w flags) (initial input) (AWSProfiles flags)))
    as (Hnodes & _).
  destruct (registerProfiles_frame w flags (AWSProfiles flags) (initial input))
    as (Hdata0 & Hnodes0 & _).
  destruct (forRange _ _ _) as [st2|code st2] eqn:Himport; cbn [andThen final] in *;
    [| done].
  injection Hrun as <-.
  assert (modules_imported w flags st2) as Hm2.
  { apply Hmodules. intros p m Hlook. rewrite Hdata0 in Hlook. cbn in Hlook.
    by rewrite lookup_empty in Hlook. }
  assert (all_unknown arn st2) as Hu2.
  { intros node Hnode. rewrite Hnodes, Hnodes0 in Hnode. cbn in Hnode.
    by apply elem_of_nil in Hnode. }
  assert (importFails w flags caller → flagged (accountOfArn arn) st2) as Hf2.
  { intros [err Herr]. unfold flagged. rewrite <- Hacct.
    eapply (forRange_establishes
              (fun s => analyzedAccounts s !! ptr_ToString (Account caller)
                        = Some unsuccessfulJob) _ _ profile Hin); [| | exact Himport].
    - intros s s' Hs. pose proof (importPmapper_ledger w flags s profile) as Hl.
      rewrite Hs, Hwho, Herr in Hl. cbn in Hl. rewrite Hl. apply lookup_insert_eq.
    - intros s y s' Hq Hy. pose proof (importPmapper_keeps_flag w flags _ s y Hq) as Hk.
      by rewrite Hy in Hk. }
  clear Himport Hmodules Hnodes Hnodes0 Hdata0.
  rewrite Hsplit, foldl_app. cbn [foldl].
  set (J := fun s : CapeState =>
    modules_imported w flags s ∧ all_unknown arn s
    ∧ (importFails w flags caller → flagged (accountOfArn arn) s)).
  assert (J (foldl (collectProfile w (specPackage pkg analysis)) st2 before)) as (Hm & Hu & Hf).
  { apply (foldl_invariant J); [| done].
    intros s q Hq (Hm & Hu & Hf). split_and!.
    - by apply collectProfile_modules.
    - apply collectProfile_unknown; [| done | done |].
      + rewrite Hsplit. apply elem_of_app. by left.
      + destruct Hearlier as [Himp | Hnone]; [left; by apply Hf | right; left; by apply Hnone].
    - intros Himp. apply collectProfile_keeps_flag. by apply Hf. }
  set (s1 := foldl (collectProfile w (specPackage pkg analysis)) st2 before) in *.
  assert (all_unknown arn (collectProfile w (specPackage pkg analysis) s1 profile)) as Hu1.
  { apply collectProfile_unknown; [done | done | done |].
    destruct Hfail as [Himp | Hrows]; [left; by apply Hf |].
    right. right. by exists caller. }
  assert (flagged (accountOfArn arn)
            (collectProfile w (specPackage pkg analysis) s1 profile)) as Hf1.
  { destruct Hfail as [Himp | Hrows].
    - apply collectProfile_keeps_flag. by apply Hf.
    - unfold flagged. rewrite collectProfile_ledger, Hwho, Hrows, <- Hacct.
      apply lookup_insert_eq. }
  assert (modules_imported w flags
            (collectProfile w (specPackage pkg analysis) s1 profile)) as Hm1
    by by apply collectProfile_modules.
  apply (foldl_invariant (fun s =>
    modules_imported w flags s ∧ all_unknown arn s ∧ flagged (accountOfArn arn) s)
    (collectProfile w (specPackage pkg analysis)) after); [| done].
  intros s q Hq (Hms & Hus & Hfs). split_and!.
  - by apply collectProfile_modules.
  - apply collectProfile_unknown; [| done | done | by left].
    rewrite Hsplit. apply elem_of_app. right. by right.
  - by apply collectProfile_keeps_flag.
Qed.

End Unknown.

(** The roles listed for a profile whose collection failed, in the profile's
    own account, are collected as nodes that read unknown. *)
Lemma failed_collection_role_collected analysis w pkg flags input st profile caller role :
  collect w (specPackage pkg analysis) flags input = Completed st →
  profile ∈ AWSProfiles flags → AWSWhoami w profile = Some caller →
  collectionFails w flags profile caller →
  role ∈ CachedIamListRoles w profile (ptr_ToString (Account caller)) →
  accountOfArn (RoleArn role) = ptr_ToString (Account caller) →
  ∃ node, node ∈ GlobalNodes st
          ∧ Node.Arn node = RoleArn role
          ∧ Node.AccountID node = ptr_ToString (Account caller)
          ∧ readRisk (Node.IsAdminString node) = RiskUnknown
          ∧ readRisk (Node.CanPrivEscToAdminString node) = RiskUnknown.
Proof.
  intros Hrun Hin Hw Hfail Hrole Hacct.
  unfold collect in Hrun.
  destruct (forRange _ _ _) as [st2|code st2] eqn:Himport; cbn in Hrun; [| done].
  injection Hrun as <-.
  set (pkg' := specPackage pkg analysis) in *.
  set (flagged := fun s : CapeState =>
    analyzedAccounts s !! ptr_ToString (Account caller) = Some unsuccessfulJob).
  set (found := fun s : CapeState =>
    ∃ node, node ∈ GlobalNodes s
            ∧ Node.Arn node = RoleArn role
            ∧ Node.AccountID node = ptr_ToString (Account caller)
            ∧ readRisk (Node.IsAdminString node) = RiskUnknown
            ∧ readRisk (Node.CanPrivEscToAdminString node) = RiskUnknown).
  assert (∀ s, (importFails w flags caller → flagged s) →
               found (collectProfile w pkg' s profile)) as Hhere.
  { intros s Hs.
    pose proof (collectProfile_converts w pkg' s profile caller role Hw Hrole) as Hnode.
    exists (ConvertIAMRoleToNode pkg' role (vendors w)
              (analyzedAccounts (collectProfile w pkg' s profile))).
    split; [exact Hnode |].
    assert (flagged (collectProfile w pkg' s profile)) as Hflag.
    { destruct Hfail as [Himp|Hrows].
      - apply collectProfile_keeps_flag. by apply Hs.
      - unfold flagged. rewrite collectProfile_ledger, Hw, Hrows. apply lookup_insert_eq. }
    destruct (ConvertIAMRoleToNode_spec_unknown analysis role (vendors w)
                (analyzedAccounts (collectProfile w pkg' s profile)))
      as (H1 & H2 & H3 & H4).
    { intros job Hjob. rewrite Hacct in Hjob. unfold flagged in Hflag.
      rewrite Hflag in Hjob. by injection Hjob as <-. }
    split_and!; [exact H1 | by rewrite <- Hacct | exact H3 | exact H4]. }
  apply (foldl_establishes_under (fun s => importFails w flags caller → flagged s) found
    _ _ profile Hin).
  + intros s y Hs Himp. apply collectProfile_keeps_flag. by apply Hs.
  + exact Hhere.
  + intros s y (node & Hnode & Hrest).
    destruct (collectProfile_grows w pkg' s y) as [(extra & Hgrow) _].
    exists node. split; [| exact Hrest]. rewrite Hgrow, elem_of_app. by left.
  + intros [err Herr].
    eapply (forRange_establishes flagged _ _ profile Hin); [| | exact Himport].
    * intros s s' Hs. pose proof (importPmapper_ledger w flags s profile) as Hl.
      rewrite Hs, Hw, Herr in Hl. cbn in Hl. unfold flagged. rewrite Hl.
      apply lookup_insert_eq.
    * intros s y s' Hq Hy. pose proof (importPmapper_keeps_flag w flags _ s y Hq) as Hk.
      by rewrite Hy in Hk.
Qed.

(** A completed run assembles the nodes its collection left. *)
Lemma run_collect w pkg flags input st :
  runCapeCommand w pkg flags input = Completed st →
  ∃ st0, collect w pkg flags input = Completed st0 ∧ GlobalNodes st = GlobalNodes st0.
Proof.
  intros Hrun. unfold runCapeCommand in Hrun.
  destruct (collect w pkg flags input) as [st0|code st0] eqn:Hcollect;
    cbn [andThen] in Hrun; [| done].
  injection Hrun as <-. exists st0. split; [done |]. apply assemble_GlobalNodes.
Qed.


